(** * Credential pool and fallback router of the LLM gateway

    A shallow embedding of [project/core/llm_gateway/key_manager.py],
    [config.py] and [gateway.py], and the properties of the credential
    pool and of the fallback loop that the specification states.

    Conventions of the embedding.
    - A Python [str] is a Rocq [string]; a character is a code point below
      256, and the character classes of Python ([str.isspace], the regular
      expression class of word characters, [str.lower]) are written out on
      that range.
    - A dictionary whose key order can be observed ([_providers],
      [dict.fromkeys]) is an association list in insertion order; the
      dictionaries that are only looked up (the registry, the groups, the
      call parameters) are [gmap]s.
    - A coroutine runs from one suspension point to the next without
      interleaving, with the state of the key manager passed in and out.
      [get_key] is given in its two parts, the guard and the wait, and as
      their composition; the router takes what the other tasks do to the
      manager while a call is suspended as a function [others], about
      which nothing is assumed.
    - The project root is a [FileSystem]; the provider clients are a
      function [make_request] over a world of their own, about which
      nothing is assumed.
    - [print] calls are dropped.

    After the gateway come the provider clients of [providers/], over the
    network and the vendor libraries as functions of the world; the
    decorator [observable] of [framework/observability.py], under which
    [execute] is exported; and [scripts/verify_providers.py], which calls
    it. *)

From Stdlib Require Import String Ascii List Bool Arith Lia.
From stdpp Require Import gmap strings list.

Import ListNotations.

(** ** Python strings *)
Module PyStr.

Definition code (c : ascii) : nat := nat_of_ascii c.

Definition in_range (lo hi : nat) (c : ascii) : bool :=
  (lo <=? code c) && (code c <=? hi).

Definition dquote : ascii := ascii_of_nat 34.
Definition newline : ascii := ascii_of_nat 10.

(** [str.isspace] on one character. *)
Definition isspace (c : ascii) : bool :=
  in_range 9 13 c || in_range 28 32 c || (code c =? 133) || (code c =? 160).

(** [str.isalnum] on one character. *)
Definition isalnum (c : ascii) : bool :=
  in_range 48 57 c || in_range 65 90 c || in_range 97 122 c
  || (code c =? 170) || in_range 178 179 c || (code c =? 181)
  || in_range 185 186 c || in_range 188 190 c
  || in_range 192 214 c || in_range 216 246 c || in_range 248 255 c.

(** The class of word characters of [re]: alphanumeric or underscore. *)
Definition is_word (c : ascii) : bool := isalnum c || (code c =? 95).

(** [str.lower] on one character. *)
Definition lower_char (c : ascii) : ascii :=
  if in_range 65 90 c || (in_range 192 222 c && negb (code c =? 215))
  then ascii_of_nat (code c + 32) else c.

(** [s.lower()] *)
Fixpoint lower (s : string) : string :=
  match s with
  | EmptyString => EmptyString
  | String c s' => String (lower_char c) (lower s')
  end.

(** [s.startswith(pre)] *)
Definition startswith (s pre : string) : bool := String.prefix pre s.

(** [s.endswith(suf)] *)
Fixpoint endswith (s suf : string) : bool :=
  String.eqb s suf ||
  match s with
  | EmptyString => false
  | String _ s' => endswith s' suf
  end.

(** [sub in s] *)
Fixpoint contains (sub s : string) : bool :=
  String.prefix sub s ||
  match s with
  | EmptyString => false
  | String _ s' => contains sub s'
  end.

(** [s.replace(old, new)] for a non-empty [old]: occurrences are replaced
    from the left and do not overlap. [skip] counts the characters of an
    occurrence still to be dropped. *)
Fixpoint replace_from (old new : string) (skip : nat) (s : string) : string :=
  match s with
  | EmptyString => EmptyString
  | String c s' =>
      match skip with
      | S n => replace_from old new n s'
      | O =>
          if String.prefix old s
          then new +:+ replace_from old new (String.length old - 1) s'
          else String c (replace_from old new 0 s')
      end
  end.

Definition replace (s old new : string) : string := replace_from old new 0 s.

(** [s.split(sep)] for a one-character separator. *)
Fixpoint split (sep : ascii) (s : string) : list string :=
  match s with
  | EmptyString => [EmptyString]
  | String c s' =>
      if Ascii.eqb c sep then EmptyString :: split sep s'
      else match split sep s' with
           | h :: t => String c h :: t
           | [] => [String c EmptyString]
           end
  end.

Fixpoint lstrip (s : string) : string :=
  match s with
  | EmptyString => EmptyString
  | String c s' => if isspace c then lstrip s' else s
  end.

Fixpoint rstrip (s : string) : string :=
  match s with
  | EmptyString => EmptyString
  | String c s' =>
      match rstrip s' with
      | EmptyString => if isspace c then EmptyString else String c EmptyString
      | r => String c r
      end
  end.

(** [s.strip()] *)
Definition strip (s : string) : string := rstrip (lstrip s).

(** Truth value of a string: non-empty. *)
Definition truthy (s : string) : bool :=
  match s with EmptyString => false | String _ _ => true end.

(** The longest prefix of [s] whose characters satisfy [P], and the rest. *)
Fixpoint span (P : ascii -> bool) (s : string) : string * string :=
  match s with
  | EmptyString => (EmptyString, EmptyString)
  | String c s' =>
      if P c then let '(a, b) := span P s' in (String c a, b)
      else (EmptyString, s)
  end.

(** Every character of [s] satisfies [P]. *)
Fixpoint all_chars (P : ascii -> bool) (s : string) : bool :=
  match s with
  | EmptyString => true
  | String c s' => P c && all_chars P s'
  end.

(** [sep.join(l)], to say what [split] does. *)
Fixpoint join (sep : ascii) (l : list string) : string :=
  match l with
  | [] => EmptyString
  | [x] => x
  | x :: l' => x +:+ String sep (join sep l')
  end.

(** The last character of [s], when there is one, satisfies [P]. *)
Definition last_char_ok (P : ascii -> bool) (s : string) : Prop :=
  forall s' c, s = s' +:+ String c EmptyString -> P c = true.

End PyStr.

(** ** Python dictionaries in insertion order

    [_providers], the model registry and [dict.fromkeys] are dictionaries
    whose key order is observable; they are association lists in insertion
    order. *)
Module PyDict.

Section Dict.
Context {V : Type}.

(** [d.get(k)] *)
Fixpoint get (d : list (string * V)) (k : string) : option V :=
  match d with
  | [] => None
  | (k', v) :: d' => if String.eqb k' k then Some v else get d' k
  end.

(** [d[k] = v]: an existing key keeps its place, a new key goes last. *)
Fixpoint set (d : list (string * V)) (k : string) (v : V) : list (string * V) :=
  match d with
  | [] => [(k, v)]
  | (k', v') :: d' =>
      if String.eqb k' k then (k', v) :: d' else (k', v') :: set d' k v
  end.

(** [k in d] *)
Definition mem (d : list (string * V)) (k : string) : bool :=
  match get d k with Some _ => true | None => false end.

(** [list(d.keys())] *)
Definition keys (d : list (string * V)) : list string := map fst d.

End Dict.

(** [dict.fromkeys(ks)]: every value is [None]. *)
Definition fromkeys (ks : list string) : list (string * unit) :=
  fold_left (fun d k => set d k tt) ks [].

End PyDict.

(** ** [key_manager.py] *)
Module KeyManager.
Import PyStr.

Definition GET_KEY_TIMEOUT_SECONDS : nat := 30.
Definition QUARANTINE_DURATION_SECONDS : nat := 300.

(** The exceptions that reach the gateway, each with its message. *)
Inductive exn : Type :=
| NoKeysAvailableError (msg : string)
| GetKeyTimeoutError (msg : string)
| ValueError (msg : string)
| OSError (msg : string)
| KeyError (msg : string)
| Exception_ (msg : string).

(** [str(e)] *)
Definition str_exn (e : exn) : string :=
  match e with
  | NoKeysAvailableError m | GetKeyTimeoutError m | ValueError m
  | OSError m | KeyError m | Exception_ m => m
  end.

(** The project root as the manager sees it: [os.listdir] gives the file
    names in the order of the operating system or raises [OSError];
    [read_file] is the text of a file, [None] when opening or decoding it
    raises. *)
Record FileSystem : Type := {
  listdir : list string + string;
  read_file : string -> option string
}.

(** An [asyncio.Queue] without bound: the items in arrival order. *)
Abbreviation Queue := (list string).

Definition queue_empty (q : Queue) : bool :=
  match q with [] => true | _ :: _ => false end.

(** [put] and [put_nowait] never wait on a queue without bound. *)
Definition queue_put (q : Queue) (item : string) : Queue := q ++ [item].

(** [wait_for(q.get(), timeout)] in an atomic run: the head when there is
    one; [None] stands for a wait that no producer ends in time. *)
Definition queue_get (q : Queue) : option (string * Queue) :=
  match q with
  | [] => None
  | item :: q' => Some (item, q')
  end.

(** One value of [_providers]. The quarantine dictionary is created empty
    and nothing in the source writes to it. *)
Record ProviderEntry : Type := {
  keys : Queue;
  quarantine : list (string * nat)
}.

Record ApiKeyManager : Type := {
  _providers : list (string * ProviderEntry);
  _initialized : bool
}.

(** [ApiKeyManager.__init__] *)
Definition new_manager : ApiKeyManager :=
  {| _providers := []; _initialized := false |}.

Definition with_keys (e : ProviderEntry) (q : Queue) : ProviderEntry :=
  {| keys := q; quarantine := quarantine e |}.

(** The regular expression of the loader, anchored at a line start: one or
    more word characters, the text _API_KEYS, an equals sign, a double
    quote, one or more characters other than a double quote (the group),
    and a double quote. At [s], a line start, the word characters can only
    be the longest run of them, since an equals sign is none; the group can
    only be the longest run free of double quotes, since the closing quote
    follows it. *)
Definition not_dquote (c : ascii) : bool := negb (Ascii.eqb c dquote).

Definition match_api_keys_at (s : string) : option string :=
  let '(w, rest) := span is_word s in
  if endswith w "_API_KEYS" && (9 <? String.length w) then
    match rest with
    | String c1 (String c2 rest') =>
        if Ascii.eqb c1 "="%char && Ascii.eqb c2 dquote then
          let '(g, rest'') := span not_dquote rest' in
          match g, rest'' with
          | String _ _, String _ _ => Some g
          | _, _ => None
          end
        else None
    | _ => None
    end
  else None.

(** [re.search(pattern, content, re.MULTILINE)]: the first line start, from
    the left, where the pattern matches; the result is its group. *)
Fixpoint search_from (at_line_start : bool) (s : string) : option string :=
  match s with
  | EmptyString => None
  | String c s' =>
      match (if at_line_start then match_api_keys_at s else None) with
      | Some g => Some g
      | None => search_from (Ascii.eqb c newline) s'
      end
  end.

Definition search_api_keys (content : string) : option string :=
  search_from true content.

(** The pattern in words, to compare the two functions above with. A text
    matches with group [g] when it is: a non-empty run [w] of word
    characters, the text _API_KEYS=, a double quote, the non-empty [g] free
    of double quotes, a double quote, and any rest. *)
Definition key_line_match (s g : string) : Prop :=
  exists w rest,
    s = w +:+ "_API_KEYS=" +:+ String dquote (g +:+ String dquote rest) /\
    w <> EmptyString /\ all_chars is_word w = true /\
    g <> EmptyString /\ all_chars not_dquote g = true.

(** A line starts after [pre] when [pre] is empty or ends in a newline. *)
Definition line_start (pre : string) : Prop :=
  pre = EmptyString \/ exists p, pre = p +:+ String newline EmptyString.

(** [re.search] in words: [content] has a match with group [g] at a line
    start, and none at an earlier line start. *)
Definition first_key_line (content g : string) : Prop :=
  exists pre post,
    content = pre +:+ post /\ line_start pre /\ key_line_match post g /\
    forall pre2 post2 g2,
      content = pre2 +:+ post2 -> line_start pre2 -> key_line_match post2 g2 ->
      String.length pre <= String.length pre2.

(** Whether a line starts after [pre], read from a place where [b] tells
    whether a line starts. *)
Fixpoint line_start_after (b : bool) (pre : string) : bool :=
  match pre with
  | EmptyString => b
  | String c pre' => line_start_after (Ascii.eqb c newline) pre'
  end.

(** [[key.strip() for key in keys_str.split(',') if key.strip()]] *)
Definition parse_keys (keys_str : string) : list string :=
  map strip (List.filter (fun key => truthy (strip key)) (split ","%char keys_str)).

(** [list(dict.fromkeys(keys))] *)
Definition unique (ks : list string) : list string :=
  PyDict.keys (PyDict.fromkeys ks).

(** [put_nowait(key)] on the queue of [self._providers[provider]]. *)
Definition put_key (providers : list (string * ProviderEntry))
    (provider key : string) : list (string * ProviderEntry) :=
  match PyDict.get providers provider with
  | Some e => PyDict.set providers provider (with_keys e (queue_put (keys e) key))
  | None => providers
  end.

Definition is_provider_env_file (f : string) : bool :=
  startswith f ".env." && negb (endswith f ".example").

Definition provider_of (filename : string) : string :=
  replace filename ".env." "".

(** The keys a file contributes: the body of the [try] up to the test
    [if keys]. A file that cannot be read, or has no key line, gives none. *)
Definition file_keys (fs : FileSystem) (filename : string) : list string :=
  match read_file fs filename with
  | None => []
  | Some content =>
      match search_api_keys content with
      | Some keys_str => parse_keys keys_str
      | None => []
      end
  end.

(** One turn of the loop over [provider_env_files]. *)
Definition load_file (fs : FileSystem)
    (providers : list (string * ProviderEntry)) (filename : string)
    : list (string * ProviderEntry) :=
  let provider := provider_of filename in
  match file_keys fs filename with
  | [] => providers
  | ks =>
      let unique_keys := unique ks in
      let providers1 :=
        if PyDict.mem providers provider then providers
        else PyDict.set providers provider {| keys := []; quarantine := [] |} in
      fold_left (fun ps key => put_key ps provider key) unique_keys providers1
  end.

(** [_load_keys_from_provider_env_files], given the listing. *)
Definition _load_keys_from_provider_env_files (fs : FileSystem)
    (files : list string) (providers : list (string * ProviderEntry))
    : list (string * ProviderEntry) :=
  fold_left (load_file fs) (List.filter is_provider_env_file files) providers.

(** [initialize_providers]: the load runs once; when [os.listdir] raises,
    the error leaves the manager as it was. *)
Definition initialize_providers (fs : FileSystem) (st : ApiKeyManager)
    : (unit + exn) * ApiKeyManager :=
  if _initialized st then (inl tt, st)
  else match listdir fs with
       | inr msg => (inr (OSError msg), st)
       | inl files =>
           (inl tt,
            {| _providers := _load_keys_from_provider_env_files fs files (_providers st);
               _initialized := true |})
       end.

(** The manager of a fresh process after its first [initialize_providers]. *)
Definition loaded (fs : FileSystem) : ApiKeyManager :=
  snd (initialize_providers fs new_manager).

(** [get_available_providers] *)
Definition get_available_providers (st : ApiKeyManager) : list string :=
  PyDict.keys (_providers st).

Definition no_keys_message (provider : string) : string :=
  "No API keys configured or available for provider '" +:+ provider +:+ "'.".

Definition timeout_message (provider : string) : string :=
  "Timed out waiting for an API key for '" +:+ provider +:+ "'.".

(** [get_key] up to its guard: the lazy initialization and the test that
    raises [NoKeysAvailableError]. *)
Definition get_key_guard (fs : FileSystem) (st : ApiKeyManager) (provider : string)
    : (unit + exn) * ApiKeyManager :=
  let '(r, st1) :=
    if _initialized st then (inl tt, st) else initialize_providers fs st in
  match r with
  | inr e => (inr e, st1)
  | inl _ =>
      match PyDict.get (_providers st1) provider with
      | None => (inr (NoKeysAvailableError (no_keys_message provider)), st1)
      | Some e =>
          if queue_empty (keys e)
          then (inr (NoKeysAvailableError (no_keys_message provider)), st1)
          else (inl tt, st1)
      end
  end.

(** [get_key] from its [try]: the bounded wait on the queue. With no
    other task running, an empty queue stays empty until the timeout. *)
Definition get_key_dequeue (st : ApiKeyManager) (provider : string)
    : (string + exn) * ApiKeyManager :=
  match PyDict.get (_providers st) provider with
  | None => (inr (KeyError ("'" +:+ provider +:+ "'")), st)
  | Some e =>
      match queue_get (keys e) with
      | Some (key, q) =>
          (inl key,
           {| _providers := PyDict.set (_providers st) provider (with_keys e q);
              _initialized := _initialized st |})
      | None => (inr (GetKeyTimeoutError (timeout_message provider)), st)
      end
  end.

(** [get_key], run without another task between the guard and the wait. *)
Definition get_key (fs : FileSystem) (st : ApiKeyManager) (provider : string)
    : (string + exn) * ApiKeyManager :=
  match get_key_guard fs st provider with
  | (inr e, st1) => (inr e, st1)
  | (inl _, st1) => get_key_dequeue st1 provider
  end.

(** [release_key] *)
Definition release_key (st : ApiKeyManager) (provider key : string)
    (is_permanently_invalid : bool) : ApiKeyManager :=
  match PyDict.get (_providers st) provider with
  | None => st
  | Some e =>
      if is_permanently_invalid then st
      else {| _providers := PyDict.set (_providers st) provider
                              (with_keys e (queue_put (keys e) key));
              _initialized := _initialized st |}
  end.

(** [provider in self._providers] *)
Definition registered (st : ApiKeyManager) (provider : string) : bool :=
  PyDict.mem (_providers st) provider.

(** The queue of a provider, empty when it has no entry. *)
Definition queue_in (providers : list (string * ProviderEntry))
    (provider : string) : Queue :=
  match PyDict.get providers provider with
  | Some e => keys e
  | None => []
  end.

Definition queue_of (st : ApiKeyManager) (provider : string) : Queue :=
  queue_in (_providers st) provider.

End KeyManager.

(** ** [config.py] *)
Module Config.

(** The values a call option or a registry field can hold. *)
Local Unset Elimination Schemes.
Inductive pyval : Type :=
| PNone
| PBool (b : bool)
| PInt (n : Z)
| PStr (s : string)
| PList (items : list pyval)
| PDict (items : list (string * pyval)).
Local Set Elimination Schemes.

Definition PROVIDER_GOOGLE : string := "google".
Definition PROVIDER_MISTRAL : string := "mistral".
Definition PROVIDER_GROQ : string := "groq".
Definition PROVIDER_COHERE : string := "cohere".
Definition PROVIDER_CEREBRAS : string := "cerebras".

(** A registry entry with a mode hint, and one without. *)
Definition reasoning (provider description : string) : gmap string pyval :=
  {[ "provider" := PStr provider; "mode" := PStr "reasoning";
     "description" := PStr description ]}.

Definition plain (provider description : string) : gmap string pyval :=
  {[ "provider" := PStr provider; "description" := PStr description ]}.

Definition registry_entries : list (string * gmap string pyval) :=
  [ ("gemini-3-pro-preview", reasoning PROVIDER_GOOGLE "Gemini 3 Pro Preview.");
    ("gemini-2.5-pro", reasoning PROVIDER_GOOGLE "Gemini 2.5 Pro.");
    ("gemini-2.5-pro-preview-06-05", reasoning PROVIDER_GOOGLE "Gemini 2.5 Pro Preview (June).");
    ("gemini-2.5-pro-preview-05-06", reasoning PROVIDER_GOOGLE "Gemini 2.5 Pro Preview (May).");
    ("gemini-2.5-pro-preview-03-25", reasoning PROVIDER_GOOGLE "Gemini 2.5 Pro Preview (March).");
    ("gemini-pro-latest", reasoning PROVIDER_GOOGLE "Alias for latest Pro.");
    ("gemini-2.0-pro-exp", reasoning PROVIDER_GOOGLE "Gemini 2.0 Pro Experimental.");
    ("gemini-2.0-pro-exp-02-05", reasoning PROVIDER_GOOGLE "Gemini 2.0 Pro Exp (Feb).");
    ("gemini-exp-1206", reasoning PROVIDER_GOOGLE "Gemini Experimental 1206.");
    ("gemini-2.5-flash", reasoning PROVIDER_GOOGLE "Gemini 2.5 Flash.");
    ("gemini-flash-latest", reasoning PROVIDER_GOOGLE "Alias for latest Flash.");
    ("gemini-2.0-flash", reasoning PROVIDER_GOOGLE "Gemini 2.0 Flash.");
    ("gemini-2.0-flash-thinking-exp", reasoning PROVIDER_GOOGLE "Gemini 2.0 Flash Thinking.");
    ("gemini-2.0-flash-thinking-exp-01-21", reasoning PROVIDER_GOOGLE "Gemini 2.0 Flash Thinking (Jan).");
    ("gemini-2.0-flash-lite", reasoning PROVIDER_GOOGLE "Gemini 2.0 Flash Lite.");
    ("gemini-flash-lite-latest", reasoning PROVIDER_GOOGLE "Alias for latest Flash Lite.");
    ("gemma-3-27b-it", plain PROVIDER_GOOGLE "Gemma 3 27B Instruct.");
    ("gemma-3-12b-it", plain PROVIDER_GOOGLE "Gemma 3 12B Instruct.");
    ("codestral-2501", plain PROVIDER_MISTRAL "Mistral Codestral 2501.");
    ("mistral-large-2411", plain PROVIDER_MISTRAL "Mistral Large 2.");
    ("mistral-small-2501", plain PROVIDER_MISTRAL "Mistral Small 3.");
    ("open-mistral-7b", plain PROVIDER_MISTRAL "Mistral 7B.");
    ("gpt-oss-120b", plain PROVIDER_CEREBRAS "GPT-OSS 120B.");
    ("llama-3.3-70b", plain PROVIDER_CEREBRAS "Llama 3.3 70B via Cerebras.");
    ("llama-3.1-8b", plain PROVIDER_CEREBRAS "Llama 3.1 8B via Cerebras.");
    ("llama-3.1-8b-instant", plain PROVIDER_GROQ "Llama 3.1 8B Instant via Groq.");
    ("llama-3.3-70b-versatile", plain PROVIDER_GROQ "Llama 3.3 70B Versatile via Groq.");
    ("command-r-plus-08-2024", plain PROVIDER_COHERE "Command R+.");
    ("command-r7b-12-2024", plain PROVIDER_COHERE "Command R7B.") ].

Definition MODELS_REGISTRY : gmap string (gmap string pyval) :=
  list_to_map registry_entries.

Definition group_entries : list (string * list string) :=
  [ ("enhanced_coding",
     ["gemini-2.5-pro"; "gemini-3-pro-preview"; "gemini-2.5-pro-preview-06-05";
      "gemini-2.5-pro-preview-05-06"; "mistral-large-2411"; "codestral-2501";
      "gemini-2.5-flash"]);
    ("enhanced_reasoning", ["gemini-2.5-pro"; "mistral-large-2411"; "gpt-oss-120b"]);
    ("librarian_group", ["gemini-2.5-flash"; "gemini-pro-latest"; "command-r-plus-08-2024"]);
    ("classic_coding",
     ["gpt-oss-120b"; "gemini-flash-latest"; "llama-3.3-70b-versatile";
      "llama-3.1-8b-instant"]);
    ("classic_reasoning",
     ["llama-3.3-70b"; "gpt-oss-120b"; "gemini-2.5-flash-lite"; "mistral-small-2501"]);
    ("classic_secondary_reasoning", ["gpt-oss-120b"; "llama-3.3-70b"]);
    ("weak_coding", ["llama-3.1-8b-instant"; "open-mistral-7b"]);
    ("weak_reasoning", ["llama-3.1-8b-instant"; "open-mistral-7b"]);
    ("coding_model_group", ["gemini-2.5-pro"; "codestral-2501"]);
    ("reasoning_model_group", ["gemini-2.5-pro"; "mistral-large-2411"]) ].

Definition MODEL_GROUPS : gmap string (list string) := list_to_map group_entries.

(** [MODELS_REGISTRY.get(model_name)] *)
Definition get_model_config (model_name : string) : option (gmap string pyval) :=
  MODELS_REGISTRY !! model_name.

(** [MODEL_GROUPS.get(group_name, [])] *)
Definition get_model_group (group_name : string) : list string :=
  default [] (MODEL_GROUPS !! group_name).

End Config.

(** ** [gateway.py] *)
Module Gateway.
Import PyStr KeyManager Config.

Inductive client_class : Type :=
| GoogleClient | MistralClient | GroqClient | CohereClient | CerebrasClient.

Definition PROVIDER_MAP : gmap string client_class :=
  {[ "google" := GoogleClient; "mistral" := MistralClient; "groq" := GroqClient;
     "cohere" := CohereClient; "cerebras" := CerebrasClient ]}.

(** Every client class starts [__init__] with the same test: an empty key
    raises [ValueError] with this message. *)
Definition key_required_message (cls : client_class) : string :=
  match cls with
  | GoogleClient => "Google"
  | MistralClient => "Mistral"
  | GroqClient => "Groq"
  | CohereClient => "Cohere"
  | CerebrasClient => "Cerebras"
  end +:+ " API key is required.".

(** What the rest of a provider client raises: [make_request] wraps every
    failure of the request in [IOError]; the library calls of a
    constructor may raise on their own. *)
Inductive client_error : Type :=
| ClientIOError (msg : string)
| ClientValueError (msg : string).

Definition exn_of_client (e : client_error) : exn :=
  match e with
  | ClientIOError m => OSError m
  | ClientValueError m => ValueError m
  end.

(** The test of the generic handler on [str(e)]. *)
Definition is_auth_error (msg : string) : bool :=
  contains "401" msg || contains "403" msg || contains "API key" (lower msg).

(** [{**model_details, **kwargs, prompt: prompt, model_name: model_name}] *)
Definition call_params (model_details kwargs : gmap string pyval)
    (prompt model_name : string) : gmap string pyval :=
  <["model_name" := PStr model_name]>
    (<["prompt" := PStr prompt]> (kwargs ∪ model_details)).

(** [str(last_error)] inside the final message. *)
Definition str_last_error (last_error : option exn) : string :=
  match last_error with
  | None => "None"
  | Some e => str_exn e
  end.

Definition exhausted_message (model_group : string) (last_error : option exn) : string :=
  "Failed to get a response from any model in the group '" +:+ model_group
  +:+ "'. Last error: " +:+ str_last_error last_error.

Definition unknown_group_message (model_group : string) : string :=
  "Model group '" +:+ model_group +:+ "' not found in router configuration.".

Definition not_supported_message (provider : string) : string :=
  "Provider '" +:+ provider +:+ "' not supported.".

(** What one turn of the loop did with its candidate: skipped it, failed
    to get a key, failed with a key in hand (after a request with
    [params], or before any request), or got a response. *)
Inductive attempt : Type :=
| UnknownModel
| NoProviderKeys (provider : pyval)
| CheckoutFailed (provider : string) (e : exn)
| Failed (provider key : string) (params : option (gmap string pyval))
    (e : exn) (retired : bool)
| Succeeded (provider key : string) (params : gmap string pyval) (text : string).

(** The exception a turn caught. *)
Definition failure_of (a : attempt) : option exn :=
  match a with
  | CheckoutFailed _ e | Failed _ _ _ e _ => Some e
  | _ => None
  end.

Definition succeeded (a : attempt) : bool :=
  match a with Succeeded _ _ _ _ => true | _ => false end.

(** The call parameters a turn passed to a provider client. *)
Definition dispatched (a : attempt) : option (gmap string pyval) :=
  match a with
  | Failed _ _ params _ _ => params
  | Succeeded _ _ params _ => Some params
  | _ => None
  end.

(** The last exception caught along a trace, [init] when there is none. *)
Definition last_failure_from (init : option exn) (tr : list (string * attempt))
    : option exn :=
  fold_left (fun acc ma => match failure_of (snd ma) with
                           | Some e => Some e
                           | None => acc
                           end) tr init.

Definition last_failure (tr : list (string * attempt)) : option exn :=
  last_failure_from None tr.

Section Router.
Context {World : Type}.

(** The provider clients: constructing the client of a class with a
    non-empty key and awaiting [make_request] on the call parameters gives
    a text or raises, and may change the world outside. *)
Variable make_request :
  client_class -> string -> gmap string pyval -> World ->
  (string + client_error) * World.

(** The other tasks of the process: what they have done to the key
    manager when this call resumes from a suspension, be it the wait for a
    key or the request to a provider. When nothing else runs, they leave
    the manager as it is. The source's tasks only take keys from the
    queues and put keys back; the router is given for any [others]. *)
Variable others : World -> ApiKeyManager -> ApiKeyManager * World.

Variable fs : FileSystem.

Inductive turn : Type :=
| Return (text : string) (km : ApiKeyManager) (w : World) (a : attempt)
| Continue (km : ApiKeyManager) (w : World) (last_error : option exn) (a : attempt)
| Propagate (e : exn) (km : ApiKeyManager) (w : World).

(** The generic handler: [last_error = e], and the key, when one is held,
    is released or retired. *)
Definition handle_error (km : ApiKeyManager) (w : World)
    (provider : string) (api_key : string)
    (params : option (gmap string pyval)) (e : exn) : turn :=
  let is_auth := is_auth_error (str_exn e) in
  if truthy api_key
  then Continue (release_key km provider api_key is_auth) w (Some e)
                (Failed provider api_key params e is_auth)
  else Continue km w (Some e) (Failed provider api_key params e false).

(** [await get_key(provider)]: past the guard, the call is suspended in
    [wait_for], and the wait sees the queue as the other tasks left it. *)
Definition get_key_suspended (km : ApiKeyManager) (w : World) (provider : string)
    : (string + exn) * ApiKeyManager * World :=
  match get_key_guard fs km provider with
  | (inr e, km1) => (inr e, km1, w)
  | (inl _, km1) =>
      let '(km2, w1) := others w km1 in
      let '(r, km3) := get_key_dequeue km2 provider in
      (r, km3, w1)
  end.

(** The body of the loop for one model name. *)
Definition try_model (prompt : string) (kwargs : gmap string pyval)
    (available_providers : list string) (model_name : string)
    (km : ApiKeyManager) (w : World) (last_error : option exn) : turn :=
  match get_model_config model_name with
  | None => Continue km w last_error UnknownModel
  | Some model_details =>
      if (size model_details =? 0)%nat then Continue km w last_error UnknownModel
      else
        match model_details !! "provider" with
        | None => Propagate (KeyError "'provider'") km w
        | Some (PStr provider) =>
            if negb (existsb (String.eqb provider) available_providers)
            then Continue km w last_error (NoProviderKeys (PStr provider))
            else
              match get_key_suspended km w provider with
              | (inr e, km1, w1) =>
                  Continue km1 w1 (Some e) (CheckoutFailed provider e)
              | (inl api_key, km1, w1) =>
                  match PROVIDER_MAP !! provider with
                  | None =>
                      handle_error km1 w1 provider api_key None
                        (ValueError (not_supported_message provider))
                  | Some cls =>
                      if negb (truthy api_key)
                      then handle_error km1 w1 provider api_key None
                             (ValueError (key_required_message cls))
                      else
                        let params := call_params model_details kwargs prompt model_name in
                        let '(r, w2) := make_request cls api_key params w1 in
                        let '(km2, w3) := others w2 km1 in
                        match r with
                        | inl response =>
                            Return response (release_key km2 provider api_key false) w3
                                   (Succeeded provider api_key params response)
                        | inr ce =>
                            handle_error km2 w3 provider api_key (Some params)
                              (exn_of_client ce)
                        end
                  end
              end
        | Some other => Continue km w last_error (NoProviderKeys other)
        end
  end.

Record outcome : Type := {
  result : string + exn;
  manager : ApiKeyManager;
  world : World;
  trace : list (string * attempt)
}.

Definition logged (model_name : string) (a : attempt) (o : outcome) : outcome :=
  {| result := result o; manager := manager o; world := world o;
     trace := (model_name, a) :: trace o |}.

(** The loop over [model_priority_list] and the final [raise]. *)
Fixpoint call_loop (model_group prompt : string) (kwargs : gmap string pyval)
    (available_providers : list string) (models : list string)
    (km : ApiKeyManager) (w : World) (last_error : option exn) : outcome :=
  match models with
  | [] =>
      {| result := inr (Exception_ (exhausted_message model_group last_error));
         manager := km; world := w; trace := [] |}
  | model_name :: rest =>
      match try_model prompt kwargs available_providers model_name km w last_error with
      | Return text km1 w1 a =>
          {| result := inl text; manager := km1; world := w1;
             trace := [(model_name, a)] |}
      | Continue km1 w1 le a =>
          logged model_name a
            (call_loop model_group prompt kwargs available_providers rest km1 w1 le)
      | Propagate e km1 w1 =>
          {| result := inr e; manager := km1; world := w1; trace := [] |}
      end
  end.

(** [LLMGateway.call] *)
Definition call (km : ApiKeyManager) (w : World) (model_group prompt : string)
    (kwargs : gmap string pyval) : outcome :=
  match get_model_group model_group with
  | [] =>
      {| result := inr (ValueError (unknown_group_message model_group));
         manager := km; world := w; trace := [] |}
  | model_priority_list =>
      call_loop model_group prompt kwargs (get_available_providers km)
        model_priority_list km w None
  end.

(** [execute]: the first call creates the gateway after initializing the
    key manager; [created] tells whether the gateway exists. *)
Definition execute (created : bool) (km : ApiKeyManager) (w : World)
    (model_group prompt : string) (kwargs : gmap string pyval) : bool * outcome :=
  if created then (true, call km w model_group prompt kwargs)
  else match initialize_providers fs km with
       | (inr e, km1) =>
           (false, {| result := inr e; manager := km1; world := w; trace := [] |})
       | (inl _, km1) => (true, call km1 w model_group prompt kwargs)
       end.

End Router.

End Gateway.

(** ** Sequences of pool operations

    The three operations of the specification on the pool of a provider,
    as the calls the gateway makes: a checkout is [get_key], a release is
    [release_key] with the flag at its default, a retirement is
    [release_key] with [is_permanently_invalid=True]. *)
Module Pool.
Import KeyManager.

Inductive op : Type :=
| Checkout (provider : string)
| Release (provider key : string)
| Retire (provider key : string).

(** One operation: the manager after it, and the key a checkout issued. *)
Definition exec_op (fs : FileSystem) (st : ApiKeyManager) (o : op)
    : ApiKeyManager * option string :=
  match o with
  | Checkout p =>
      match get_key fs st p with
      | (inl key, st') => (st', Some key)
      | (inr _, st') => (st', None)
      end
  | Release p key => (release_key st p key false, None)
  | Retire p key => (release_key st p key true, None)
  end.

(** A key issued by a checkout for [p] goes in front of those issued later. *)
Definition record_issue (p : string) (o : op) (got : option string)
    (issued : list string) : list string :=
  match o, got with
  | Checkout p', Some key => if String.eqb p' p then key :: issued else issued
  | _, _ => issued
  end.

(** The keys issued for [p] by the checkouts of a sequence, in order, and
    the manager after the sequence. *)
Fixpoint run_ops (fs : FileSystem) (st : ApiKeyManager) (p : string) (ops : list op)
    : ApiKeyManager * list string :=
  match ops with
  | [] => (st, [])
  | o :: ops' =>
      let '(st1, got) := exec_op fs st o in
      let '(st2, issued) := run_ops fs st1 p ops' in
      (st2, record_issue p o got issued)
  end.

(** The keys the plain releases of a sequence hand back to [p], in order. *)
Fixpoint released_for (p : string) (ops : list op) : list string :=
  match ops with
  | [] => []
  | Release p' key :: ops' =>
      if String.eqb p' p then key :: released_for p ops' else released_for p ops'
  | _ :: ops' => released_for p ops'
  end.

(** The source stores the available keys only. The ledger keeps, beside
    the manager, the keys that calls hold and the keys that were retired,
    per provider. *)
Record ledger : Type := {
  checked_out : string -> list string;
  retired : string -> list string
}.

Definition empty_ledger : ledger :=
  {| checked_out := fun _ => []; retired := fun _ => [] |}.

Fixpoint remove_one (k : string) (l : list string) : list string :=
  match l with
  | [] => []
  | x :: l' => if String.eqb x k then l' else x :: remove_one k l'
  end.

Definition update (f : string -> list string) (p : string) (l : list string)
    : string -> list string :=
  fun p' => if String.eqb p' p then l else f p'.

Definition holds (led : ledger) (p key : string) : bool :=
  existsb (String.eqb key) (checked_out led p).

(** The ledger after an operation; [None] when a release or a retirement
    names a key that no call holds, against the precondition of both. *)
Definition ledger_step (led : ledger) (o : op) (got : option string) : option ledger :=
  match o with
  | Checkout p =>
      Some match got with
           | Some key =>
               {| checked_out := update (checked_out led) p (key :: checked_out led p);
                  retired := retired led |}
           | None => led
           end
  | Release p key =>
      if holds led p key
      then Some {| checked_out := update (checked_out led) p (remove_one key (checked_out led p));
                   retired := retired led |}
      else None
  | Retire p key =>
      if holds led p key
      then Some {| checked_out := update (checked_out led) p (remove_one key (checked_out led p));
                   retired := update (retired led) p (key :: retired led p) |}
      else None
  end.

(** A sequence run with the ledger; [None] when some operation breaks its
    precondition. *)
Fixpoint run_checked (fs : FileSystem) (st : ApiKeyManager) (led : ledger)
    (ops : list op) : option (ApiKeyManager * ledger) :=
  match ops with
  | [] => Some (st, led)
  | o :: ops' =>
      let '(st1, got) := exec_op fs st o in
      match ledger_step led o got with
      | Some led1 => run_checked fs st1 led1 ops'
      | None => None
      end
  end.

(** The precondition of a release and of a retirement as the
    specification words it: the key was checked out from that pool before,
    whether or not it was given back since. [issued] holds the keys that
    the checkouts issued so far, each with its provider. *)
Fixpoint previously_checked_out (fs : FileSystem) (st : ApiKeyManager)
    (issued : list (string * string)) (ops : list op) : bool :=
  match ops with
  | [] => true
  | o :: ops' =>
      let '(st1, got) := exec_op fs st o in
      match o with
      | Checkout p =>
          previously_checked_out fs st1
            (match got with Some key => (p, key) :: issued | None => issued end) ops'
      | Release p key | Retire p key =>
          existsb (fun pk => String.eqb (fst pk) p && String.eqb (snd pk) key) issued
          && previously_checked_out fs st1 issued ops'
      end
  end.

(** The three states of a credential, and what it is for a key of [p] to
    be in one of them. *)
Inductive state : Type := Available | CheckedOut | Retired.

Definition in_state (st : ApiKeyManager) (led : ledger) (p key : string)
    (s : state) : Prop :=
  match s with
  | Available => key ∈ queue_of st p
  | CheckedOut => key ∈ checked_out led p
  | Retired => key ∈ retired led p
  end.

(** The specification's wording of the loaded list: the keys without
    repetition, each at the place of its first occurrence. *)
Fixpoint first_occurrences (ks : list string) : list string :=
  match ks with
  | [] => []
  | k :: ks' => k :: List.filter (fun x => negb (String.eqb x k)) (first_occurrences ks')
  end.

End Pool.

(** ** Concrete project roots and provider clients *)
Module Examples.
Import PyStr KeyManager Config Gateway.

(** A key line of an env file: NAME_API_KEYS= and the keys in double quotes. *)
Definition key_line (name keys_str : string) : string :=
  name +:+ "_API_KEYS=" +:+ String dquote keys_str +:+ String dquote EmptyString.

(** A project root whose only provider file is [.env.google]. *)
Definition google_only (content : string) : FileSystem :=
  {| listdir := inl ["README.md"; ".env.google"; ".env.example"];
     read_file := fun f =>
       if String.eqb f ".env.google" then Some content else None |}.

Definition one_key_fs : FileSystem := google_only (key_line "GOOGLE" "k1").

Definition two_keys_fs : FileSystem := google_only (key_line "GOOGLE" "k1, k2,k1").

(** The key line is there, and holds blanks and a comma only. *)
Definition keyless_fs : FileSystem := google_only (key_line "GOOGLE" " , ").

(** A project root with one key for [google] and one for [mistral]. *)
Definition google_mistral_fs : FileSystem :=
  {| listdir := inl [".env.mistral"; ".env.google"];
     read_file := fun f =>
       if String.eqb f ".env.google" then Some (key_line "GOOGLE" "g1")
       else if String.eqb f ".env.mistral" then Some (key_line "MISTRAL" "m1")
       else None |}.

(** No other task runs. *)
Definition no_others : nat -> ApiKeyManager -> ApiKeyManager * nat :=
  fun w km => (km, w).

(** Another task takes every key of [google] from the queue whenever this
    call is suspended. *)
Definition google_drained : nat -> ApiKeyManager -> ApiKeyManager * nat :=
  fun w km =>
    (match PyDict.get (_providers km) "google" with
     | Some e =>
         {| _providers := PyDict.set (_providers km) "google" (with_keys e []);
            _initialized := _initialized km |}
     | None => km
     end, w).

(** A client that raises [IOError] with the given message on every
    request; the world counts the requests. *)
Definition failing_client (msg : string)
    : client_class -> string -> gmap string pyval -> nat ->
      (string + client_error) * nat :=
  fun _ _ _ n => (inr (ClientIOError msg), S n).

(** A client that fails for Google and answers for every other class. *)
Definition google_down_client
    : client_class -> string -> gmap string pyval -> nat ->
      (string + client_error) * nat :=
  fun cls _ _ n =>
    match cls with
    | GoogleClient => (inr (ClientIOError "Google API call failed: 503 unavailable"), S n)
    | _ => (inl "answer", S n)
    end.


End Examples.

(** ** What the turns of a call did to the pool *)
Module CallTrace.
Import KeyManager Gateway.

(** The key that a turn retired for [p], if any. *)
Definition retired_by (p : string) (a : attempt) : list string :=
  match a with
  | Failed p' key _ _ true => if String.eqb p' p then [key] else []
  | _ => []
  end.

(** The keys of [p] that the turns of a trace retired, in order. *)
Definition retired_in (p : string) (tr : list (string * attempt)) : list string :=
  flat_map (fun ma => retired_by p (snd ma)) tr.

(** A turn that sent no request and held no key. *)
Definition without_request (a : attempt) : Prop :=
  match a with
  | UnknownModel | NoProviderKeys _ => True
  | CheckoutFailed p e => e = NoKeysAvailableError (no_keys_message p)
  | Failed _ _ _ _ _ | Succeeded _ _ _ _ => False
  end.

End CallTrace.

(** ** Invariants of the key manager *)
Module Invariant.
Import PyStr KeyManager.

(** The quarantine of every entry is empty. *)
Definition quarantine_unused (st : ApiKeyManager) : Prop :=
  Forall (fun pe => quarantine (snd pe) = []) (_providers st).

(** Every queued key is a non-empty text. *)
Definition keys_truthy (st : ApiKeyManager) : Prop :=
  forall p key, key ∈ queue_of st p -> truthy key = true.

End Invariant.

(** ** More project roots *)
Module Roots.
Import PyStr KeyManager Examples.

(** Two provider files whose names both resolve to [google], and one file
    that cannot be read. *)
Definition shared_provider_fs : FileSystem :=
  {| listdir := inl [".env.google"; ".env.mistral"; ".env.goo.env.gle"];
     read_file := fun f =>
       if String.eqb f ".env.google" then Some (key_line "GOOGLE" "k1,k2")
       else if String.eqb f ".env.goo.env.gle" then Some (key_line "GOOGLE" "k2,k3")
       else None |}.

(** A project root that cannot be listed. *)
Definition unreadable_fs : FileSystem :=
  {| listdir := inr "[Errno 13] Permission denied: '.'";
     read_file := fun _ => None |}.

(** Three keys for [google]. *)
Definition three_keys_fs : FileSystem := google_only (key_line "GOOGLE" "k1,k2,k3").

End Roots.

From stdpp Require Import pretty.

(** ** [providers/*.py]: the provider clients

    The network and the vendor libraries are functions over a world of
    their own, about which nothing is assumed: [post] is
    [httpx.AsyncClient().post]; the three others are the calls of the Groq,
    Cohere and Google libraries. An exception of theirs is given by its
    text, [str(e)], which is all that the clients use of it. *)
Module Clients.
Import PyStr KeyManager Config Gateway.

(** What [**call_params] leaves to [**kwargs] of [make_request] once
    [model_name] and [prompt] are bound. *)
Definition client_kwargs (params : gmap string pyval) : gmap string pyval :=
  delete "model_name" (delete "prompt" params).

(** [kwargs.get(k) == s] *)
Definition get_is (kwargs : gmap string pyval) (k s : string) : bool :=
  match kwargs !! k with
  | Some (PStr v) => String.eqb v s
  | _ => false
  end.

(** [if k in kwargs: payload[k] = kwargs[k]] *)
Definition copy_option (kwargs : gmap string pyval) (k : string)
    (payload : list (string * pyval)) : list (string * pyval) :=
  match kwargs !! k with
  | Some v => PyDict.set payload k v
  | None => payload
  end.

(** [[{"role": "user", "content": prompt}]] *)
Definition user_message (prompt : string) : pyval :=
  PList [PDict [("role", PStr "user"); ("content", PStr prompt)]].

(** The arguments of [post]; the time limit is in seconds. *)
Record http_request : Type := {
  url : string;
  headers : list (string * string);
  json : list (string * pyval);
  timeout : Z
}.

(** What the clients read of a response: the status, the body, the text
    of the exception of [raise_for_status()] when it raises, and the value
    of [response.json()["choices"][0]["message"]["content"]], a text as the
    annotation of [make_request] has it, or the text of the exception that
    reading it raises. *)
Record http_response : Type := {
  status_code : Z;
  text : string;
  raise_for_status : option string;
  content : string + string
}.

(** [post] returns a response, raises [httpx.RequestError], or raises
    another exception. *)
Inductive http_outcome : Type :=
| Responded (r : http_response)
| RequestError (msg : string)
| Raised (msg : string).

(** An attribute of an object of the Google library, which may be a
    property: it is missing, and [hasattr] is false; or reading it gives a
    value; or reading it raises another exception than [AttributeError],
    which [hasattr] lets through. Reading it again gives the same. *)
Inductive attr (A : Type) : Type :=
| Missing
| Value (a : A)
| Raises (msg : string).
Arguments Missing {A}.
Arguments Value {A} a.
Arguments Raises {A} msg.

(** What [part.function_call] holds: a value that is false; or a call,
    given by the texts that [fc.name] and [fc.args] take in the f-string; or
    a value that is true of which reading the name or the arguments
    raises. *)
Inductive call_value : Type :=
| FalseCall
| Call (name args : string)
| BadCall (msg : string).

(** One part of a Google response. *)
Record part : Type := {
  part_text : attr string;
  function_call : attr call_value
}.

(** A Google response: [response.text], [None] when reading it raises, and
    [response.parts]; the library raises on reading the parts of a response
    that has no candidate. *)
Record google_response : Type := {
  response_text : option string;
  parts : attr (list part)
}.

Record libraries (World : Type) : Type := {
  post : http_request -> World -> http_outcome * World;
  (** [chat.completions.create] of [AsyncGroq(api_key)] on the payload,
      read at [choices[0].message.content] *)
  groq_create : string -> list (string * pyval) -> World -> (string + string) * World;
  (** [cohere.AsyncClient(api_key).chat(model=, message=)], read at [text] *)
  cohere_chat : string -> string -> string -> World -> (string + string) * World;
  (** [genai.configure(api_key=)]: the key is set for the whole process. *)
  genai_configure : string -> World -> World;
  (** [genai.GenerativeModel(model_name, **model_kwargs)
       .generate_content_async(prompt)] *)
  generate_content :
    string -> list (string * pyval) -> string -> World -> (google_response + string) * World
}.
Arguments post {World}.
Arguments groq_create {World}.
Arguments cohere_chat {World}.
Arguments genai_configure {World}.
Arguments generate_content {World}.

Definition DUMMY_TOOL : pyval :=
  PDict [("function_declarations",
          PList [PDict [("name", PStr "execute_code");
                        ("description", PStr "Executes python code")]])].

(** The text that every [IOError] of a client starts with. *)
Definition failed_prefix (cls : client_class) : string :=
  match cls with
  | GoogleClient => "Google"
  | MistralClient => "Mistral"
  | GroqClient => "Groq"
  | CohereClient => "Cohere"
  | CerebrasClient => "Cerebras"
  end +:+ " API call failed: ".

Definition io_error (cls : client_class) (e : string) : client_error :=
  ClientIOError (failed_prefix cls +:+ e).

(** [MistralClient.make_request]: the payload. *)
Definition mistral_payload (model_name prompt : string) (kwargs : gmap string pyval)
    : list (string * pyval) :=
  let messages := default (user_message prompt) (kwargs !! "messages") in
  let payload := [("model", PStr model_name); ("messages", messages)] in
  let payload := copy_option kwargs "temperature" payload in
  let payload := copy_option kwargs "max_tokens" payload in
  if get_is kwargs "mode" "json" || get_is kwargs "response_format" "json_object"
  then PyDict.set payload "response_format" (PDict [("type", PStr "json_object")])
  else payload.

Definition mistral_request (api_key model_name prompt : string)
    (kwargs : gmap string pyval) : http_request :=
  {| url := "https://api.mistral.ai/v1" +:+ "/chat/completions";
     headers := [("Authorization", "Bearer " +:+ api_key);
                 ("Content-Type", "application/json");
                 ("Accept", "application/json")];
     json := mistral_payload model_name prompt kwargs;
     timeout := 60 |}.

(** The text of the [IOError] that a status other than 200 raises inside
    the [try]. *)
Definition mistral_status_error (r : http_response) : string :=
  "Mistral API Error " +:+ pretty (status_code r) +:+ ": " +:+ text r.

(** [CerebrasClient.make_request]: the payload; [GroqClient] builds the
    same fields in the other order. *)
Definition cerebras_payload (model_name prompt : string) (kwargs : gmap string pyval)
    : list (string * pyval) :=
  copy_option kwargs "reasoning_effort"
    [("model", PStr model_name); ("messages", user_message prompt)].

Definition cerebras_request (api_key model_name prompt : string)
    (kwargs : gmap string pyval) : http_request :=
  {| url := "https://api.cerebras.ai/v1" +:+ "/chat/completions";
     headers := [("Authorization", "Bearer " +:+ api_key);
                 ("Content-Type", "application/json")];
     json := cerebras_payload model_name prompt kwargs;
     timeout := 300 |}.

Definition groq_payload (model_name prompt : string) (kwargs : gmap string pyval)
    : list (string * pyval) :=
  copy_option kwargs "reasoning_effort"
    [("messages", user_message prompt); ("model", PStr model_name)].

(** [GoogleClient.make_request]: the keyword arguments of the model. *)
Definition google_model_kwargs (kwargs : gmap string pyval) : list (string * pyval) :=
  if get_is kwargs "mode" "reasoning" then [("tools", DUMMY_TOOL)] else [].

(** The text that stands for a function call of a response. *)
Definition tool_call_text (name args : string) : string :=
  "```python" +:+ String newline ("# Tool Call: " +:+ name +:+ "(" +:+ args +:+ ")"
  +:+ String newline "```").

(** One turn of the loop over the parts: what the part adds to
    [parts_text], or the text of the exception that reading it raises. *)
Definition part_texts (p : part) : list string + string :=
  match part_text p with
  | Raises e => inr e
  | Missing | Value _ =>
      let texts := match part_text p with
                   | Value t => if truthy t then [t] else []
                   | _ => []
                   end in
      match function_call p with
      | Raises e | Value (BadCall e) => inr e
      | Value (Call name args) => inl (texts ++ [tool_call_text name args])
      | Missing | Value FalseCall => inl texts
      end
  end.

(** The loop over the parts: the first exception ends it. *)
Fixpoint parts_texts (ps : list part) : list string + string :=
  match ps with
  | [] => inl []
  | p :: ps' =>
      match part_texts p with
      | inr e => inr e
      | inl texts =>
          match parts_texts ps' with
          | inr e => inr e
          | inl texts' => inl (texts ++ texts')
          end
      end
  end.

(** [parts_text] at the end of the [except] branch, or the text of the
    exception that leaves the branch. *)
Definition parts_text (response : google_response) : list string + string :=
  match parts response with
  | Missing => inl []
  | Value ps => parts_texts ps
  | Raises e => inr e
  end.

Definition no_text_message : string := "Response contained no text or function calls.".

Section Requests.
Context {World : Type}.
Variable lib : libraries World.

(** [client_class(api_key)]: every constructor refuses an empty key; the
    one of [GoogleClient] sets the key for the whole process. *)
Definition init (cls : client_class) (api_key : string) (w : World)
    : (unit + client_error) * World :=
  if negb (truthy api_key)
  then (inr (ClientValueError (key_required_message cls)), w)
  else match cls with
       | GoogleClient => (inl tt, genai_configure lib api_key w)
       | _ => (inl tt, w)
       end.

Definition mistral_make_request (api_key model_name prompt : string)
    (kwargs : gmap string pyval) (w : World) : (string + client_error) * World :=
  match post lib (mistral_request api_key model_name prompt kwargs) w with
  | (RequestError e, w1) =>
      (inr (ClientIOError ("Mistral connection error: " +:+ e)), w1)
  | (Raised e, w1) => (inr (io_error MistralClient e), w1)
  | (Responded r, w1) =>
      if negb (status_code r =? 200)%Z
      then (inr (io_error MistralClient (mistral_status_error r)), w1)
      else match content r with
           | inl c => (inl c, w1)
           | inr e => (inr (io_error MistralClient e), w1)
           end
  end.

Definition cerebras_make_request (api_key model_name prompt : string)
    (kwargs : gmap string pyval) (w : World) : (string + client_error) * World :=
  match post lib (cerebras_request api_key model_name prompt kwargs) w with
  | (RequestError e, w1) | (Raised e, w1) => (inr (io_error CerebrasClient e), w1)
  | (Responded r, w1) =>
      match raise_for_status r with
      | Some e => (inr (io_error CerebrasClient e), w1)
      | None =>
          match content r with
          | inl c => (inl c, w1)
          | inr e => (inr (io_error CerebrasClient e), w1)
          end
      end
  end.

Definition groq_make_request (api_key model_name prompt : string)
    (kwargs : gmap string pyval) (w : World) : (string + client_error) * World :=
  match groq_create lib api_key (groq_payload model_name prompt kwargs) w with
  | (inl c, w1) => (inl c, w1)
  | (inr e, w1) => (inr (io_error GroqClient e), w1)
  end.

Definition cohere_make_request (api_key model_name prompt : string)
    (kwargs : gmap string pyval) (w : World) : (string + client_error) * World :=
  match cohere_chat lib api_key model_name prompt w with
  | (inl c, w1) => (inl c, w1)
  | (inr e, w1) => (inr (io_error CohereClient e), w1)
  end.

Definition google_make_request (model_name prompt : string)
    (kwargs : gmap string pyval) (w : World) : (string + client_error) * World :=
  match generate_content lib model_name (google_model_kwargs kwargs) prompt w with
  | (inr e, w1) => (inr (io_error GoogleClient e), w1)
  | (inl response, w1) =>
      match response_text response with
      | Some t => (inl t, w1)
      | None =>
          match parts_text response with
          | inr e => (inr (io_error GoogleClient e), w1)
          | inl [] => (inr (io_error GoogleClient no_text_message), w1)
          | inl texts => (inl (join newline texts), w1)
          end
      end
  end.

(** [get_provider_client] of [gateway.py]: the name is looked up in lower
    case; the client it returns is given by its class and its key. *)
Definition get_provider_client (provider_name api_key : string) (w : World)
    : ((client_class * string) + exn) * World :=
  match PROVIDER_MAP !! lower provider_name with
  | None => (inr (ValueError ("Unsupported provider: " +:+ provider_name)), w)
  | Some cls =>
      match init cls api_key w with
      | (inl _, w1) => (inl (cls, api_key), w1)
      | (inr e, w1) => (inr (exn_of_client e), w1)
      end
  end.

(** [make_request] of the client of a class, built with [api_key]. *)
Definition make_request (cls : client_class) (api_key model_name prompt : string)
    (kwargs : gmap string pyval) (w : World) : (string + client_error) * World :=
  match cls with
  | GoogleClient => google_make_request model_name prompt kwargs w
  | MistralClient => mistral_make_request api_key model_name prompt kwargs w
  | GroqClient => groq_make_request api_key model_name prompt kwargs w
  | CohereClient => cohere_make_request api_key model_name prompt kwargs w
  | CerebrasClient => cerebras_make_request api_key model_name prompt kwargs w
  end.

End Requests.

End Clients.

(** ** [framework/observability.py]: the decorator [observable]

    [execute] of the gateway is wrapped by it. The event bus, the clock and
    the source of identifiers are functions over the world; the two
    context variables are passed in and out, since the wrapped function
    runs in the context of its caller and may itself be wrapped. *)
Module Observability.
Import PyStr.

Section Events.
(** Points in time, as [time.time()] gives them, and their difference. *)
Context {Time : Type}.

(** The [data] of the four kinds of event. *)
Inductive event_data : Type :=
| InputData (args : list string) (kwargs : list (string * string))
| OutputData (duration : Time) (output_preview : string)
| ErrorData (duration : Time) (error : string)
| ThoughtData (content : string).

Record Event : Type := {
  type : string;
  source : string;
  data : event_data;
  trace_id : option string;
  span_id : option string;
  parent_span_id : option string;
  timestamp : string
}.

(** [trace_id_var] and [span_id_var], [None] by default. *)
Record Context : Type := {
  trace_id_var : option string;
  span_id_var : option string
}.

(** Truth value of what a context variable holds. *)
Definition is_set (v : option string) : bool :=
  match v with
  | Some s => truthy s
  | None => false
  end.

(** [str(result)[:500] if result else "None"] *)
Definition output_preview_of (truthy_result : bool) (str_result : string) : string :=
  if truthy_result then String.substring 0 500 str_result else "None".

Context {World Exn Result : Type}.

Record runtime : Type := {
  (** [get_event_bus()]: the bus of the process, or the exception that
      creating it raises. *)
  get_event_bus : World -> option Exn * World;
  (** [publish] of the bus: the Redis bus catches what goes wrong. *)
  publish : Event -> World -> World;
  (** [str(uuid.uuid4())] *)
  uuid4 : World -> string * World;
  (** [time.time()] *)
  time : World -> Time * World;
  elapsed : Time -> Time -> Time;
  (** [datetime.utcnow().isoformat()] *)
  utcnow : World -> string * World;
  str_exn : Exn -> string;
  str_result : Result -> string;
  truthy_result : Result -> bool
}.

Variable rt : runtime.

(** What a coroutine gives back: its result or exception, the context
    variables and the world as it leaves them, and the events that were
    published while it ran, in order. *)
Definition run : Type := (Result + Exn) * Context * World * list Event.

(** [await bus.publish(Event(...))]: the event takes its time stamp when
    it is built. *)
Definition emit (type source : string) (data : event_data)
    (trace_id span_id parent_span_id : option string) (w : World) : Event * World :=
  let '(ts, w1) := utcnow rt w in
  let ev := {| type := type; source := source; data := data;
               trace_id := trace_id; span_id := span_id;
               parent_span_id := parent_span_id; timestamp := ts |} in
  (ev, publish rt ev w1).

(** The [finally] of the wrapper: the span is set back to what it was
    before the wrapper set it, and so is the trace when the wrapper set it. *)
Definition restore (before : Context) (reset_trace : bool) (after : Context) : Context :=
  {| trace_id_var := if reset_trace then trace_id_var before else trace_id_var after;
     span_id_var := span_id_var before |}.

(** [wrapper] of [observable]: [override] is [name_override], the text
    that [observable] was given by position or as [source_name]; [func] is
    the wrapped coroutine applied to its arguments, [args] and [kwargs] are
    the [str] of these arguments. *)
Definition wrapper (override : option string) (func_name : string)
    (args : list string) (kwargs : list (string * string))
    (func : Context -> World -> run) (ctx : Context) (w : World) : run :=
  match get_event_bus rt w with
  | (Some e, w0) => (inr e, ctx, w0, [])
  | (None, w0) =>
      let source := if is_set override then default func_name override else func_name in
      let '(current_trace, reset_trace, w1) :=
        if is_set (trace_id_var ctx) then (trace_id_var ctx, false, w0)
        else let '(u, w') := uuid4 rt w0 in (Some u, true, w') in
      let parent_span := span_id_var ctx in
      let '(current_span, w2) := uuid4 rt w1 in
      let ctx1 := {| trace_id_var := current_trace; span_id_var := Some current_span |} in
      let '(started, w3) :=
        emit "EXECUTION_START" source (InputData args kwargs)
          current_trace (Some current_span) parent_span w2 in
      let '(start_time, w4) := time rt w3 in
      let '(r, ctx2, w5, inner) := func ctx1 w4 in
      let '(end_time, w6) := time rt w5 in
      let duration := elapsed rt end_time start_time in
      let '(ended, w7) :=
        match r with
        | inl result =>
            emit "EXECUTION_COMPLETE" source
              (OutputData duration
                 (output_preview_of (truthy_result rt result) (str_result rt result)))
              current_trace (Some current_span) parent_span w6
        | inr e =>
            emit "EXECUTION_ERROR" source (ErrorData duration (str_exn rt e))
              current_trace (Some current_span) parent_span w6
        end in
      (r, restore ctx reset_trace ctx2, w7, started :: inner ++ [ended])
  end.

(** A coroutine that awaits another one once, as [decide_mode] and
    [execute_async] of the architect await [execute] of the gateway:
    [before] is its code up to the call, which gives what the call is made
    with or raises; [after] is the code that follows, given what the call
    returned or raised, an [except] around the call included. The context
    variables are set by the wrapper only, so this code leaves them as the
    callee does. *)
Definition awaiting {A : Type}
    (before : World -> (A + Exn) * World * list Event)
    (callee : A -> Context -> World -> run)
    (after : A -> Result + Exn -> World -> (Result + Exn) * World * list Event)
    (ctx : Context) (w : World) : run :=
  match before w with
  | (inr e, w1, evs1) => (inr e, ctx, w1, evs1)
  | (inl a, w1, evs1) =>
      let '(r, ctx1, w2, evs2) := callee a ctx w1 in
      let '(r', w3, evs3) := after a r w2 in
      (r', ctx1, w3, evs1 ++ evs2 ++ evs3)
  end.

(** The type of the event that ends a span. *)
Definition end_type (r : Result + Exn) : string :=
  match r with
  | inl _ => "EXECUTION_COMPLETE"
  | inr _ => "EXECUTION_ERROR"
  end.

(** A property of the world that the bus, the clock and the identifiers
    keep. *)
Definition keeps (I : World -> Prop) : Prop :=
  (forall w, I w -> I (snd (get_event_bus rt w))) /\
  (forall ev w, I w -> I (publish rt ev w)) /\
  (forall w, I w -> I (snd (uuid4 rt w))) /\
  (forall w, I w -> I (snd (time rt w))) /\
  (forall w, I w -> I (snd (utcnow rt w))).

End Events.

End Observability.

(** ** Stand-ins for the network and the vendor libraries *)
Module Doubles.
Import Clients.

(** Every request is answered with the given status and body, which is no
    JSON; the libraries of Groq and Cohere raise; Google answers with a
    function call and no text. The world counts the calls. *)
Definition status_lib (code : Z) (body : string) : libraries nat :=
  {| post := fun _ n =>
       (Responded {| status_code := code; text := body;
                     raise_for_status :=
                       if ((200 <=? code) && (code <? 300))%Z then None
                       else Some ("status " +:+ pretty code);
                     content := inr "Expecting value: line 1 column 1 (char 0)" |},
        S n);
     groq_create := fun _ _ n => (inr "Error code: 401", S n);
     cohere_chat := fun _ _ _ n => (inr "status_code: 429", S n);
     genai_configure := fun _ n => n;
     generate_content := fun _ _ _ n =>
       (inl {| response_text := None;
               parts := Value [{| part_text := Value EmptyString;
                                  function_call :=
                                    Value (Call "execute_code" "{'code': 'print(1)'}") |}] |},
        S n) |}.

(** Google answers without a candidate: reading the text of the response
    raises, and so does reading its parts. *)
Definition no_candidate_lib (msg : string) : libraries nat :=
  {| post := post (status_lib 200 EmptyString);
     groq_create := groq_create (status_lib 200 EmptyString);
     cohere_chat := cohere_chat (status_lib 200 EmptyString);
     genai_configure := fun _ n => n;
     generate_content := fun _ _ _ n =>
       (inl {| response_text := None; parts := Raises msg |}, S n) |}.

(** A bus that is there, a clock and a source of identifiers that count. *)
Definition counting_runtime : @Observability.runtime nat nat KeyManager.exn string :=
  {| Observability.get_event_bus := fun n => (None, n);
     Observability.publish := fun _ n => S n;
     Observability.uuid4 := fun n => ("id-" +:+ pretty n, S n);
     Observability.time := fun n => (n, S n);
     Observability.elapsed := fun a b => a - b;
     Observability.utcnow := fun n => ("t" +:+ pretty n, S n);
     Observability.str_exn := KeyManager.str_exn;
     Observability.str_result := fun s => s;
     Observability.truthy_result := PyStr.truthy |}.

End Doubles.

(** ** [gateway.py] as its callers see it, and [scripts/verify_providers.py] *)
Module Entry.
Import PyStr KeyManager Config Gateway Observability.

(** The state of the process that [execute] works on: whether the gateway
    exists, the key manager, and the world outside. *)
Record process (W : Type) : Type := {
  gateway_created : bool;
  key_manager : ApiKeyManager;
  outside : W
}.
Arguments gateway_created {W}.
Arguments key_manager {W}.
Arguments outside {W}.

Definition with_outside {W : Type} (p : process W) (o : W) : process W :=
  {| gateway_created := gateway_created p; key_manager := key_manager p; outside := o |}.

Section Process.
Context {Time W : Type}.

(** The bus, the clock and the identifiers act on the world outside; the
    texts are those of [str] on an exception and on a response. *)
Definition process_runtime (rt : @runtime Time W exn string)
    : @runtime Time (process W) exn string :=
  {| get_event_bus := fun p =>
       let '(e, o) := get_event_bus rt (outside p) in (e, with_outside p o);
     publish := fun ev p => with_outside p (publish rt ev (outside p));
     uuid4 := fun p => let '(u, o) := uuid4 rt (outside p) in (u, with_outside p o);
     time := fun p => let '(t, o) := time rt (outside p) in (t, with_outside p o);
     elapsed := elapsed rt;
     utcnow := fun p => let '(t, o) := utcnow rt (outside p) in (t, with_outside p o);
     Observability.str_exn := KeyManager.str_exn;
     str_result := fun response => response;
     truthy_result := truthy |}.

Variable rt : @runtime Time W exn string.
Variable make_request :
  client_class -> string -> gmap string pyval -> W -> (string + client_error) * W.
Variable others : W -> ApiKeyManager -> ApiKeyManager * W.
Variable fs : FileSystem.

(** The body of [execute], on the state of the process. *)
Definition execute_body (model_group prompt : string) (kwargs : gmap string pyval)
    (ctx : Context) (p : process W) : @run Time (process W) exn string :=
  let '(created, out) :=
    Gateway.execute make_request others fs (gateway_created p) (key_manager p)
      (outside p) model_group prompt kwargs in
  (result out, ctx,
   {| gateway_created := created; key_manager := manager out; outside := world out |},
   []).

(** [execute] as the module exports it, under [@observable]; [args] and
    [kwargs_str] are the [str] of the arguments as the caller passed them,
    by position and by keyword. *)
Definition execute (args : list string) (kwargs_str : list (string * string))
    (model_group prompt : string) (kwargs : gmap string pyval)
    (ctx : Context) (p : process W) : @run Time (process W) exn string :=
  wrapper (process_runtime rt) None "execute" args kwargs_str
    (execute_body model_group prompt kwargs) ctx p.

(** [scripts/verify_providers.py] *)
Definition test_groups : list string :=
  ["groq_test_group"; "cohere_test_group"; "cerebras_test_group"].

(** [group.split('_')[0]] *)
Definition provider_name (group : string) : string :=
  hd EmptyString (split "_"%char group).

(** One pass of the loop of [main]: [execute] is called with both
    arguments by keyword, and whatever it raises is caught. *)
Definition test_group (group : string) (ctx : Context) (p : process W)
    : @run Time (process W) exn string :=
  let prompt := "Hello from " +:+ provider_name group +:+ "!" in
  execute [] [("model_group", group); ("prompt", prompt)] group prompt ∅ ctx p.

(** [main]: what each pass got, with the context, the process and the
    events at the end. *)
Fixpoint main_loop (groups : list string) (ctx : Context) (p : process W)
    : list (string * (string + exn)) * Context * process W * list Event :=
  match groups with
  | [] => ([], ctx, p, [])
  | group :: rest =>
      let '(r, ctx1, p1, evs) := test_group group ctx p in
      let '(rs, ctx2, p2, evs') := main_loop rest ctx1 p1 in
      ((provider_name group, r) :: rs, ctx2, p2, evs ++ evs')
  end.

Definition main (ctx : Context) (p : process W)
    : list (string * (string + exn)) * Context * process W * list Event :=
  main_loop test_groups ctx p.

End Process.

End Entry.

(** * Properties *)

Import PyStr KeyManager Config Gateway Pool Examples.

(** ** Python strings *)

Lemma append_nil_l (a : string) : EmptyString +:+ a = a.
Proof. reflexivity. Qed.

Lemma append_cons x (a b : string) : String x a +:+ b = String x (a +:+ b).
Proof. reflexivity. Qed.

Lemma append_assoc (a b c : string) : (a +:+ b) +:+ c = a +:+ (b +:+ c).
Proof.
  induction a as [|x a IH]; [reflexivity|].
  rewrite !append_cons. by f_equal.
Qed.

Lemma length_append (a b : string) :
  String.length (a +:+ b) = String.length a + String.length b.
Proof.
  induction a as [|x a IH]; [reflexivity|].
  rewrite append_cons. simpl. by f_equal.
Qed.

Lemma all_chars_append P a b :
  all_chars P (a +:+ b) = all_chars P a && all_chars P b.
Proof.
  induction a as [|x a IH]; [reflexivity|].
  rewrite append_cons. simpl. by rewrite IH, andb_assoc.
Qed.

(** [span] cuts where the first character outside [P] stands. *)
Lemma span_spec P s a b :
  span P s = (a, b) ->
  s = a +:+ b /\ all_chars P a = true /\
  match b with EmptyString => True | String c _ => P c = false end.
Proof.
  revert a b. induction s as [|c s IH]; intros a b; simpl.
  - by intros [= <- <-].
  - destruct (P c) eqn:Hc.
    + destruct (span P s) as [a' b']. intros [= <- <-].
      destruct (IH a' b' eq_refl) as (-> & Ha & Hb). simpl. by rewrite Hc, Ha.
    + intros [= <- <-]. simpl. by rewrite Hc.
Qed.

Lemma span_append P a b :
  all_chars P a = true ->
  match b with EmptyString => True | String c _ => P c = false end ->
  span P (a +:+ b) = (a, b).
Proof.
  intros Ha Hb. induction a as [|x a IH]; simpl in *.
  - destruct b as [|c b]; simpl; [done | by rewrite Hb].
  - apply andb_true_iff in Ha as [-> Ha]. by rewrite IH.
Qed.

Lemma endswith_spec w suf :
  endswith w suf = true <-> exists pre, w = pre +:+ suf.
Proof.
  induction w as [|c w IH].
  - cbn [endswith]. rewrite orb_false_r, String.eqb_eq. split.
    + intros <-. by exists EmptyString.
    + intros [[|x pre] H]; [done | discriminate].
  - cbn [endswith]. rewrite orb_true_iff, String.eqb_eq, IH. split.
    + intros [<-|[pre ->]]; [by exists EmptyString | by exists (String c pre)].
    + intros [[|x pre] H]; [by left|].
      rewrite append_cons in H. injection H as -> ->. right. by exists pre.
Qed.

(** What [startswith], [in], [split] and [strip] compute. *)
Lemma prefix_spec sub s :
  String.prefix sub s = true <-> exists post, s = sub +:+ post.
Proof.
  revert sub. induction s as [|y s IH]; intros [|x sub]; simpl.
  - split; [intros _; exists EmptyString; reflexivity | done].
  - split; [done | intros [post H]; discriminate].
  - split; [intros _; exists (String y s); reflexivity | done].
  - destruct (ascii_dec x y) as [->|Hne].
    + rewrite IH. split; intros [post H]; exists post.
      * rewrite append_cons. by f_equal.
      * rewrite append_cons in H. by injection H.
    + split; [done|]. intros [post H]. rewrite append_cons in H.
      injection H as H _. by destruct Hne.
Qed.

Lemma contains_spec sub s :
  contains sub s = true <-> exists pre post, s = pre +:+ sub +:+ post.
Proof.
  induction s as [|c s IH].
  - cbn [contains]. rewrite orb_false_r, prefix_spec. split.
    + intros [post H]. by exists EmptyString, post.
    + intros ([|x pre] & post & H); [by exists post | discriminate].
  - cbn [contains]. rewrite orb_true_iff, prefix_spec, IH. split.
    + intros [[post H]|(pre & post & ->)];
        [by exists EmptyString, post | by exists (String c pre), post].
    + intros ([|x pre] & post & H); [left; by exists post|].
      rewrite append_cons in H. injection H as -> ->. right. by exists pre, post.
Qed.

Lemma split_nonempty sep s : split sep s <> [].
Proof.
  destruct s as [|c s]; simpl; [done|].
  destruct (Ascii.eqb c sep); [done|]. by destruct (split sep s).
Qed.

Lemma split_join sep s : join sep (split sep s) = s.
Proof.
  induction s as [|c s IH]; [done|]. cbn [split].
  pose proof (split_nonempty sep s) as Hne.
  destruct (Ascii.eqb c sep) eqn:E.
  - apply Ascii.eqb_eq in E as ->.
    destruct (split sep s) as [|h t]; [done|].
    change (join sep (EmptyString :: h :: t)) with (String sep (join sep (h :: t))).
    by rewrite IH.
  - destruct (split sep s) as [|h t]; [done|].
    destruct t as [|h' t]; simpl in *; by rewrite <- IH.
Qed.

Lemma split_pieces sep s :
  Forall (fun piece => all_chars (fun c => negb (Ascii.eqb c sep)) piece = true)
    (split sep s).
Proof.
  induction s as [|c s IH]; cbn [split]; [by repeat constructor|].
  destruct (Ascii.eqb c sep) eqn:E; [by constructor|].
  destruct (split sep s) as [|h t]; [repeat constructor; simpl; by rewrite E|].
  inversion IH as [|? ? Hh Ht]; subst. constructor; [|done]. simpl. by rewrite E, Hh.
Qed.

Lemma lstrip_spec s :
  exists l, s = l +:+ lstrip s /\ all_chars isspace l = true /\
            match lstrip s with EmptyString => True | String c _ => isspace c = false end.
Proof.
  induction s as [|c s (l & Hs & Hl & Hh)]; [by exists EmptyString|].
  simpl. destruct (isspace c) eqn:E.
  - exists (String c l). rewrite append_cons, <- Hs. simpl. by rewrite E, Hl.
  - exists EmptyString. by rewrite E.
Qed.

Lemma rstrip_spec s :
  exists r, s = rstrip s +:+ r /\ all_chars isspace r = true /\
            last_char_ok (fun c => negb (isspace c)) (rstrip s).
Proof.
  induction s as [|c s (r & Hs & Hr & Hlast)].
  - exists EmptyString. split_and!; [done | done |].
    intros [|x s'] c H; discriminate.
  - cbn [rstrip]. destruct (rstrip s) as [|y t] eqn:Hrs.
    + rewrite append_nil_l in Hs. subst r. destruct (isspace c) eqn:E.
      * exists (String c s). split_and!; [done | simpl; by rewrite E, Hr |].
        intros [|x s'] c' H; discriminate.
      * exists s. split_and!; [done | done |].
        intros [|x s'] c' H; [|destruct s'; discriminate].
        rewrite append_nil_l in H. injection H as <-. by rewrite E.
    + exists r. split_and!; [by rewrite append_cons, <- Hs | done |].
      intros [|x s'] c' H; [discriminate|].
      rewrite append_cons in H. injection H as -> H. by apply (Hlast s').
Qed.

(** [strip] removes a run of blanks at each end, and what is left neither
    starts nor ends with a blank. *)
Lemma strip_spec s :
  exists l r,
    s = l +:+ strip s +:+ r /\
    all_chars isspace l = true /\ all_chars isspace r = true /\
    match strip s with EmptyString => True | String c _ => isspace c = false end /\
    last_char_ok (fun c => negb (isspace c)) (strip s).
Proof.
  destruct (lstrip_spec s) as (l & Hs & Hl & Hhead).
  destruct (rstrip_spec (lstrip s)) as (r & Hr & Hrr & Hlast).
  exists l, r. unfold strip. split_and!; [by rewrite <- Hr | done | done | | done].
  destruct (lstrip s) as [|c t]; [done|]. cbn [rstrip].
  destruct (rstrip t); [by rewrite Hhead | done].
Qed.

(** ** Dictionaries *)
Section DictFacts.
Context {V : Type}.
Implicit Types (d : list (string * V)) (k : string) (v : V).

Lemma get_set_eq d k v : PyDict.get (PyDict.set d k v) k = Some v.
Proof.
  induction d as [|[k' v'] d IH]; simpl.
  - by rewrite String.eqb_refl.
  - destruct (String.eqb k' k) eqn:E; simpl; rewrite E; [done | apply IH].
Qed.

Lemma get_set_ne d k k' v :
  k <> k' -> PyDict.get (PyDict.set d k v) k' = PyDict.get d k'.
Proof.
  intros Hne. induction d as [|[k0 v0] d IH]; simpl.
  - by apply String.eqb_neq in Hne as ->.
  - destruct (String.eqb k0 k) eqn:E; simpl.
    + apply String.eqb_eq in E as ->.
      by apply String.eqb_neq in Hne as ->.
    + by rewrite IH.
Qed.

Lemma get_set d k k' v :
  PyDict.get (PyDict.set d k v) k' =
  if String.eqb k k' then Some v else PyDict.get d k'.
Proof.
  destruct (String.eqb k k') eqn:E.
  - apply String.eqb_eq in E as <-. apply get_set_eq.
  - apply String.eqb_neq in E. by apply get_set_ne.
Qed.

Lemma mem_keys d k : PyDict.mem d k = true <-> k ∈ PyDict.keys d.
Proof.
  unfold PyDict.mem, PyDict.keys. induction d as [|[k' v'] d IH]; simpl.
  - split; [done | by intros ?%elem_of_nil].
  - destruct (String.eqb k' k) eqn:E.
    + apply String.eqb_eq in E as ->. split; [intros _; left | done].
    + apply String.eqb_neq in E. rewrite IH, elem_of_cons.
      split; [by right | by intros [->|]].
Qed.

Lemma keys_set_old d k v :
  PyDict.mem d k = true -> PyDict.keys (PyDict.set d k v) = PyDict.keys d.
Proof.
  unfold PyDict.mem, PyDict.keys. induction d as [|[k' v'] d IH]; simpl; [done|].
  destruct (String.eqb k' k) eqn:E; simpl; [done|].
  intros H. by rewrite IH.
Qed.

Lemma keys_set_new d k v :
  PyDict.mem d k = false -> PyDict.keys (PyDict.set d k v) = PyDict.keys d ++ [k].
Proof.
  unfold PyDict.mem, PyDict.keys. induction d as [|[k' v'] d IH]; simpl; [done|].
  destruct (String.eqb k' k) eqn:E; simpl; [done|].
  intros H. by rewrite IH.
Qed.

Lemma mem_set d k k' v :
  PyDict.mem (PyDict.set d k v) k' = String.eqb k k' || PyDict.mem d k'.
Proof.
  unfold PyDict.mem. rewrite get_set. by destruct (String.eqb k k').
Qed.

End DictFacts.

(** ** [dict.fromkeys] keeps first occurrences *)

Lemma filter_filter_absorb (P Q : string -> bool) (l : list string) :
  (forall x, P x = true -> Q x = true) ->
  List.filter P (List.filter Q l) = List.filter P l.
Proof.
  intros HPQ. induction l as [|x l IH]; simpl; [done|].
  destruct (Q x) eqn:EQ; simpl.
  - destruct (P x); by rewrite IH.
  - destruct (P x) eqn:EP; [|done]. apply HPQ in EP. congruence.
Qed.

Lemma keys_fromkeys_from (ks : list string) (d : list (string * unit)) :
  PyDict.keys (fold_left (fun d k => PyDict.set d k tt) ks d) =
  PyDict.keys d ++ List.filter (fun x => negb (PyDict.mem d x)) (first_occurrences ks).
Proof.
  revert d. induction ks as [|k ks IH]; intros d; simpl.
  - by rewrite app_nil_r.
  - rewrite IH. destruct (PyDict.mem d k) eqn:Hm; simpl.
    + rewrite keys_set_old by done. f_equal.
      rewrite (filter_filter_absorb (fun x => negb (PyDict.mem d x))
                 (fun x => negb (String.eqb x k)) (first_occurrences ks)).
      * apply List.filter_ext. intros x. rewrite mem_set.
        destruct (String.eqb k x) eqn:E; [|done].
        apply String.eqb_eq in E as <-. by rewrite Hm.
      * intros x Hx. destruct (String.eqb x k) eqn:E; [|done].
        apply String.eqb_eq in E as ->. by rewrite Hm in Hx.
    + rewrite keys_set_new by done. rewrite <- app_assoc. simpl. f_equal. f_equal.
      clear IH. generalize (first_occurrences ks) as l.
      induction l as [|x l IHl]; simpl; [done|].
      rewrite mem_set, (String.eqb_sym k x).
      destruct (String.eqb x k); simpl; [done|].
      destruct (PyDict.mem d x); simpl; by rewrite IHl.
Qed.

Lemma unique_first_occurrences (ks : list string) :
  unique ks = first_occurrences ks.
Proof.
  unfold unique, PyDict.fromkeys. rewrite keys_fromkeys_from. simpl.
  induction (first_occurrences ks) as [|x l IH]; simpl; [done|]. by rewrite IH.
Qed.

Lemma elem_of_first_occurrences (ks : list string) (x : string) :
  x ∈ first_occurrences ks <-> x ∈ ks.
Proof.
  induction ks as [|k ks IH]; simpl; [done|].
  rewrite !elem_of_cons, <- IH, !list_elem_of_In, List.filter_In.
  destruct (String.eqb x k) eqn:E.
  - apply String.eqb_eq in E. split; [by left | by left].
  - apply String.eqb_neq in E. split.
    + intros [?|[? _]]; [by left | by right].
    + intros [?|?]; [by left | by right].
Qed.

Lemma NoDup_first_occurrences (ks : list string) : NoDup (first_occurrences ks).
Proof.
  induction ks as [|k ks IH]; simpl; [constructor|].
  constructor.
  - rewrite list_elem_of_In, List.filter_In. intros [_ H].
    by rewrite String.eqb_refl in H.
  - apply NoDup_ListNoDup, List.NoDup_filter, NoDup_ListNoDup, IH.
Qed.

(** ** The key line of a provider file *)

(** The matcher at a line start finds exactly the matches of the pattern. *)
Lemma match_api_keys_at_spec s g :
  match_api_keys_at s = Some g <-> key_line_match s g.
Proof.
  unfold match_api_keys_at, key_line_match. split.
  - destruct (span is_word s) as [w0 rest] eqn:Hs.
    apply span_spec in Hs as (-> & Hw0 & _).
    destruct (endswith w0 "_API_KEYS" && (9 <? String.length w0)) eqn:He; [|done].
    apply andb_true_iff in He as [[pre ->]%endswith_spec Hlen].
    destruct rest as [|c1 [|c2 rest']]; [done | done |].
    destruct (Ascii.eqb c1 "=" && Ascii.eqb c2 dquote) eqn:Hc; [|done].
    apply andb_true_iff in Hc as [->%Ascii.eqb_eq ->%Ascii.eqb_eq].
    destruct (span not_dquote rest') as [g0 rest''] eqn:Hg.
    apply span_spec in Hg as (-> & Hg0 & Hq).
    destruct g0 as [|x g0]; [done|]. destruct rest'' as [|q r]; [done|].
    intros [= <-]. unfold not_dquote in Hq.
    apply negb_false_iff, Ascii.eqb_eq in Hq as ->.
    exists pre, r. split_and!.
    + by rewrite !append_assoc.
    + intros ->. apply Nat.ltb_lt in Hlen. simpl in Hlen. lia.
    + rewrite all_chars_append in Hw0. by apply andb_true_iff in Hw0 as [? _].
    + done.
    + done.
  - intros (w & rest & -> & Hw & Hww & Hg & Hgg).
    replace (w +:+ "_API_KEYS=" +:+ String dquote (g +:+ String dquote rest))
      with ((w +:+ "_API_KEYS") +:+ String "=" (String dquote (g +:+ String dquote rest)))
      by by rewrite append_assoc.
    rewrite span_append; [| by rewrite all_chars_append, Hww | reflexivity].
    assert (endswith (w +:+ "_API_KEYS") "_API_KEYS" = true) as ->
      by (apply endswith_spec; by exists w).
    assert ((9 <? String.length (w +:+ "_API_KEYS")) = true) as ->.
    { apply Nat.ltb_lt. rewrite length_append. destruct w; [done|]. simpl. lia. }
    cbn [andb]. rewrite !Ascii.eqb_refl. cbn [andb].
    rewrite (span_append not_dquote g (String dquote rest));
      [| exact Hgg | reflexivity].
    by destruct g.
Qed.

Lemma line_start_after_spec b pre :
  line_start_after b pre = true <->
  (pre = EmptyString /\ b = true) \/ exists p, pre = p +:+ String newline EmptyString.
Proof.
  revert b. induction pre as [|c pre IH]; intros b; simpl.
  - split; [by left | intros [[_ ?]|[[|x p] H]]; [done | discriminate | discriminate]].
  - rewrite IH. split.
    + intros [[-> ->%Ascii.eqb_eq]|[p ->]]; right;
        [by exists EmptyString | by exists (String c p)].
    + intros [[? _]|[[|x p] H]]; [discriminate | |].
      * injection H as -> ->. left. by rewrite Ascii.eqb_refl.
      * rewrite append_cons in H. injection H as -> ->. right. by exists p.
Qed.

Lemma key_line_match_nonempty g : ~ key_line_match EmptyString g.
Proof. intros ([|x w] & rest & H & Hw & _); [done | discriminate]. Qed.

(** [re.search] returns the match at the first line start that has one. *)
Lemma search_from_some b s g :
  search_from b s = Some g <->
  exists pre post,
    s = pre +:+ post /\ line_start_after b pre = true /\ key_line_match post g /\
    forall pre2 post2 g2,
      s = pre2 +:+ post2 -> line_start_after b pre2 = true ->
      key_line_match post2 g2 -> String.length pre <= String.length pre2.
Proof.
  revert b. induction s as [|c s IH]; intros b.
  - simpl. split; [done|]. intros (pre & post & H & _ & Hm & _).
    destruct pre; [|discriminate]. rewrite append_nil_l in H. subst post.
    by apply key_line_match_nonempty in Hm.
  - cbn [search_from].
    destruct (if b then match_api_keys_at (String c s) else None) as [g0|] eqn:Hm.
    + destruct b; [|discriminate]. split.
      * intros [= <-]. exists EmptyString, (String c s). split_and!; try done.
        -- by apply match_api_keys_at_spec.
        -- intros. simpl. lia.
      * intros (pre & post & H & Hls & Hk & Hleft).
        destruct pre as [|x pre].
        -- rewrite append_nil_l in H. subst post.
           apply match_api_keys_at_spec in Hk. congruence.
        -- apply match_api_keys_at_spec in Hm.
           specialize (Hleft EmptyString (String c s) g0 eq_refl eq_refl Hm).
           simpl in Hleft. lia.
    + rewrite IH. split.
      * intros (pre & post & -> & Hls & Hk & Hleft).
        exists (String c pre), post. split_and!; try done.
        intros pre2 post2 g2 H2 Hls2 Hk2. destruct pre2 as [|x pre2].
        -- rewrite append_nil_l in H2. simpl in Hls2. subst post2 b.
           apply match_api_keys_at_spec in Hk2. congruence.
        -- rewrite !append_cons in H2. injection H2 as <- H2. simpl in Hls2 |- *.
           specialize (Hleft pre2 post2 g2 H2 Hls2 Hk2). lia.
      * intros (pre & post & H & Hls & Hk & Hleft). destruct pre as [|x pre].
        -- rewrite append_nil_l in H. simpl in Hls. subst post b.
           apply match_api_keys_at_spec in Hk. congruence.
        -- rewrite append_cons in H. injection H as <- ->. simpl in Hls.
           exists pre, post. split_and!; try done.
           intros pre2 post2 g2 H2 Hls2 Hk2.
           specialize (Hleft (String c pre2) post2 g2).
           rewrite append_cons, H2 in Hleft.
           specialize (Hleft eq_refl Hls2 Hk2). simpl in Hleft. lia.
Qed.

Lemma search_from_none b s :
  search_from b s = None <->
  forall pre post g,
    s = pre +:+ post -> line_start_after b pre = true -> ~ key_line_match post g.
Proof.
  split.
  - revert b. induction s as [|c s IH]; intros b Hn pre post g Hs Hls Hk.
    + destruct pre; [|discriminate]. rewrite append_nil_l in Hs. subst post.
      by apply key_line_match_nonempty in Hk.
    + cbn [search_from] in Hn.
      destruct (if b then match_api_keys_at (String c s) else None) as [g0|] eqn:Hm;
        [discriminate|].
      destruct pre as [|x pre].
      * rewrite append_nil_l in Hs. simpl in Hls. subst post b.
        apply match_api_keys_at_spec in Hk. congruence.
      * rewrite append_cons in Hs. injection Hs as <- ->. simpl in Hls.
        by apply (IH _ Hn pre post g).
  - intros Hno. destruct (search_from b s) as [g|] eqn:Hsf; [|done].
    apply search_from_some in Hsf as (pre & post & Hs & Hls & Hk & _).
    by destruct (Hno pre post g Hs Hls Hk).
Qed.

Lemma search_api_keys_spec content g :
  search_api_keys content = Some g <-> first_key_line content g.
Proof.
  unfold search_api_keys, first_key_line. rewrite search_from_some.
  assert (forall pre, line_start_after true pre = true <-> line_start pre) as Hls.
  { intros pre. rewrite line_start_after_spec. unfold line_start.
    split; [intros [[-> _]|?]; [by left | by right]
           | intros [->|?]; [by left | by right]]. }
  split; intros (pre & post & Hs & Hl & Hk & Hleft); exists pre, post.
  - split; [done|]. split; [by apply Hls|]. split; [done|].
    intros pre2 post2 g2 H2 Hl2 Hk2. apply (Hleft pre2 post2 g2 H2); [|done].
    by apply Hls.
  - split; [done|]. split; [by apply Hls|]. split; [done|].
    intros pre2 post2 g2 H2 Hl2 Hk2. apply (Hleft pre2 post2 g2 H2); [|done].
    by apply Hls.
Qed.

(** ** The loader on concrete files *)

Example provider_file_names :
  is_provider_env_file ".env.google" = true /\
  is_provider_env_file ".env.example" = false /\
  is_provider_env_file ".env" = false /\
  is_provider_env_file "README.md" = false /\
  provider_of ".env.google" = "google" /\
  provider_of ".env.my.env.keys" = "mykeys".
Proof. repeat split. Qed.

Example parse_keys_strips_and_drops_blanks :
  parse_keys "k1, k2 ,k1,,k3 , " = ["k1"; "k2"; "k1"; "k3"] /\
  unique ["k1"; "k2"; "k1"; "k3"; "k2"] = ["k1"; "k2"; "k3"].
Proof. split; reflexivity. Qed.

(** The key line may stand on any line; a line that starts with a blank, a
    name without a word before the suffix, an empty pair of quotes and a
    missing closing quote do not match. *)
Example search_api_keys_examples :
  search_api_keys ("# keys" +:+ String newline (key_line "GOOGLE" "k1,k2"))
    = Some "k1,k2" /\
  search_api_keys (" " +:+ key_line "GOOGLE" "k1") = None /\
  search_api_keys (key_line "" "k1") = None /\
  search_api_keys (key_line "GOOGLE" "") = None /\
  search_api_keys ("GOOGLE_API_KEYS=" +:+ String dquote "k1") = None /\
  search_api_keys (key_line "A_API_KEYS" "k1") = Some "k1".
Proof. repeat split. Qed.

(** ** The key manager, one call at a time *)

Lemma initialize_providers_initialized fs st :
  _initialized st = true -> initialize_providers fs st = (inl tt, st).
Proof. unfold initialize_providers. by intros ->. Qed.

(** The initialization raises only what [os.listdir] raises, and then
    leaves the manager as it was. *)
Lemma initialize_providers_error fs st e st1 :
  initialize_providers fs st = (inr e, st1) ->
  exists msg, e = OSError msg /\ st1 = st.
Proof.
  unfold initialize_providers. destruct (_initialized st); [done|].
  destruct (listdir fs) as [files|msg]; [done|]. intros [= <- <-]. eauto.
Qed.

(** On an initialized manager [get_key] is decided by the queue alone. *)
Lemma get_key_initialized fs st p :
  _initialized st = true ->
  get_key fs st p =
  match PyDict.get (_providers st) p with
  | None => (inr (NoKeysAvailableError (no_keys_message p)), st)
  | Some e =>
      match keys e with
      | [] => (inr (NoKeysAvailableError (no_keys_message p)), st)
      | key :: q =>
          (inl key,
           {| _providers := PyDict.set (_providers st) p (with_keys e q);
              _initialized := true |})
      end
  end.
Proof.
  intros Hi. unfold get_key, get_key_guard, get_key_dequeue. rewrite Hi.
  destruct (PyDict.get (_providers st) p) as [e|] eqn:Hg; [|done].
  destruct (keys e) eqn:Hk; simpl; [done|]. by rewrite Hg, Hk, Hi.
Qed.

Lemma queue_in_set ps p e p' :
  queue_in (PyDict.set ps p e) p' =
  if String.eqb p p' then keys e else queue_in ps p'.
Proof. unfold queue_in. rewrite get_set. by destruct (String.eqb p p'). Qed.

Lemma registered_set ps i p e p' :
  registered {| _providers := PyDict.set ps p e; _initialized := i |} p' =
  String.eqb p p' || registered {| _providers := ps; _initialized := i |} p'.
Proof. unfold registered. simpl. apply mem_set. Qed.

Lemma registered_get st p :
  registered st p = true <-> exists e, PyDict.get (_providers st) p = Some e.
Proof.
  unfold registered, PyDict.mem.
  destruct (PyDict.get (_providers st) p); split; eauto; [done | by intros [? ?]].
Qed.

Lemma queue_of_unregistered st p : registered st p = false -> queue_of st p = [].
Proof.
  unfold registered, PyDict.mem, queue_of, queue_in.
  by destruct (PyDict.get (_providers st) p).
Qed.

(** A checkout that succeeds takes the head of the queue and touches
    nothing else. *)
Lemma get_key_ok fs st p key st' :
  _initialized st = true ->
  get_key fs st p = (inl key, st') ->
  queue_of st p = key :: queue_of st' p /\
  (forall p', p' <> p -> queue_of st' p' = queue_of st p') /\
  (forall p', registered st' p' = registered st p') /\
  _initialized st' = true.
Proof.
  intros Hi. rewrite get_key_initialized by done.
  destruct (PyDict.get (_providers st) p) as [e|] eqn:Hg; [|done].
  destruct (keys e) as [|k q] eqn:Hk; [done|].
  intros [= <- <-]. unfold queue_of. simpl. split_and!.
  - rewrite queue_in_set, String.eqb_refl. unfold queue_in. by rewrite Hg.
  - intros p' Hne. rewrite queue_in_set.
    by apply not_eq_sym, String.eqb_neq in Hne as ->.
  - intros p'. rewrite registered_set.
    destruct (String.eqb p p') eqn:E; simpl; [|by destruct st].
    apply String.eqb_eq in E as <-. symmetry. apply registered_get.
    destruct st; simpl in *; eauto.
  - done.
Qed.

(** A checkout that fails on an initialized manager fails at the guard,
    with [NoKeysAvailableError], and leaves the manager as it was. *)
Lemma get_key_err fs st p e st' :
  _initialized st = true ->
  get_key fs st p = (inr e, st') ->
  st' = st /\ queue_of st p = [] /\ e = NoKeysAvailableError (no_keys_message p).
Proof.
  intros Hi. rewrite get_key_initialized by done. unfold queue_of, queue_in.
  destruct (PyDict.get (_providers st) p) as [en|]; [|by intros [= <- <-]].
  destruct (keys en); [by intros [= <- <-] | done].
Qed.

Lemma release_key_retire st p key : release_key st p key true = st.
Proof. unfold release_key. by destruct (PyDict.get (_providers st) p). Qed.

Lemma release_key_queue st p key p' :
  queue_of (release_key st p key false) p' =
  if registered st p && String.eqb p p' then queue_of st p' ++ [key]
  else queue_of st p'.
Proof.
  unfold release_key, registered, PyDict.mem.
  destruct (PyDict.get (_providers st) p) as [e|] eqn:Hg; simpl; [|done].
  unfold queue_of. simpl. rewrite queue_in_set. destruct (String.eqb p p') eqn:E.
  - apply String.eqb_eq in E as <-. unfold queue_in. by rewrite Hg.
  - done.
Qed.

Lemma release_key_registered st p key b p' :
  registered (release_key st p key b) p' = registered st p'.
Proof.
  destruct b; [by rewrite release_key_retire|].
  unfold release_key.
  destruct (PyDict.get (_providers st) p) as [e|] eqn:Hg; [|done].
  rewrite registered_set. destruct (String.eqb p p') eqn:E; simpl; [|by destruct st].
  apply String.eqb_eq in E as <-. symmetry. apply registered_get. eauto.
Qed.

Lemma release_key_initialized st p key b :
  _initialized (release_key st p key b) = _initialized st.
Proof.
  unfold release_key. destruct (PyDict.get (_providers st) p); [|done].
  by destruct b.
Qed.

(** Every operation keeps the manager initialized and the set of
    registered providers. *)
Lemma exec_op_stable fs st o st' got :
  _initialized st = true ->
  exec_op fs st o = (st', got) ->
  _initialized st' = true /\ forall p, registered st' p = registered st p.
Proof.
  intros Hi. destruct o as [p|p key|p key]; simpl.
  - destruct (get_key fs st p) as [[k|e] st1] eqn:Hg; intros [= <- <-].
    + by destruct (get_key_ok _ _ _ _ _ Hi Hg) as (_ & _ & ? & ?).
    + by destruct (get_key_err _ _ _ _ _ Hi Hg) as (-> & _).
  - intros [= <- <-]. rewrite release_key_initialized.
    split; [done | intros; apply release_key_registered].
  - intros [= <- <-]. by rewrite release_key_retire.
Qed.

(** ** Loading the keys *)

Lemma put_key_get ps p key e p' :
  PyDict.get ps p = Some e ->
  PyDict.get (put_key ps p key) p' =
  if String.eqb p p' then Some (with_keys e (keys e ++ [key])) else PyDict.get ps p'.
Proof. intros H. unfold put_key. rewrite H. apply get_set. Qed.

Lemma put_keys_get l : forall ps p e p',
  PyDict.get ps p = Some e ->
  PyDict.get (fold_left (fun ps key => put_key ps p key) l ps) p' =
  if String.eqb p p' then Some (with_keys e (keys e ++ l)) else PyDict.get ps p'.
Proof.
  induction l as [|key l IH]; intros ps p e p' H; simpl.
  - rewrite app_nil_r. destruct (String.eqb p p') eqn:E; [|done].
    apply String.eqb_eq in E as <-. rewrite H. by destruct e.
  - rewrite (IH _ p (with_keys e (keys e ++ [key]))).
    + simpl. rewrite <- app_assoc. simpl.
      destruct (String.eqb p p') eqn:E; [done|].
      rewrite (put_key_get _ _ _ e) by done. by rewrite E.
    + rewrite (put_key_get _ _ _ e) by done. by rewrite String.eqb_refl.
Qed.

(** One file appends its keys, without repetition, to the queue of its
    provider, and creates the entry when the file has a key. *)
Lemma load_file_get fs ps f p :
  queue_in (load_file fs ps f) p =
  queue_in ps p ++ (if String.eqb (provider_of f) p then unique (file_keys fs f) else []) /\
  PyDict.mem (load_file fs ps f) p =
  PyDict.mem ps p ||
  (String.eqb (provider_of f) p && negb (queue_empty (file_keys fs f))).
Proof.
  unfold load_file. destruct (file_keys fs f) as [|k0 ks0] eqn:Hk.
  - simpl. rewrite andb_false_r, orb_false_r.
    split; [|done]. destruct (String.eqb (provider_of f) p); by rewrite app_nil_r.
  - set (ks := k0 :: ks0). simpl queue_empty. simpl negb. rewrite andb_true_r.
    unfold queue_in, PyDict.mem.
    destruct (PyDict.get ps (provider_of f)) as [e|] eqn:Hg.
    + rewrite (put_keys_get _ _ _ e) by done.
      destruct (String.eqb (provider_of f) p) eqn:E.
      * apply String.eqb_eq in E as <-. rewrite Hg. done.
      * rewrite app_nil_r, orb_false_r. done.
    + rewrite (put_keys_get _ _ _ {| keys := []; quarantine := [] |})
        by apply get_set_eq.
      destruct (String.eqb (provider_of f) p) eqn:E.
      * apply String.eqb_eq in E as <-. by rewrite Hg.
      * rewrite app_nil_r, orb_false_r.
        rewrite get_set_ne by by apply String.eqb_neq. done.
Qed.

(** The queue of [p] after the load: the keys of the files of [p], file
    by file in listing order, each file without repetition. *)
Lemma load_files_queue fs fl : forall ps p,
  queue_in (fold_left (load_file fs) fl ps) p =
  queue_in ps p ++
  concat (map (fun f => unique (file_keys fs f))
              (List.filter (fun f => String.eqb (provider_of f) p) fl)).
Proof.
  induction fl as [|f fl IH]; intros ps p; simpl.
  - by rewrite app_nil_r.
  - rewrite IH. destruct (load_file_get fs ps f p) as [-> _].
    rewrite <- app_assoc. by destruct (String.eqb (provider_of f) p).
Qed.

Lemma load_files_mem fs fl : forall ps p,
  PyDict.mem (fold_left (load_file fs) fl ps) p =
  PyDict.mem ps p ||
  existsb (fun f => String.eqb (provider_of f) p && negb (queue_empty (file_keys fs f))) fl.
Proof.
  induction fl as [|f fl IH]; intros ps p; simpl.
  - by rewrite orb_false_r.
  - rewrite IH. destruct (load_file_get fs ps f p) as [_ ->].
    by rewrite orb_assoc.
Qed.

(** ** Sequences of operations *)

Lemma run_ops_cons fs st p o ops :
  run_ops fs st p (o :: ops) =
  (fst (run_ops fs (fst (exec_op fs st o)) p ops),
   record_issue p o (snd (exec_op fs st o))
     (snd (run_ops fs (fst (exec_op fs st o)) p ops))).
Proof.
  cbn [run_ops]. destruct (exec_op fs st o) as [st1 got]. cbn [fst snd].
  by destruct (run_ops fs st1 p ops).
Qed.

(** The queue is first in, first out: what the checkouts issue, followed
    by what is left, is what was there followed by what was released. *)
Lemma run_ops_fifo fs p ops : forall st,
  _initialized st = true ->
  registered st p = true ->
  snd (run_ops fs st p ops) ++ queue_of (fst (run_ops fs st p ops)) p =
  queue_of st p ++ released_for p ops.
Proof.
  induction ops as [|o ops IH]; intros st Hi Hr.
  - simpl. by rewrite app_nil_r.
  - rewrite run_ops_cons. simpl fst. simpl snd.
    destruct (exec_op fs st o) as [st1 got] eqn:Hx. simpl fst. simpl snd.
    destruct (exec_op_stable _ _ _ _ _ Hi Hx) as [Hi1 Hr1].
    specialize (IH st1 Hi1). rewrite Hr1 in IH. specialize (IH Hr).
    destruct o as [p'|p' key|p' key]; simpl in Hx; cbn [record_issue].
    + destruct (get_key fs st p') as [[k|e] st2] eqn:Hg;
        injection Hx as <- <-.
      * destruct (get_key_ok _ _ _ _ _ Hi Hg) as (Hq & Hother & _).
        simpl released_for. destruct (String.eqb p' p) eqn:E.
        -- apply String.eqb_eq in E as ->. rewrite Hq.
           simpl. by rewrite IH.
        -- apply String.eqb_neq in E. rewrite IH. f_equal. apply Hother. done.
      * destruct (get_key_err _ _ _ _ _ Hi Hg) as (-> & _). by rewrite IH.
    + injection Hx as <- <-. rewrite IH, release_key_queue. simpl released_for.
      destruct (String.eqb p' p) eqn:E.
      * apply String.eqb_eq in E as ->. rewrite Hr. simpl.
        by rewrite <- app_assoc.
      * by rewrite andb_false_r.
    + injection Hx as <- <-. rewrite release_key_retire in *. by rewrite IH.
Qed.

Lemma run_ops_stable fs p ops : forall st,
  _initialized st = true ->
  _initialized (fst (run_ops fs st p ops)) = true /\
  forall p', registered (fst (run_ops fs st p ops)) p' = registered st p'.
Proof.
  induction ops as [|o ops IH]; intros st Hi; [done|].
  rewrite run_ops_cons. cbn [fst].
  destruct (exec_op fs st o) as [st1 got] eqn:Hx. cbn [fst].
  destruct (exec_op_stable _ _ _ _ _ Hi Hx) as [Hi1 Hr1].
  destruct (IH st1 Hi1) as [Hi2 Hr2]. split; [done|].
  intros p'. by rewrite Hr2.
Qed.

(** Checkouts in a row issue the queue from its head. *)
Lemma checkouts_take fs p n : forall st,
  _initialized st = true ->
  snd (run_ops fs st p (repeat (Checkout p) n)) = take n (queue_of st p).
Proof.
  induction n as [|n IH]; intros st Hi; [done|].
  cbn [repeat]. rewrite run_ops_cons. cbn [fst snd exec_op].
  destruct (get_key fs st p) as [[key|e] st1] eqn:Hg; cbn [fst snd record_issue].
  - destruct (get_key_ok _ _ _ _ _ Hi Hg) as (-> & _ & _ & Hi1).
    rewrite String.eqb_refl, IH by done. done.
  - destruct (get_key_err _ _ _ _ _ Hi Hg) as (-> & Hq & _).
    rewrite IH, Hq by done. by destruct n.
Qed.


(** ** The claims *)

(** C1, as the specification states it, fails: after the only key of
    [google] is checked out, the next checkout does not wait; it raises
    [NoKeysAvailableError] at once, although a key is configured. *)
Lemma checkout_when_all_busy_raises_no_keys :
  queue_of (loaded one_key_fs) "google" = ["k1"] /\
  exists st1,
    get_key one_key_fs (loaded one_key_fs) "google" = (inl "k1", st1) /\
    get_key one_key_fs st1 "google" =
      (inr (NoKeysAvailableError (no_keys_message "google")), st1).
Proof. split; [reflexivity|]. eexists. split; reflexivity. Qed.

(** C1 (amended): [get_key] first ends the initialization; when that
    raises, so does [get_key]. Otherwise it looks at the queue of the
    provider at that moment: an empty queue, whether no key was ever
    configured or every key is checked out or retired, gives
    [NoKeysAvailableError] at once and changes nothing; a queue with a
    head issues that head and keeps the rest. In an atomic run no call
    ends in [GetKeyTimeoutError]. *)
Theorem get_key_decided_by_queue (fs : FileSystem) (st : ApiKeyManager) (p : string) :
  match initialize_providers fs st with
  | (inr e, st1) => get_key fs st p = (inr e, st1)
  | (inl _, st1) =>
      match queue_of st1 p with
      | [] => get_key fs st p = (inr (NoKeysAvailableError (no_keys_message p)), st1)
      | key :: q =>
          exists st2, get_key fs st p = (inl key, st2) /\ queue_of st2 p = q
      end
  end /\
  forall msg st2, get_key fs st p <> (inr (GetKeyTimeoutError msg), st2).
Proof.
  unfold get_key, get_key_guard, get_key_dequeue, queue_of, queue_in.
  replace (if _initialized st then (inl tt, st) else initialize_providers fs st)
    with (initialize_providers fs st)
    by (unfold initialize_providers; by destruct (_initialized st)).
  destruct (initialize_providers fs st) as [[[]|e] st1] eqn:Hinit.
  - destruct (PyDict.get (_providers st1) p) as [en|] eqn:Hg; [|by split].
    destruct (keys en) as [|key q] eqn:Hk; simpl; [by split|].
    rewrite Hg, Hk. simpl.
    split; [|done]. eexists. split; [done|]. simpl.
    by rewrite get_set_eq.
  - split; [done|]. intros msg st2.
    by destruct (initialize_providers_error _ _ _ _ Hinit) as (m & -> & _).
Qed.

(** The wait that the guard leaves open: two tasks pass the guard while
    the one key is in the queue; the first to run its wait takes the key,
    and the second, with no release in time, ends in [GetKeyTimeoutError]. *)
Example two_tasks_past_the_guard :
  get_key_guard one_key_fs (loaded one_key_fs) "google" = (inl tt, loaded one_key_fs) /\
  exists st1,
    get_key_dequeue (loaded one_key_fs) "google" = (inl "k1", st1) /\
    get_key_dequeue st1 "google"
    = (inr (GetKeyTimeoutError (timeout_message "google")), st1).
Proof. split; [reflexivity|]. eexists. split; reflexivity. Qed.




(** C10: a release or a retirement that names a provider without an
    entry returns the manager it was given: nothing is raised, and the
    entry of every registered provider is as before. *)
Theorem release_key_unregistered (st : ApiKeyManager) (p key : string) (b : bool) :
  registered st p = false -> release_key st p key b = st.
Proof.
  unfold registered, PyDict.mem, release_key.
  by destruct (PyDict.get (_providers st) p).
Qed.

Lemma release_key_unregistered_witness :
  registered (loaded two_keys_fs) "mistral" = false /\
  release_key (loaded two_keys_fs) "mistral" "m1" false = loaded two_keys_fs /\
  release_key (loaded two_keys_fs) "mistral" "m1" true = loaded two_keys_fs.
Proof.
  assert (H : registered (loaded two_keys_fs) "mistral" = false) by reflexivity.
  split_and!; [exact H | ..]; apply (release_key_unregistered _ _ _ _ H).
Defined.

(** ** The three states of a credential *)

Lemma remove_one_perm key l :
  existsb (String.eqb key) l = true -> l ≡ₚ key :: remove_one key l.
Proof.
  induction l as [|x l IH]; simpl; [done|].
  rewrite (String.eqb_sym key x). destruct (String.eqb x key) eqn:E; simpl.
  - apply String.eqb_eq in E as ->. done.
  - intros H. rewrite (IH H) at 1. apply Permutation_swap.
Qed.

Lemma update_same f p l : update f p l p = l.
Proof. unfold update. by rewrite String.eqb_refl. Qed.

Lemma update_other f p l p' : p' <> p -> update f p l p' = f p'.
Proof. unfold update. by intros ->%String.eqb_neq. Qed.

(** One operation within its precondition moves a key between the three
    lists of its provider and leaves the other providers alone. *)
Lemma step_conserves fs st led o st1 got led1 :
  _initialized st = true ->
  (forall p, registered st p = false -> checked_out led p = []) ->
  exec_op fs st o = (st1, got) ->
  ledger_step led o got = Some led1 ->
  (forall p, registered st1 p = false -> checked_out led1 p = []) /\
  forall p,
    queue_of st1 p ++ checked_out led1 p ++ retired led1 p ≡ₚ
    queue_of st p ++ checked_out led p ++ retired led p.
Proof.
  intros Hi Hreg Hx Hl.
  destruct (exec_op_stable _ _ _ _ _ Hi Hx) as [_ Hr1].
  destruct o as [p0|p0 key|p0 key]; simpl in Hx, Hl.
  - destruct (get_key fs st p0) as [[k|e] st2] eqn:Hg; injection Hx as <- <-;
      injection Hl as <-.
    + destruct (get_key_ok _ _ _ _ _ Hi Hg) as (Hq & Hother & _). simpl. split.
      * intros p Hp. rewrite Hr1 in Hp. destruct (decide (p = p0)) as [->|Hne].
        -- by rewrite queue_of_unregistered in Hq.
        -- rewrite update_other by done. by apply Hreg.
      * intros p. destruct (decide (p = p0)) as [->|Hne].
        -- rewrite update_same, Hq. simpl. symmetry. apply Permutation_middle.
        -- rewrite update_other, Hother by done. done.
    + destruct (get_key_err _ _ _ _ _ Hi Hg) as (-> & _). done.
  - injection Hx as <- <-. unfold holds in Hl.
    destruct (existsb (String.eqb key) (checked_out led p0)) eqn:Hh; [|done].
    injection Hl as <-. simpl. split.
    + intros p Hp. rewrite Hr1 in Hp. destruct (decide (p = p0)) as [->|Hne].
      * by rewrite (Hreg _ Hp) in Hh.
      * rewrite update_other by done. by apply Hreg.
    + intros p. rewrite release_key_queue. destruct (decide (p = p0)) as [->|Hne].
      * rewrite update_same, String.eqb_refl, andb_true_r.
        destruct (registered st p0) eqn:Hr0; [|by rewrite (Hreg _ Hr0) in Hh].
        rewrite (remove_one_perm _ _ Hh) at 2.
        rewrite <- app_assoc. done.
      * rewrite update_other by done.
        apply not_eq_sym, String.eqb_neq in Hne as ->. by rewrite andb_false_r.
  - injection Hx as <- <-. unfold holds in Hl.
    destruct (existsb (String.eqb key) (checked_out led p0)) eqn:Hh; [|done].
    injection Hl as <-. rewrite release_key_retire in *. simpl. split.
    + intros p Hp. destruct (decide (p = p0)) as [->|Hne].
      * by rewrite (Hreg _ Hp) in Hh.
      * rewrite update_other by done. by apply Hreg.
    + intros p. destruct (decide (p = p0)) as [->|Hne].
      * rewrite !update_same. rewrite (remove_one_perm _ _ Hh) at 2.
        f_equiv. simpl. symmetry. apply Permutation_middle.
      * by rewrite !update_other by done.
Qed.

Lemma run_conserves fs ops : forall st led st' led',
  _initialized st = true ->
  (forall p, registered st p = false -> checked_out led p = []) ->
  run_checked fs st led ops = Some (st', led') ->
  forall p,
    queue_of st' p ++ checked_out led' p ++ retired led' p ≡ₚ
    queue_of st p ++ checked_out led p ++ retired led p.
Proof.
  induction ops as [|o ops IH]; intros st led st' led' Hi Hreg Hrun p.
  - by injection Hrun as <- <-.
  - simpl in Hrun. destruct (exec_op fs st o) as [st1 got] eqn:Hx.
    destruct (ledger_step led o got) as [led1|] eqn:Hl; [|done].
    destruct (step_conserves _ _ _ _ _ _ _ Hi Hreg Hx Hl) as [Hreg1 Hstep].
    destruct (exec_op_stable _ _ _ _ _ Hi Hx) as [Hi1 _].
    rewrite (IH _ _ _ _ Hi1 Hreg1 Hrun p). apply Hstep.
Qed.

(** C4, as the specification states it, fails twice. The source keeps
    the available keys only and tests no precondition: a key that was
    checked out once and is released twice is queued twice, so that the
    available keys alone outnumber the one key that was loaded. And a key
    that two files of a provider hold is loaded twice: after two checkouts
    it is checked out and available at once. *)
Lemma double_release_breaks_conservation :
  (queue_of (loaded one_key_fs) "google" = ["k1"] /\
   previously_checked_out one_key_fs (loaded one_key_fs) []
     [Checkout "google"; Release "google" "k1"; Release "google" "k1"] = true /\
   queue_of (fst (run_ops one_key_fs (loaded one_key_fs) "google"
                    [Checkout "google"; Release "google" "k1"; Release "google" "k1"]))
     "google" = ["k1"; "k1"] /\
   run_checked one_key_fs (loaded one_key_fs) empty_ledger
     [Checkout "google"; Release "google" "k1"; Release "google" "k1"] = None) /\
  (queue_of (loaded Roots.shared_provider_fs) "google" = ["k1"; "k2"; "k2"; "k3"] /\
   exists st' led',
     run_checked Roots.shared_provider_fs (loaded Roots.shared_provider_fs) empty_ledger
       [Checkout "google"; Checkout "google"] = Some (st', led') /\
     in_state st' led' "google" "k2" Available /\
     in_state st' led' "google" "k2" CheckedOut).
Proof.
  split.
  - split_and!; reflexivity.
  - split; [reflexivity|]. eexists _, _. split; [reflexivity|].
    split; unfold in_state; refine (bool_decide_unpack _ _); vm_compute; exact I.
Qed.

(** C4 (amended): from an initialized manager and with nothing checked out
    or retired yet, after any sequence of checkouts, releases and
    retirements in which every release and retirement names a key that a
    call holds at that moment, checked out and not given back since, the
    available, checked-out and retired keys of a provider are together a
    rearrangement of the keys queued at the start: the three counts add up
    to their number, and when these keys are distinct every one of them is
    in exactly one of the three states, and once in it. *)
Theorem pool_conservation (fs : FileSystem) (st st' : ApiKeyManager)
    (led' : ledger) (ops : list op) (p : string) :
  _initialized st = true ->
  run_checked fs st empty_ledger ops = Some (st', led') ->
  queue_of st' p ++ checked_out led' p ++ retired led' p ≡ₚ queue_of st p /\
  length (queue_of st' p) + length (checked_out led' p) + length (retired led' p)
    = length (queue_of st p) /\
  (NoDup (queue_of st p) ->
   NoDup (queue_of st' p ++ checked_out led' p ++ retired led' p) /\
   forall key, key ∈ queue_of st p ->
     exists s, in_state st' led' p key s /\
               forall s', in_state st' led' p key s' -> s' = s).
Proof.
  intros Hi Hrun.
  assert (queue_of st' p ++ checked_out led' p ++ retired led' p ≡ₚ queue_of st p) as HP.
  { rewrite (run_conserves fs ops st empty_ledger st' led' Hi (fun _ _ => eq_refl) Hrun p).
    simpl. by rewrite app_nil_r. }
  split_and!.
  - exact HP.
  - apply Permutation_length in HP. rewrite !length_app in HP. lia.
  - intros Hnd. rewrite <- HP in Hnd. split; [exact Hnd|].
    intros key Hkey. rewrite <- HP in Hkey.
    apply NoDup_app in Hnd as (_ & Hab & Hnd).
    apply NoDup_app in Hnd as (_ & Hbc & _).
    apply elem_of_app in Hkey as [Ha|Hkey]; [|apply elem_of_app in Hkey as [Hb|Hc]].
    + exists Available. split; [exact Ha|].
      intros [] Hs; simpl in Hs; [done | |];
        exfalso; apply (Hab key Ha); apply elem_of_app; [by left | by right].
    + exists CheckedOut. split; [exact Hb|].
      intros [] Hs; simpl in Hs; [| done |].
      * exfalso. apply (Hab key Hs). apply elem_of_app. by left.
      * exfalso. by apply (Hbc key Hb).
    + exists Retired. split; [exact Hc|].
      intros [] Hs; simpl in Hs; [| | done].
      * exfalso. apply (Hab key Hs). apply elem_of_app. by right.
      * exfalso. by apply (Hbc key Hs).
Qed.

Lemma pool_conservation_witness :
  exists st' led',
    _initialized (loaded two_keys_fs) = true /\
    run_checked two_keys_fs (loaded two_keys_fs) empty_ledger
      [Checkout "google"; Checkout "google"; Release "google" "k1";
       Retire "google" "k2"; Checkout "google"; Checkout "google"]
    = Some (st', led') /\
    queue_of st' "google" ++ checked_out led' "google" ++ retired led' "google"
      ≡ₚ queue_of (loaded two_keys_fs) "google" /\
    length (queue_of st' "google") + length (checked_out led' "google")
      + length (retired led' "google")
    = length (queue_of (loaded two_keys_fs) "google") /\
    (NoDup (queue_of (loaded two_keys_fs) "google") ->
     NoDup (queue_of st' "google" ++ checked_out led' "google" ++ retired led' "google") /\
     forall key, key ∈ queue_of (loaded two_keys_fs) "google" ->
       exists s, in_state st' led' "google" key s /\
                 forall s', in_state st' led' "google" key s' -> s' = s).
Proof.
  eexists _, _.
  assert (H1 : _initialized (loaded two_keys_fs) = true) by reflexivity.
  split; [exact H1|]. split; [reflexivity|].
  apply (pool_conservation two_keys_fs (loaded two_keys_fs) _ _
           [Checkout "google"; Checkout "google"; Release "google" "k1";
            Retire "google" "k2"; Checkout "google"; Checkout "google"]
           "google" H1).
  reflexivity.
Defined.

(** ** What the load puts in the queue *)

Lemma loaded_providers fs files :
  listdir fs = inl files ->
  loaded fs =
  {| _providers := _load_keys_from_provider_env_files fs files [];
     _initialized := true |}.
Proof. unfold loaded, initialize_providers. simpl. by intros ->. Qed.

(** C9, as the specification states it, fails: the keys are made
    distinct file by file, not provider by provider. When two provider
    files resolve to one provider, a key that both hold is queued twice, and
    two checkouts in a row issue it. *)
Lemma two_files_queue_a_key_twice :
  listdir Roots.shared_provider_fs = inl [".env.google"; ".env.mistral"; ".env.goo.env.gle"] /\
  provider_of ".env.google" = "google" /\ provider_of ".env.goo.env.gle" = "google" /\
  file_keys Roots.shared_provider_fs ".env.google" = ["k1"; "k2"] /\
  file_keys Roots.shared_provider_fs ".env.goo.env.gle" = ["k2"; "k3"] /\
  queue_of (loaded Roots.shared_provider_fs) "google" = ["k1"; "k2"; "k2"; "k3"] /\
  ~ NoDup (queue_of (loaded Roots.shared_provider_fs) "google") /\
  snd (run_ops Roots.shared_provider_fs (loaded Roots.shared_provider_fs) "google"
         [Checkout "google"; Checkout "google"; Checkout "google"])
  = ["k1"; "k2"; "k2"].
Proof.
  split_and!; try reflexivity.
  intros Hnd. change (NoDup ["k1"; "k2"; "k2"; "k3"]) in Hnd.
  apply NoDup_cons in Hnd as [_ Hnd]. apply NoDup_cons in Hnd as [Hn _].
  apply Hn. by left.
Qed.

(** C9 (amended): for a provider that the load gave at least one key, the
    queue after the load is made of the keys of every provider file that
    resolves to the provider, file by file in the order of the listing,
    each file's keys without repetition and at the place of their first
    occurrence; when one file only resolves to the provider, this is the
    list of that file's keys without repetition. Checkouts in a row issue
    the loaded keys in load order. Whatever operations follow the load, the
    keys issued for [p], in the order of issue and followed by the keys
    still in the queue, are the loaded keys in load order followed by the
    released keys in the order of their release; and a key released at any
    later moment is issued after all the keys that are in the queue at that
    moment. *)
Theorem loaded_keys_fifo (fs : FileSystem) (files : list string)
    (p : string) (ops : list op) :
  listdir fs = inl files ->
  queue_of (loaded fs) p <> [] ->
  queue_of (loaded fs) p
  = concat (map (fun f => first_occurrences (file_keys fs f))
              (List.filter (fun g => String.eqb (provider_of g) p)
                 (List.filter is_provider_env_file files))) /\
  (forall f,
     List.filter (fun g => String.eqb (provider_of g) p)
       (List.filter is_provider_env_file files) = [f] ->
     queue_of (loaded fs) p = first_occurrences (file_keys fs f) /\
     NoDup (queue_of (loaded fs) p) /\
     forall key, key ∈ queue_of (loaded fs) p <-> key ∈ file_keys fs f) /\
  (forall n,
     snd (run_ops fs (loaded fs) p (repeat (Checkout p) n))
     = take n (queue_of (loaded fs) p)) /\
  snd (run_ops fs (loaded fs) p ops) ++ queue_of (fst (run_ops fs (loaded fs) p ops)) p
  = queue_of (loaded fs) p ++ released_for p ops /\
  (forall key n,
     snd (run_ops fs (fst (run_ops fs (loaded fs) p ops)) p
            (Release p key :: repeat (Checkout p) n))
     = take n (queue_of (fst (run_ops fs (loaded fs) p ops)) p ++ [key])).
Proof.
  intros Hls Hne.
  assert (_initialized (loaded fs) = true) as Hi
    by by rewrite (loaded_providers _ _ Hls).
  assert (registered (loaded fs) p = true) as Hr.
  { destruct (registered (loaded fs) p) eqn:E; [done|].
    by rewrite queue_of_unregistered in Hne. }
  assert (queue_of (loaded fs) p
          = concat (map (fun f => first_occurrences (file_keys fs f))
                      (List.filter (fun g => String.eqb (provider_of g) p)
                         (List.filter is_provider_env_file files)))) as Hq.
  { rewrite (loaded_providers _ _ Hls). unfold queue_of. cbn [_providers].
    unfold _load_keys_from_provider_env_files. rewrite load_files_queue.
    cbn [queue_in PyDict.get app]. f_equal. apply map_ext. intros f.
    apply unique_first_occurrences. }
  split_and!.
  - exact Hq.
  - intros f Hone.
    assert (queue_of (loaded fs) p = first_occurrences (file_keys fs f)) as Hq1.
    { rewrite Hq, Hone. cbn [map concat]. by rewrite app_nil_r. }
    split_and!; [exact Hq1 | |].
    + rewrite Hq1. apply NoDup_first_occurrences.
    + intros key. rewrite Hq1. apply elem_of_first_occurrences.
  - intros n. by apply checkouts_take.
  - by apply run_ops_fifo.
  - intros key n. destruct (run_ops_stable fs p ops _ Hi) as [Hi' Hr'].
    rewrite run_ops_cons. cbn [fst snd exec_op record_issue].
    rewrite checkouts_take by by rewrite release_key_initialized.
    by rewrite release_key_queue, Hr', Hr, String.eqb_refl.
Qed.

Lemma loaded_keys_fifo_witness :
  listdir two_keys_fs = inl ["README.md"; ".env.google"; ".env.example"] /\
  queue_of (loaded two_keys_fs) "google" <> [] /\
  file_keys two_keys_fs ".env.google" = ["k1"; "k2"; "k1"] /\
  queue_of (loaded two_keys_fs) "google" = ["k1"; "k2"] /\
  snd (run_ops two_keys_fs (loaded two_keys_fs) "google"
         [Checkout "google"; Release "google" "k1"; Checkout "google";
          Checkout "google"; Checkout "google"])
  ++ queue_of
       (fst (run_ops two_keys_fs (loaded two_keys_fs) "google"
               [Checkout "google"; Release "google" "k1"; Checkout "google";
                Checkout "google"; Checkout "google"])) "google"
  = queue_of (loaded two_keys_fs) "google" ++ ["k1"].
Proof.
  assert (H1 : listdir two_keys_fs = inl ["README.md"; ".env.google"; ".env.example"])
    by reflexivity.
  assert (H2 : queue_of (loaded two_keys_fs) "google" <> []) by discriminate.
  pose proof (loaded_keys_fifo two_keys_fs _ "google"
                [Checkout "google"; Release "google" "k1"; Checkout "google";
                 Checkout "google"; Checkout "google"] H1 H2)
    as (_ & Hone & _ & Hfifo & _).
  split_and!; [exact H1 | exact H2 | reflexivity | | exact Hfifo].
  exact (proj1 (Hone ".env.google" eq_refl)).
Defined.

(** C8, as the specification states it, fails: a provider whose file has
    a key line without any key gets no entry at all; it is not registered
    with an empty pool. *)
Lemma keyless_provider_has_no_entry :
  file_keys keyless_fs ".env.google" = [] /\
  fst (initialize_providers keyless_fs new_manager) = inl tt /\
  PyDict.get (_providers (loaded keyless_fs)) "google" = None /\
  registered (loaded keyless_fs) "google" = false.
Proof. split_and!; reflexivity. Qed.

(** C8 (amended): when the listing succeeds and no provider file of [p]
    holds a key, the initialization does not fail and creates no entry for
    [p]: [p] is not registered, [get_available_providers] leaves it out,
    and a checkout on it raises [NoKeysAvailableError] at once. *)
Theorem keyless_provider_unregistered (fs : FileSystem) (files : list string)
    (p : string) :
  listdir fs = inl files ->
  (forall f, In f files -> is_provider_env_file f = true ->
             provider_of f = p -> file_keys fs f = []) ->
  fst (initialize_providers fs new_manager) = inl tt /\
  registered (loaded fs) p = false /\
  (p ∉ get_available_providers (loaded fs)) /\
  get_key fs (loaded fs) p
  = (inr (NoKeysAvailableError (no_keys_message p)), loaded fs).
Proof.
  intros Hls Hnone.
  assert (registered (loaded fs) p = false) as Hr.
  { rewrite (loaded_providers _ _ Hls). unfold registered. simpl.
    unfold _load_keys_from_provider_env_files. rewrite load_files_mem. simpl.
    destruct (existsb _ _) eqn:Hex; [|done].
    apply existsb_exists in Hex as (f & Hin & Hf).
    apply List.filter_In in Hin as [Hin Henv].
    apply andb_true_iff in Hf as [Hp Hk]. apply String.eqb_eq in Hp.
    by rewrite (Hnone f Hin Henv Hp) in Hk. }
  split_and!.
  - unfold initialize_providers. simpl. by rewrite Hls.
  - exact Hr.
  - unfold get_available_providers. rewrite <- mem_keys. fold (registered (loaded fs) p).
    by rewrite Hr.
  - rewrite get_key_initialized by by rewrite (loaded_providers _ _ Hls).
    unfold registered, PyDict.mem in Hr.
    by destruct (PyDict.get (_providers (loaded fs)) p).
Qed.

Lemma keyless_provider_unregistered_witness :
  listdir keyless_fs = inl ["README.md"; ".env.google"; ".env.example"] /\
  file_keys keyless_fs ".env.google" = [] /\
  fst (initialize_providers keyless_fs new_manager) = inl tt /\
  registered (loaded keyless_fs) "google" = false /\
  ("google" ∉ get_available_providers (loaded keyless_fs)) /\
  get_key keyless_fs (loaded keyless_fs) "google"
  = (inr (NoKeysAvailableError (no_keys_message "google")), loaded keyless_fs).
Proof.
  assert (H1 : listdir keyless_fs = inl ["README.md"; ".env.google"; ".env.example"])
    by reflexivity.
  split; [exact H1|]. split; [reflexivity|].
  apply (keyless_provider_unregistered keyless_fs _ "google" H1).
  intros f [<-|[<-|[<-|[]]]] Henv Hp; [discriminate Henv | reflexivity | discriminate Henv].
Defined.

(** For a group name that [MODEL_GROUPS] does not hold, [call] raises
    [ValueError] with the message that names the group, before it looks at
    any candidate: the trace is empty, no key is requested and the manager
    and the world are as they were. *)
Lemma call_unknown_group {World : Type}
    (make_request : client_class -> string -> gmap string pyval -> World ->
                    (string + client_error) * World)
    (others : World -> ApiKeyManager -> ApiKeyManager * World)
    (fs : FileSystem) (km : ApiKeyManager) (w : World)
    (model_group prompt : string) (kwargs : gmap string pyval) :
  MODEL_GROUPS !! model_group = None ->
  call make_request others fs km w model_group prompt kwargs =
  {| result := inr (ValueError (unknown_group_message model_group));
     manager := km; world := w; trace := [] |}.
Proof. intros H. unfold call, get_model_group. by rewrite H. Qed.

(** ** The fallback loop *)

Section RouterFacts.
Context {World : Type}.
Variable make_request :
  client_class -> string -> gmap string pyval -> World ->
  (string + client_error) * World.
Variable others : World -> ApiKeyManager -> ApiKeyManager * World.
Variable fs : FileSystem.

(** Whatever a turn passes to a client is the merge for its model. *)
Lemma try_model_dispatched prompt kwargs avail m km w le a ps :
  match try_model make_request others fs prompt kwargs avail m km w le with
  | Return _ _ _ a' | Continue _ _ _ a' => a' = a
  | Propagate _ _ _ => False
  end ->
  dispatched a = Some ps ->
  exists details,
    get_model_config m = Some details /\ ps = call_params details kwargs prompt m.
Proof.
  unfold try_model.
  destruct (get_model_config m) as [details|]; [|intros <-; simpl; discriminate].
  destruct (size details =? 0)%nat; [intros <-; simpl; discriminate|].
  destruct (details !! "provider") as [[| | |provider| |]|];
    try (intros <-; simpl; discriminate); [|intros []].
  destruct (negb (existsb (String.eqb provider) avail));
    [intros <-; simpl; discriminate|].
  unfold get_key_suspended.
  destruct (get_key_guard fs km provider) as [[u|e] km1];
    [|intros <-; simpl; discriminate].
  destruct (others w km1) as [km2 w1].
  destruct (get_key_dequeue km2 provider) as [[key|e] km3];
    [|intros <-; simpl; discriminate].
  destruct (PROVIDER_MAP !! provider) as [cls|];
    [|unfold handle_error; destruct (truthy key); intros <-; simpl; discriminate].
  unfold handle_error. destruct (truthy key); cbn [negb];
    [|intros <-; simpl; discriminate].
  destruct (make_request cls key (call_params details kwargs prompt m) w1)
    as [r w2].
  destruct (others w2 km3) as [km4 w3].
  destruct r as [response|ce]; intros <-; simpl; intros [= <-]; eauto.
Qed.

Lemma call_loop_dispatched g prompt kwargs avail models :
  forall km w le m a ps,
  In (m, a) (trace (call_loop make_request others fs g prompt kwargs avail models km w le)) ->
  dispatched a = Some ps ->
  exists details,
    get_model_config m = Some details /\ ps = call_params details kwargs prompt m.
Proof.
  induction models as [|m0 models IH]; intros km w le m a ps;
    cbn [call_loop]; [intros []|].
  destruct (try_model make_request others fs prompt kwargs avail m0 km w le)
    as [text km1 w1 a1|km1 w1 le1 a1|e km1 w1] eqn:Ht; cbn [trace logged].
  - intros [[= <- <-]|[]] Hd.
    eapply try_model_dispatched; [rewrite Ht; reflexivity | exact Hd].
  - intros [[= <- <-]|Hin] Hd.
    + eapply try_model_dispatched; [rewrite Ht; reflexivity | exact Hd].
    + eapply IH; eauto.
  - intros [].
Qed.

End RouterFacts.

(** C7, as the specification states it, fails for the key [model_name]: a
    caller that supplies it sees it replaced by the name of the candidate. *)
Lemma caller_model_name_is_overridden :
  ({[ "model_name" := PStr "my-model" ]} : gmap string pyval) !! "model_name"
    = Some (PStr "my-model") /\
  call_params (reasoning PROVIDER_GOOGLE "Gemini 2.5 Pro.")
    {[ "model_name" := PStr "my-model" ]} "hi" "gemini-2.5-pro" !! "model_name"
    = Some (PStr "gemini-2.5-pro").
Proof. split; reflexivity. Qed.

(** C7 (amended): the call parameters map [model_name] to the name of the
    candidate and [prompt] to the prompt, whatever the caller supplied
    under these two keys; every other key maps to the caller's value when
    the caller supplies it and to the candidate's metadata otherwise; and
    every request of [call] passes exactly these parameters, built from
    the registry entry of its candidate. *)
Theorem call_params_merge :
  (forall (model_details kwargs : gmap string pyval) (prompt model_name : string),
     call_params model_details kwargs prompt model_name !! "model_name"
       = Some (PStr model_name) /\
     call_params model_details kwargs prompt model_name !! "prompt"
       = Some (PStr prompt) /\
     forall k, k <> "prompt" -> k <> "model_name" ->
       call_params model_details kwargs prompt model_name !! k =
       match kwargs !! k with
       | Some v => Some v
       | None => model_details !! k
       end) /\
  (forall (World : Type)
          (make_request : client_class -> string -> gmap string pyval -> World ->
                          (string + client_error) * World)
          (others : World -> ApiKeyManager -> ApiKeyManager * World)
          (fs : FileSystem) (km : ApiKeyManager) (w : World)
          (model_group prompt : string) (kwargs : gmap string pyval)
          (m : string) (a : attempt) (ps : gmap string pyval),
     In (m, a) (trace (call make_request others fs km w model_group prompt kwargs)) ->
     dispatched a = Some ps ->
     exists details,
       get_model_config m = Some details /\
       ps = call_params details kwargs prompt m).
Proof.
  split.
  - intros details kwargs prompt model_name. unfold call_params. split_and!.
    + by rewrite lookup_insert_eq.
    + rewrite lookup_insert_ne by done. by rewrite lookup_insert_eq.
    + intros k Hp Hm. rewrite !lookup_insert_ne by done.
      destruct (kwargs !! k) as [v|] eqn:Hk.
      * by apply lookup_union_Some_l.
      * by apply lookup_union_r.
  - intros World make_request others fs km w g prompt kwargs m a ps. unfold call.
    destruct (get_model_group g); [done|].
    apply call_loop_dispatched.
Qed.

(** ** The configuration *)

Lemma registry_entry_has_provider m d :
  get_model_config m = Some d ->
  (size d =? 0)%nat = false /\ exists p, d !! "provider" = Some (PStr p).
Proof.
  unfold get_model_config, MODELS_REGISTRY. intros H.
  apply elem_of_list_to_map_2, list_elem_of_In in H.
  assert (Forall (fun md => (size (snd md) =? 0)%nat = false /\
                            exists p, snd md !! "provider" = Some (PStr p))
            registry_entries) as HF.
  { unfold registry_entries.
    repeat (apply List.Forall_cons; [split; [reflexivity | eexists; reflexivity]|]).
    apply List.Forall_nil. }
  rewrite List.Forall_forall in HF. apply (HF (m, d) H).
Qed.

Lemma group_nonempty g models :
  MODEL_GROUPS !! g = Some models -> models <> [].
Proof.
  unfold MODEL_GROUPS. intros H.
  apply elem_of_list_to_map_2, list_elem_of_In in H.
  assert (Forall (fun gm => snd gm <> []) group_entries) as HF.
  { unfold group_entries.
    repeat (apply List.Forall_cons; [discriminate|]). apply List.Forall_nil. }
  rewrite List.Forall_forall in HF. apply (HF (g, models) H).
Qed.

(** ** Exhaustion of the candidates *)

Section LoopFacts.
Context {World : Type}.
Variable make_request :
  client_class -> string -> gmap string pyval -> World ->
  (string + client_error) * World.
Variable others : World -> ApiKeyManager -> ApiKeyManager * World.
Variable fs : FileSystem.

(** A turn on a registry model returns with a response, or goes on with
    the exception it caught as the last error; nothing escapes the loop. *)
Lemma try_model_cases prompt kwargs avail m km w le :
  match try_model make_request others fs prompt kwargs avail m km w le with
  | Return text _ _ a => exists provider key ps, a = Succeeded provider key ps text
  | Continue _ _ le' a =>
      succeeded a = false /\
      le' = match failure_of a with Some e => Some e | None => le end
  | Propagate _ _ _ => False
  end.
Proof.
  unfold try_model.
  destruct (get_model_config m) as [details|] eqn:Hc; [|split; reflexivity].
  destruct (registry_entry_has_provider _ _ Hc) as [-> [provider ->]].
  destruct (negb (existsb (String.eqb provider) avail)); [split; reflexivity|].
  unfold get_key_suspended.
  destruct (get_key_guard fs km provider) as [[u|e] km1]; [|split; reflexivity].
  destruct (others w km1) as [km2 w1].
  destruct (get_key_dequeue km2 provider) as [[key|e] km3]; [|split; reflexivity].
  destruct (PROVIDER_MAP !! provider) as [cls|];
    [|unfold handle_error; destruct (truthy key); split; reflexivity].
  unfold handle_error. destruct (truthy key); cbn [negb]; [|split; reflexivity].
  destruct (make_request cls key (call_params details kwargs prompt m) w1)
    as [r w2].
  destruct (others w2 km3) as [km4 w3].
  destruct r as [response|ce]; [eauto | split; reflexivity].
Qed.

Lemma last_failure_from_cons init m a tr :
  last_failure_from init ((m, a) :: tr) =
  last_failure_from (match failure_of a with Some e => Some e | None => init end) tr.
Proof. reflexivity. Qed.

Lemma call_loop_outcome g prompt kwargs avail models : forall km w le,
  match result (call_loop make_request others fs g prompt kwargs avail models km w le) with
  | inl text =>
      exists tr m provider key ps rest,
        trace (call_loop make_request others fs g prompt kwargs avail models km w le)
          = tr ++ [(m, Succeeded provider key ps text)] /\
        Forall (fun ma => succeeded (snd ma) = false) tr /\
        models = map fst tr ++ m :: rest
  | inr e =>
      e = Exception_ (exhausted_message g
            (last_failure_from le
               (trace (call_loop make_request others fs g prompt kwargs avail models km w le)))) /\
      map fst (trace (call_loop make_request others fs g prompt kwargs avail models km w le))
        = models /\
      Forall (fun ma => succeeded (snd ma) = false)
        (trace (call_loop make_request others fs g prompt kwargs avail models km w le))
  end.
Proof.
  induction models as [|m0 models IH]; intros km w le; cbn [call_loop].
  - cbn [result trace]. split_and!; [reflexivity | reflexivity | constructor].
  - pose proof (try_model_cases prompt kwargs avail m0 km w le) as Hc.
    destruct (try_model make_request others fs prompt kwargs avail m0 km w le)
      as [text km1 w1 a1|km1 w1 le1 a1|e km1 w1]; cbn [result trace logged].
    + destruct Hc as (provider & key & ps & ->).
      exists [], m0, provider, key, ps, models.
      split_and!; [reflexivity | constructor | reflexivity].
    + destruct Hc as [Hs ->].
      specialize (IH km1 w1 (match failure_of a1 with Some e => Some e | None => le end)).
      destruct (result (call_loop make_request others fs g prompt kwargs avail models km1 w1 _))
        as [text|e].
      * destruct IH as (tr & m & provider & key & ps & rest & -> & HF & ->).
        exists ((m0, a1) :: tr), m, provider, key, ps, rest.
        split_and!; [reflexivity | by constructor | reflexivity].
      * destruct IH as (-> & Hm & HF). rewrite last_failure_from_cons.
        split_and!; [reflexivity | cbn [map fst]; by rewrite Hm | by constructor].
    + destruct Hc.
Qed.

End LoopFacts.



(** ** The test for an authentication failure *)

Lemma lower_char_not_upper_A c : lower_char c <> "A"%char.
Proof. destruct c as [[] [] [] [] [] [] [] []]; vm_compute; discriminate. Qed.

Lemma lower_has_no_upper_A s : ~ In "A"%char (list_ascii_of_string (lower s)).
Proof.
  induction s as [|c s IH]; simpl; [tauto|].
  intros [H|H]; [by apply lower_char_not_upper_A in H | by apply IH].
Qed.

Lemma prefix_head_occurs c sub s :
  String.prefix (String c sub) s = true -> In c (list_ascii_of_string s).
Proof.
  destruct s as [|b s]; simpl; [discriminate|].
  destruct (ascii_dec c b) as [->|]; [by left | discriminate].
Qed.

Lemma contains_head_occurs c sub s :
  contains (String c sub) s = true -> In c (list_ascii_of_string s).
Proof.
  induction s as [|b s IH].
  - simpl. discriminate.
  - cbn [contains]. intros [H|H]%orb_true_iff.
    + by apply prefix_head_occurs in H.
    + right. by apply IH.
Qed.

(** The third test of [is_auth_error] looks for a text with capitals in a
    text without: it never holds. *)
Lemma api_key_test_never_holds msg : contains "API key" (lower msg) = false.
Proof.
  destruct (contains "API key" (lower msg)) eqn:H; [|done].
  apply contains_head_occurs in H. by apply lower_has_no_upper_A in H.
Qed.

(** What the generic handler does with a key in hand: it retires the key
    when the test holds and puts it back at the end of the queue when not. *)
Lemma handle_error_queue {World : Type} (km : ApiKeyManager) (w : World)
    (provider key : string) (params : option (gmap string pyval)) (e : exn) :
  truthy key = true ->
  registered km provider = true ->
  exists km',
    handle_error km w provider key params e
    = Continue km' w (Some e) (Failed provider key params e (is_auth_error (str_exn e))) /\
    queue_of km' provider =
    if is_auth_error (str_exn e) then queue_of km provider
    else queue_of km provider ++ [key].
Proof.
  intros Hk Hr. unfold handle_error. rewrite Hk. eexists. split; [reflexivity|].
  destruct (is_auth_error (str_exn e)).
  - by rewrite release_key_retire.
  - by rewrite release_key_queue, Hr, String.eqb_refl.
Qed.

(** C2: the code misses the claim. An error whose message holds the text
    [API key] and neither [401] nor [403] is not taken for an
    authentication failure, in whatever case the text is written: the
    test compares the lowered message with a text that has capitals. On
    the message that Google sends for a bad key, the key goes back to the
    queue instead of being retired. *)
Theorem api_key_error_is_released :
  (forall msg, is_auth_error msg = contains "401" msg || contains "403" msg) /\
  contains "api key"
    (lower "Google API call failed: 400 API key not valid. Please pass a valid API key.")
    = true /\
  is_auth_error
    "Google API call failed: 400 API key not valid. Please pass a valid API key."
    = false /\
  trace (call (failing_client
                 "Google API call failed: 400 API key not valid. Please pass a valid API key.")
           no_others one_key_fs (loaded one_key_fs) 0 "coding_model_group" "hi" ∅)
  = [("gemini-2.5-pro",
      Failed "google" "k1"
        (Some (call_params (reasoning PROVIDER_GOOGLE "Gemini 2.5 Pro.") ∅ "hi"
                 "gemini-2.5-pro"))
        (OSError "Google API call failed: 400 API key not valid. Please pass a valid API key.")
        false);
     ("codestral-2501", NoProviderKeys (PStr "mistral"))] /\
  queue_of
    (manager (call (failing_client
                      "Google API call failed: 400 API key not valid. Please pass a valid API key.")
                no_others one_key_fs (loaded one_key_fs) 0 "coding_model_group" "hi" ∅))
    "google" = ["k1"].
Proof.
  split_and!.
  - intros msg. unfold is_auth_error.
    by rewrite api_key_test_never_holds, orb_false_r.
  - reflexivity.
  - reflexivity.
  - reflexivity.
  - reflexivity.
Qed.

(** The sibling path: a message with [401] retires the key. *)
Example status_401_error_is_retired :
  trace (call (failing_client "Mistral API Error 401: Unauthorized")
           no_others one_key_fs (loaded one_key_fs) 0 "coding_model_group" "hi" ∅)
  = [("gemini-2.5-pro",
      Failed "google" "k1"
        (Some (call_params (reasoning PROVIDER_GOOGLE "Gemini 2.5 Pro.") ∅ "hi"
                 "gemini-2.5-pro"))
        (OSError "Mistral API Error 401: Unauthorized") true);
     ("codestral-2501", NoProviderKeys (PStr "mistral"))] /\
  queue_of
    (manager (call (failing_client "Mistral API Error 401: Unauthorized")
                no_others one_key_fs (loaded one_key_fs) 0 "coding_model_group" "hi" ∅))
    "google" = [].
Proof. split; reflexivity. Qed.

(** [execute] on a group that is not configured: once the gateway exists,
    or when its creation finds the listing readable, the outcome is that
    of [call], after the load and before any checkout. *)
Lemma execute_unknown_group {World : Type}
    (make_request : client_class -> string -> gmap string pyval -> World ->
                    (string + client_error) * World)
    (others : World -> ApiKeyManager -> ApiKeyManager * World)
    (fs : FileSystem) (created : bool) (km : ApiKeyManager) (w : World)
    (model_group prompt : string) (kwargs : gmap string pyval) :
  MODEL_GROUPS !! model_group = None ->
  created = true \/ fst (initialize_providers fs km) = inl tt ->
  execute make_request others fs created km w model_group prompt kwargs =
  (true,
   {| result := inr (ValueError (unknown_group_message model_group));
      manager := if created then km else snd (initialize_providers fs km);
      world := w; trace := [] |}).
Proof.
  intros H Hc. unfold execute, call, get_model_group. rewrite H. cbn [default].
  destruct created; [reflexivity|].
  destruct Hc as [Hc|Hc]; [discriminate|].
  destruct (initialize_providers fs km) as [[[]|e] km1]; [reflexivity | discriminate].
Qed.

(** ** The scenarios of the specification *)

(** With no other task, the checkout of the router is [get_key]. *)
Lemma get_key_suspended_alone {World : Type} (fs : FileSystem)
    (km : ApiKeyManager) (w : World) (provider : string) :
  get_key_suspended (fun w km => (km, w)) fs km w provider
  = (get_key fs km provider, w).
Proof.
  unfold get_key_suspended, get_key.
  destruct (get_key_guard fs km provider) as [[u|e] km1]; [|reflexivity].
  by destruct (get_key_dequeue km1 provider).
Qed.

(** A transient failure on the first provider and no key for the second:
    the key of the first is back in its queue, the second candidate is
    skipped, and the final error carries the transient failure. *)
Example scenario_transient_then_no_keys :
  result (call (failing_client "Google API call failed: 503 unavailable")
            no_others one_key_fs (loaded one_key_fs) 0 "coding_model_group" "hi" ∅)
  = inr (Exception_
           ("Failed to get a response from any model in the group " +:+
            "'coding_model_group'. Last error: " +:+
            "Google API call failed: 503 unavailable")) /\
  map (fun ma => (fst ma, succeeded (snd ma), failure_of (snd ma)))
    (trace (call (failing_client "Google API call failed: 503 unavailable")
              no_others one_key_fs (loaded one_key_fs) 0 "coding_model_group" "hi" ∅))
  = [("gemini-2.5-pro", false, Some (OSError "Google API call failed: 503 unavailable"));
     ("codestral-2501", false, None)] /\
  queue_of
    (manager (call (failing_client "Google API call failed: 503 unavailable")
                no_others one_key_fs (loaded one_key_fs) 0 "coding_model_group" "hi" ∅))
    "google" = ["k1"].
Proof. split_and!; reflexivity. Qed.

(** After a failure with [401] the key is retired; the next call finds the
    provider registered and its queue empty, fails at the checkout without
    a request, and reports [NoKeysAvailableError] as the last error. *)
Example scenario_retired_then_no_keys :
  world (call (failing_client "unused") no_others one_key_fs
           (manager (call (failing_client "Mistral API Error 401: Unauthorized")
                       no_others one_key_fs (loaded one_key_fs) 0 "coding_model_group" "hi" ∅))
           1 "coding_model_group" "again" ∅) = 1 /\
  result (call (failing_client "unused") no_others one_key_fs
            (manager (call (failing_client "Mistral API Error 401: Unauthorized")
                        no_others one_key_fs (loaded one_key_fs) 0 "coding_model_group" "hi" ∅))
            1 "coding_model_group" "again" ∅)
  = inr (Exception_
           ("Failed to get a response from any model in the group " +:+
            "'coding_model_group'. Last error: " +:+ no_keys_message "google")).
Proof. split; reflexivity. Qed.

(** The first candidate fails, the second answers: both keys are back in
    their queues and the caller gets the answer. *)
Example scenario_fallback_succeeds :
  result (call google_down_client no_others google_mistral_fs (loaded google_mistral_fs) 0
            "coding_model_group" "hi" ∅) = inl "answer" /\
  map (fun ma => (fst ma, succeeded (snd ma)))
    (trace (call google_down_client no_others google_mistral_fs (loaded google_mistral_fs) 0
              "coding_model_group" "hi" ∅))
  = [("gemini-2.5-pro", false); ("codestral-2501", true)] /\
  queue_of (manager (call google_down_client no_others google_mistral_fs
                       (loaded google_mistral_fs) 0 "coding_model_group" "hi" ∅))
    "google" = ["g1"] /\
  queue_of (manager (call google_down_client no_others google_mistral_fs
                       (loaded google_mistral_fs) 0 "coding_model_group" "hi" ∅))
    "mistral" = ["m1"].
Proof. split_and!; reflexivity. Qed.

(** Another task takes the key of the first provider while the call waits
    for it: the checkout passes the guard and times out, no request is
    sent, the loop goes on to the second candidate, and the timeout is the
    last error. *)
Example scenario_timeout_then_no_keys :
  get_key_suspended google_drained one_key_fs (loaded one_key_fs) 0 "google"
  = (inr (GetKeyTimeoutError (timeout_message "google")),
     fst (google_drained 0 (loaded one_key_fs)), 0) /\
  trace (call (failing_client "unused") google_drained one_key_fs
           (loaded one_key_fs) 0 "coding_model_group" "hi" ∅)
  = [("gemini-2.5-pro",
      CheckoutFailed "google" (GetKeyTimeoutError (timeout_message "google")));
     ("codestral-2501", NoProviderKeys (PStr "mistral"))] /\
  world (call (failing_client "unused") google_drained one_key_fs
           (loaded one_key_fs) 0 "coding_model_group" "hi" ∅) = 0 /\
  result (call (failing_client "unused") google_drained one_key_fs
            (loaded one_key_fs) 0 "coding_model_group" "hi" ∅)
  = inr (Exception_
           ("Failed to get a response from any model in the group " +:+
            "'coding_model_group'. Last error: " +:+ timeout_message "google")).
Proof. split_and!; reflexivity. Qed.

(** * Further properties of the code *)

Import CallTrace Invariant Roots.

(** ** More on strings *)

Lemma all_chars_impl (P Q : ascii -> bool) s :
  (forall c, P c = true -> Q c = true) -> all_chars P s = true -> all_chars Q s = true.
Proof.
  intros HPQ. induction s as [|c s IH]; [done|]. cbn [all_chars].
  intros [Hc Hs]%andb_true_iff. by rewrite (HPQ _ Hc), IH.
Qed.

Lemma split_pieces_keep P sep s :
  all_chars P s = true -> Forall (fun piece => all_chars P piece = true) (split sep s).
Proof.
  induction s as [|c s IH]; cbn [split all_chars]; [by repeat constructor|].
  intros [Hc Hs]%andb_true_iff. specialize (IH Hs).
  destruct (Ascii.eqb c sep); [by constructor|].
  destruct (split sep s) as [|h t]; [repeat constructor; cbn [all_chars]; by rewrite Hc|].
  inversion IH as [|? ? Hh Ht]; subst. constructor; [|done].
  cbn [all_chars]. by rewrite Hc, Hh.
Qed.

Lemma strip_keeps P s : all_chars P s = true -> all_chars P (strip s) = true.
Proof.
  destruct (strip_spec s) as (l & r & Hs & _). intros H. rewrite Hs in H.
  rewrite !all_chars_append in H.
  by apply andb_true_iff in H as [_ [H _]%andb_true_iff].
Qed.

Lemma last_char_ok_tail P c s : last_char_ok P (String c s) -> last_char_ok P s.
Proof. intros H s' c' ->. by apply (H (String c s') c'). Qed.

Lemma rstrip_fixed s :
  last_char_ok (fun c => negb (isspace c)) s -> rstrip s = s.
Proof.
  induction s as [|c s IH]; [done|]. intros H. cbn [rstrip].
  rewrite IH by by apply last_char_ok_tail in H.
  destruct s as [|y t]; [|done].
  specialize (H EmptyString c eq_refl). by apply negb_true_iff in H as ->.
Qed.

(** [strip] is idempotent. *)
Lemma strip_strip s : strip (strip s) = strip s.
Proof.
  destruct (strip_spec s) as (l & r & _ & _ & _ & Hhead & Hlast).
  unfold strip at 1.
  assert (lstrip (strip s) = strip s) as ->.
  { destruct (strip s) as [|c t]; [done|]. cbn [lstrip]. by rewrite Hhead. }
  by apply rstrip_fixed.
Qed.

Lemma replace_absent old new s :
  contains old s = false -> replace_from old new 0 s = s.
Proof.
  induction s as [|c s IH]; [done|]. cbn [contains replace_from].
  intros [Hp Hc]%orb_false_iff. cbn [String.prefix] in Hp |- *.
  destruct old as [|a old]; [done|].
  rewrite Hp. by rewrite IH.
Qed.

Lemma replace_from_skip old new a s :
  replace_from old new (String.length a) (a +:+ s) = replace_from old new 0 s.
Proof.
  induction a as [|c a IH]; [done|].
  rewrite append_cons. cbn [String.length replace_from]. apply IH.
Qed.

(** An occurrence at the head is replaced, and the scan goes on after it. *)
Lemma replace_head c old new s :
  replace_from (String c old) new 0 (String c old +:+ s)
  = new +:+ replace_from (String c old) new 0 s.
Proof.
  rewrite append_cons. cbn [replace_from].
  assert (String.prefix (String c old) (String c (old +:+ s)) = true) as ->
    by (apply prefix_spec; by exists s).
  cbn [String.length Nat.sub]. rewrite Nat.sub_0_r. by rewrite replace_from_skip.
Qed.

(** ** More on the loader *)

Lemma elem_of_parse_keys key keys_str :
  key ∈ parse_keys keys_str ->
  exists piece, piece ∈ split ","%char keys_str /\ key = strip piece /\ key <> EmptyString.
Proof.
  unfold parse_keys. intros (piece & <- & Hin)%list_elem_of_In%List.in_map_iff.
  apply List.filter_In in Hin as [Hin Ht].
  exists piece. split; [by apply list_elem_of_In|]. split; [done|].
  by destruct (strip piece).
Qed.

Lemma elem_of_file_keys fs f key :
  key ∈ file_keys fs f ->
  exists content keys_str,
    read_file fs f = Some content /\ search_api_keys content = Some keys_str /\
    key ∈ parse_keys keys_str.
Proof.
  unfold file_keys. destruct (read_file fs f) as [content|]; [|by intros ?%elem_of_nil].
  destruct (search_api_keys content) as [g|] eqn:Hg; [|by intros ?%elem_of_nil].
  intros H. exists content, g. split_and!; [reflexivity | exact Hg | exact H].
Qed.

Lemma loaded_queue fs files p :
  listdir fs = inl files ->
  queue_of (loaded fs) p =
  concat (map (fun f => first_occurrences (file_keys fs f))
            (List.filter (fun f => String.eqb (provider_of f) p)
               (List.filter is_provider_env_file files))).
Proof.
  intros Hls. rewrite (loaded_providers _ _ Hls). unfold queue_of. cbn [_providers].
  unfold _load_keys_from_provider_env_files. rewrite load_files_queue. cbn [queue_in PyDict.get app].
  f_equal. apply map_ext. intros f. apply unique_first_occurrences.
Qed.

Lemma loaded_unlisted fs msg : listdir fs = inr msg -> loaded fs = new_manager.
Proof. unfold loaded, initialize_providers. cbn. by intros ->. Qed.

Lemma loaded_key_clean (fs : FileSystem) (p key : string) :
  key ∈ queue_of (loaded fs) p ->
  key <> EmptyString /\ strip key = key /\
  all_chars (fun c => negb (Ascii.eqb c ","%char)) key = true /\
  all_chars not_dquote key = true.
Proof.
  destruct (listdir fs) as [files|msg] eqn:Hls;
    [|rewrite (loaded_unlisted _ _ Hls); by intros ?%elem_of_nil].
  rewrite (loaded_queue _ _ _ Hls).
  intros (l & Hl & Hkey)%list_elem_of_In%List.in_concat.
  apply List.in_map_iff in Hl as (f & <- & _). apply list_elem_of_In in Hkey.
  apply (proj1 (elem_of_first_occurrences _ _)) in Hkey.
  apply elem_of_file_keys in Hkey as (content & g & _ & Hg & Hkey).
  apply elem_of_parse_keys in Hkey as (piece & Hpiece & -> & Hne).
  apply search_api_keys_spec in Hg as (pre & post & _ & _ & Hm & _).
  destruct Hm as (w & rest & _ & _ & _ & _ & Hq).
  pose proof (split_pieces ","%char g) as Hcomma.
  pose proof (split_pieces_keep not_dquote ","%char g Hq) as Hquote.
  rewrite Forall_forall in Hcomma, Hquote.
  split_and!; [done | apply strip_strip | apply strip_keeps | apply strip_keeps].
  - by apply Hcomma.
  - by apply Hquote.
Qed.

(** X1: every key that the load puts in a queue is a non-empty text
    without a blank at either end, without a comma and without a double
    quote, whatever the provider files hold. *)
Theorem loaded_keys_are_clean (fs : FileSystem) (p key : string) :
  key ∈ queue_of (loaded fs) p ->
  key <> EmptyString /\ strip key = key /\
  all_chars (fun c => negb (Ascii.eqb c ","%char)) key = true /\
  all_chars not_dquote key = true.
Proof. apply loaded_key_clean. Qed.

Lemma loaded_keys_truthy fs : keys_truthy (loaded fs).
Proof.
  intros p key Hin. destruct (loaded_key_clean fs p key Hin) as [Hne _].
  by destruct key.
Qed.

Lemma loaded_keys_are_clean_witness :
  "k1" ∈ queue_of (loaded one_key_fs) "google" /\
  "k1" <> EmptyString /\ strip "k1" = "k1".
Proof.
  assert (H : "k1" ∈ queue_of (loaded one_key_fs) "google")
    by (refine (bool_decide_unpack _ _); vm_compute; exact I).
  split; [exact H|].
  destruct (loaded_keys_are_clean one_key_fs "google" "k1" H) as (H1 & H2 & _).
  split; [exact H1 | exact H2].
Defined.

(** X2: the queue of a provider after the load is made of the keys of
    every provider file whose name resolves to it, file by file in the
    order of the listing, each file without repetition; a key that two such
    files hold is queued twice. The provider has an entry exactly when one
    of these files holds a key. *)
Theorem loaded_queue_by_files (fs : FileSystem) (files : list string) (p : string) :
  listdir fs = inl files ->
  queue_of (loaded fs) p =
  concat (map (fun f => first_occurrences (file_keys fs f))
            (List.filter (fun f => String.eqb (provider_of f) p)
               (List.filter is_provider_env_file files))) /\
  (registered (loaded fs) p = true <->
   exists f, In f files /\ is_provider_env_file f = true /\
             provider_of f = p /\ file_keys fs f <> []).
Proof.
  intros Hls. split; [by apply loaded_queue|].
  rewrite (loaded_providers _ _ Hls). unfold registered. cbn [_providers].
  unfold _load_keys_from_provider_env_files. rewrite load_files_mem. cbn [PyDict.mem PyDict.get orb].
  rewrite existsb_exists. split.
  - intros (f & [Hin Henv]%List.filter_In & [Hp%String.eqb_eq Hk]%andb_true_iff).
    exists f. split_and!; [done | done | done |]. by destruct (file_keys fs f).
  - intros (f & Hin & Henv & Hp & Hk). exists f. split; [by apply List.filter_In|].
    apply andb_true_iff. split; [by apply String.eqb_eq|]. by destruct (file_keys fs f).
Qed.

Lemma loaded_queue_by_files_witness :
  listdir shared_provider_fs = inl [".env.google"; ".env.mistral"; ".env.goo.env.gle"] /\
  queue_of (loaded shared_provider_fs) "google" = ["k1"; "k2"; "k2"; "k3"] /\
  registered (loaded shared_provider_fs) "mistral" = false.
Proof.
  assert (H : listdir shared_provider_fs
              = inl [".env.google"; ".env.mistral"; ".env.goo.env.gle"]) by reflexivity.
  split; [exact H|]. split.
  - exact (proj1 (loaded_queue_by_files shared_provider_fs _ "google" H)).
  - reflexivity.
Defined.

Lemma load_file_keyless fs ps f : file_keys fs f = [] -> load_file fs ps f = ps.
Proof. unfold load_file. by intros ->. Qed.

(** X3: a provider file that gives no key, because it cannot be read, has
    no key line, or has a key line without a key, is passed over: the load
    ends as if the file were not in the listing, and the files after it are
    loaded all the same. *)
Theorem keyless_file_is_skipped (fs : FileSystem) (files : list string)
    (ps : list (string * ProviderEntry)) (f : string) :
  file_keys fs f = [] ->
  _load_keys_from_provider_env_files fs files ps =
  _load_keys_from_provider_env_files fs
    (List.filter (fun g => negb (String.eqb g f)) files) ps.
Proof.
  intros Hk. unfold _load_keys_from_provider_env_files. revert ps.
  induction files as [|g files IH]; intros ps; [done|]. cbn [List.filter].
  destruct (String.eqb g f) eqn:E; cbn [negb].
  - apply String.eqb_eq in E as ->.
    destruct (is_provider_env_file f); [|apply IH].
    cbn [fold_left]. rewrite load_file_keyless by done. apply IH.
  - cbn [List.filter]. destruct (is_provider_env_file g); [|apply IH].
    cbn [fold_left]. apply IH.
Qed.

Lemma keyless_file_is_skipped_witness :
  file_keys shared_provider_fs ".env.mistral" = [] /\
  _load_keys_from_provider_env_files shared_provider_fs
    [".env.google"; ".env.mistral"; ".env.goo.env.gle"] [] =
  _load_keys_from_provider_env_files shared_provider_fs
    [".env.google"; ".env.goo.env.gle"] [].
Proof.
  assert (H : file_keys shared_provider_fs ".env.mistral" = []) by reflexivity.
  split; [exact H|].
  exact (keyless_file_is_skipped shared_provider_fs
           [".env.google"; ".env.mistral"; ".env.goo.env.gle"] [] ".env.mistral" H).
Defined.

(** X4: the file [.env.] followed by [p] is a provider file for provider
    [p], as long as [p] does not hold the text [.env.] itself and the file
    name does not end in [.example]. *)
Theorem provider_file_round_trip (p : string) :
  contains ".env." p = false ->
  endswith (".env." +:+ p) ".example" = false ->
  is_provider_env_file (".env." +:+ p) = true /\ provider_of (".env." +:+ p) = p.
Proof.
  intros Hc He. unfold is_provider_env_file, provider_of, replace, startswith.
  rewrite He.
  assert (String.prefix ".env." (".env." +:+ p) = true) as Hp
    by (apply prefix_spec; by exists p).
  split; [by rewrite Hp|].
  rewrite replace_head, append_nil_l. by apply replace_absent.
Qed.

Lemma provider_file_round_trip_witness :
  contains ".env." "google" = false /\
  endswith (".env." +:+ "google") ".example" = false /\
  is_provider_env_file (".env." +:+ "google") = true /\
  provider_of (".env." +:+ "google") = "google".
Proof.
  assert (H1 : contains ".env." "google" = false) by reflexivity.
  assert (H2 : endswith (".env." +:+ "google") ".example" = false) by reflexivity.
  split; [exact H1|]. split; [exact H2|].
  exact (provider_file_round_trip "google" H1 H2).
Defined.

(** X5: a file that starts with a key line gives the keys of that line,
    whatever the name before [_API_KEYS] is and whatever follows the
    closing quote, further key lines included: the name in the line is not
    compared with the provider of the file name. *)
Theorem first_key_line_wins (fs : FileSystem) (f name keys_str rest : string) :
  name <> EmptyString -> all_chars is_word name = true ->
  keys_str <> EmptyString -> all_chars not_dquote keys_str = true ->
  read_file fs f = Some (key_line name keys_str +:+ rest) ->
  file_keys fs f = parse_keys keys_str.
Proof.
  intros Hn Hw Hk Hq Hr. unfold file_keys. rewrite Hr.
  assert (search_api_keys (key_line name keys_str +:+ rest) = Some keys_str) as ->; [|done].
  unfold search_api_keys.
  assert (match_api_keys_at (key_line name keys_str +:+ rest) = Some keys_str) as Hm.
  { apply match_api_keys_at_spec. exists name, rest. split_and!; [|done..].
    unfold key_line. by rewrite !append_assoc. }
  destruct (key_line name keys_str +:+ rest) as [|c s] eqn:E.
  - by apply match_api_keys_at_spec, key_line_match_nonempty in Hm.
  - cbn [search_from]. by rewrite Hm.
Qed.

Lemma first_key_line_wins_witness :
  file_keys
    (google_only (key_line "MISTRAL" "m1, m2" +:+ String newline (key_line "GOOGLE" "g1")))
    ".env.google" = ["m1"; "m2"].
Proof.
  apply (first_key_line_wins _ ".env.google" "MISTRAL" "m1, m2"
           (String newline (key_line "GOOGLE" "g1"))); [discriminate | reflexivity | discriminate | reflexivity | reflexivity].
Defined.

(** ** More on the key manager *)

Lemma exec_op_same_files fs fs' st o :
  _initialized st = true -> exec_op fs st o = exec_op fs' st o.
Proof.
  intros Hi. destruct o as [p|p key|p key]; cbn [exec_op]; [|done|done].
  by rewrite !get_key_initialized.
Qed.

(** X6: the provider files are read once. On a manager that is
    initialized, [initialize_providers] returns at once, and no sequence
    of checkouts, releases and retirements looks at the project root
    again: keys added to the files later are not seen. *)
Theorem files_are_read_once (fs fs' : FileSystem) (st : ApiKeyManager)
    (p : string) (ops : list op) :
  _initialized st = true ->
  initialize_providers fs' st = (inl tt, st) /\
  run_ops fs' st p ops = run_ops fs st p ops.
Proof.
  intros Hi. split; [by apply initialize_providers_initialized|].
  revert st Hi. induction ops as [|o ops IH]; intros st Hi; [done|].
  rewrite !run_ops_cons, (exec_op_same_files fs' fs) by done.
  destruct (exec_op fs st o) as [st1 got] eqn:Hx. cbn [fst snd].
  destruct (exec_op_stable _ _ _ _ _ Hi Hx) as [Hi1 _].
  by rewrite IH.
Qed.

Lemma files_are_read_once_witness :
  _initialized (loaded one_key_fs) = true /\
  initialize_providers three_keys_fs (loaded one_key_fs) = (inl tt, loaded one_key_fs) /\
  run_ops three_keys_fs (loaded one_key_fs) "google" [Checkout "google"; Checkout "google"]
  = run_ops one_key_fs (loaded one_key_fs) "google" [Checkout "google"; Checkout "google"].
Proof.
  assert (H : _initialized (loaded one_key_fs) = true) by reflexivity.
  split; [exact H|].
  exact (files_are_read_once one_key_fs three_keys_fs (loaded one_key_fs) "google"
           [Checkout "google"; Checkout "google"] H).
Defined.

Lemma exec_op_providers fs st o st' got :
  _initialized st = true ->
  exec_op fs st o = (st', got) ->
  get_available_providers st' = get_available_providers st.
Proof.
  intros Hi. unfold get_available_providers.
  destruct o as [p|p key|p key]; cbn [exec_op].
  - rewrite get_key_initialized by done.
    destruct (PyDict.get (_providers st) p) as [e|] eqn:Hg; [|by intros [= <- <-]].
    destruct (keys e) as [|k q]; intros [= <- <-]; [done|]. cbn [_providers].
    apply keys_set_old. unfold PyDict.mem. by rewrite Hg.
  - intros [= <- <-]. unfold release_key.
    destruct (PyDict.get (_providers st) p) as [e|] eqn:Hg; [|done]. cbn [_providers].
    apply keys_set_old. unfold PyDict.mem. by rewrite Hg.
  - intros [= <- <-]. by rewrite release_key_retire.
Qed.

(** X7: the list of available providers is fixed by the load. No sequence
    of checkouts, releases and retirements adds a provider, drops one or
    changes their order; a provider whose keys are all checked out or
    retired is still listed. *)
Theorem available_providers_are_fixed (fs : FileSystem) (st : ApiKeyManager)
    (p : string) (ops : list op) :
  _initialized st = true ->
  get_available_providers (fst (run_ops fs st p ops)) = get_available_providers st.
Proof.
  revert st. induction ops as [|o ops IH]; intros st Hi; [done|].
  rewrite run_ops_cons. cbn [fst].
  destruct (exec_op fs st o) as [st1 got] eqn:Hx. cbn [fst].
  destruct (exec_op_stable _ _ _ _ _ Hi Hx) as [Hi1 _].
  rewrite IH by done. by apply (exec_op_providers fs st o st1 got).
Qed.

Lemma available_providers_are_fixed_witness :
  _initialized (loaded one_key_fs) = true /\
  queue_of (fst (run_ops one_key_fs (loaded one_key_fs) "google"
                   [Checkout "google"; Retire "google" "k1"])) "google" = [] /\
  get_available_providers
    (fst (run_ops one_key_fs (loaded one_key_fs) "google"
            [Checkout "google"; Retire "google" "k1"]))
  = get_available_providers (loaded one_key_fs).
Proof.
  assert (H : _initialized (loaded one_key_fs) = true) by reflexivity.
  split; [exact H|]. split; [reflexivity|].
  exact (available_providers_are_fixed one_key_fs (loaded one_key_fs) "google"
           [Checkout "google"; Retire "google" "k1"] H).
Defined.

Section EntryFacts.
Context (Q : ProviderEntry -> Prop).
Implicit Types (ps : list (string * ProviderEntry)).

Lemma Forall_set ps k e :
  Forall (fun pe => Q (snd pe)) ps -> Q e ->
  Forall (fun pe => Q (snd pe)) (PyDict.set ps k e).
Proof.
  intros H He. induction H as [|[k' e'] ps Hh Ht IH]; cbn [PyDict.set].
  - by repeat constructor.
  - destruct (String.eqb k' k); by constructor.
Qed.

Lemma Forall_get ps k e :
  Forall (fun pe => Q (snd pe)) ps -> PyDict.get ps k = Some e -> Q e.
Proof.
  intros H. induction H as [|[k' e'] ps Hh Ht IH]; cbn [PyDict.get]; [done|].
  destruct (String.eqb k' k); [by intros [= <-] | done].
Qed.

End EntryFacts.

Lemma put_key_quarantine ps p key :
  Forall (fun pe => quarantine (snd pe) = []) ps ->
  Forall (fun pe => quarantine (snd pe) = []) (put_key ps p key).
Proof.
  intros H. unfold put_key. destruct (PyDict.get ps p) as [e|] eqn:Hg; [|done].
  apply (Forall_set (fun e => quarantine e = [])); [done|]. cbn [with_keys quarantine].
  by apply (Forall_get (fun e => quarantine e = []) ps p e).
Qed.

Lemma load_file_quarantine fs ps f :
  Forall (fun pe => quarantine (snd pe) = []) ps ->
  Forall (fun pe => quarantine (snd pe) = []) (load_file fs ps f).
Proof.
  intros H. unfold load_file. destruct (file_keys fs f) as [|k0 ks0]; [done|].
  generalize (unique (k0 :: ks0)) as l.
  assert (Forall (fun pe => quarantine (snd pe) = [])
            (if PyDict.mem ps (provider_of f) then ps
             else PyDict.set ps (provider_of f) {| keys := []; quarantine := [] |})) as H1.
  { destruct (PyDict.mem ps (provider_of f)); [done|]. by apply (Forall_set (fun e => quarantine e = [])). }
  revert H1. generalize (if PyDict.mem ps (provider_of f) then ps
             else PyDict.set ps (provider_of f) {| keys := []; quarantine := [] |}) as ps1.
  intros ps1 H1 l. revert ps1 H1. induction l as [|k l IH]; intros ps1 H1; [done|].
  cbn [fold_left]. apply IH. by apply put_key_quarantine.
Qed.

Lemma initialize_providers_quarantine fs st :
  quarantine_unused st -> quarantine_unused (snd (initialize_providers fs st)).
Proof.
  unfold quarantine_unused, initialize_providers.
  destruct (_initialized st); [done|]. destruct (listdir fs) as [files|msg]; [|done].
  cbn [snd _providers]. unfold _load_keys_from_provider_env_files.
  generalize (List.filter is_provider_env_file files) as l. intros l. revert st.
  induction l as [|f l IH]; intros st H; [done|]. cbn [fold_left].
  apply (IH {| _providers := load_file fs (_providers st) f; _initialized := false |}).
  by apply load_file_quarantine.
Qed.

Lemma get_key_quarantine fs st p :
  quarantine_unused st -> quarantine_unused (snd (get_key fs st p)).
Proof.
  intros H. unfold get_key, get_key_guard.
  assert (quarantine_unused
            (snd (if _initialized st then (inl tt, st) else initialize_providers fs st))) as H1.
  { destruct (_initialized st); [done|]. by apply initialize_providers_quarantine. }
  destruct (if _initialized st then (inl tt, st) else initialize_providers fs st)
    as [[[]|e] st1]; cbn [snd] in *; [|done].
  destruct (PyDict.get (_providers st1) p) as [en|] eqn:Hg; [|done].
  destruct (queue_empty (keys en)); [done|].
  unfold get_key_dequeue. rewrite Hg.
  destruct (queue_get (keys en)) as [[key q]|]; [|done]. cbn [snd].
  apply (Forall_set (fun e => quarantine e = [])); [done|]. cbn [with_keys quarantine].
  by apply (Forall_get (fun e => quarantine e = []) (_providers st1) p en).
Qed.

Lemma release_key_quarantine st p key b :
  quarantine_unused st -> quarantine_unused (release_key st p key b).
Proof.
  intros H. unfold release_key. destruct (PyDict.get (_providers st) p) as [e|] eqn:Hg; [|done].
  destruct b; [done|]. apply (Forall_set (fun e => quarantine e = [])); [done|]. cbn [with_keys quarantine].
  by apply (Forall_get (fun e => quarantine e = []) (_providers st) p e).
Qed.

(** X8: nothing is ever quarantined. From a new manager, whatever the
    project root holds and whatever checkouts, releases and retirements
    follow, the quarantine of every provider is empty: a retired key is
    dropped, not set aside. *)
Theorem quarantine_is_never_used (fs : FileSystem) (p : string) (ops : list op) :
  quarantine_unused (fst (run_ops fs new_manager p ops)) /\
  quarantine_unused (fst (run_ops fs (loaded fs) p ops)).
Proof.
  assert (forall st, quarantine_unused st -> quarantine_unused (fst (run_ops fs st p ops))) as H.
  { induction ops as [|o ops IH]; intros st Hq; [done|].
    rewrite run_ops_cons. cbn [fst]. apply IH.
    destruct o as [p'|p' key|p' key]; cbn [exec_op].
    - pose proof (get_key_quarantine fs st p' Hq) as Hg.
      by destruct (get_key fs st p') as [[k|e] st1].
    - by apply release_key_quarantine.
    - by apply release_key_quarantine. }
  split; apply H; [constructor|].
  apply initialize_providers_quarantine. constructor.
Qed.

Lemma queue_nonempty_registered st p key q :
  queue_of st p = key :: q -> registered st p = true.
Proof.
  intros H. destruct (registered st p) eqn:Hr; [done|].
  by rewrite queue_of_unregistered in H.
Qed.

(** X9: the keys of a provider are handed out in rotation. When each of
    the first callers in turn takes a key and gives it back before the next
    one asks, they get the keys at the head of the queue in queue order,
    and these keys end behind the keys that were not used. *)
Theorem keys_rotate (fs : FileSystem) (st : ApiKeyManager) (p : string)
    (used rest : list string) :
  _initialized st = true ->
  queue_of st p = used ++ rest ->
  snd (run_ops fs st p (flat_map (fun key => [Checkout p; Release p key]) used)) = used /\
  queue_of (fst (run_ops fs st p (flat_map (fun key => [Checkout p; Release p key]) used))) p
  = rest ++ used.
Proof.
  revert st rest. induction used as [|key used IH]; intros st rest Hi Hq.
  - cbn. by rewrite app_nil_r.
  - cbn [flat_map app]. rewrite !run_ops_cons. cbn [exec_op fst snd record_issue].
    pose proof (get_key_initialized fs st p Hi) as Hg.
    unfold queue_of, queue_in in Hq.
    destruct (PyDict.get (_providers st) p) as [e|] eqn:He; [|done].
    cbn [app] in Hq. rewrite Hq in Hg. rewrite Hg. cbn [fst snd].
    set (st1 := {| _providers := PyDict.set (_providers st) p (with_keys e (used ++ rest));
                   _initialized := true |}).
    assert (queue_of st1 p = used ++ rest) as Hq1.
    { unfold queue_of, st1. cbn [_providers]. by rewrite queue_in_set, String.eqb_refl. }
    assert (registered st1 p = true) as Hr1.
    { unfold registered, st1. cbn [_providers]. by rewrite mem_set, String.eqb_refl. }
    destruct (IH (release_key st1 p key false) (rest ++ [key])) as [IH1 IH2].
    + by rewrite release_key_initialized.
    + by rewrite release_key_queue, Hr1, String.eqb_refl, Hq1, <- app_assoc.
    + rewrite String.eqb_refl, IH1, IH2. by rewrite <- app_assoc.
Qed.

Lemma keys_rotate_witness :
  _initialized (loaded three_keys_fs) = true /\
  queue_of (loaded three_keys_fs) "google" = ["k1"; "k2"] ++ ["k3"] /\
  snd (run_ops three_keys_fs (loaded three_keys_fs) "google"
         [Checkout "google"; Release "google" "k1";
          Checkout "google"; Release "google" "k2"]) = ["k1"; "k2"] /\
  queue_of (fst (run_ops three_keys_fs (loaded three_keys_fs) "google"
                   [Checkout "google"; Release "google" "k1";
                    Checkout "google"; Release "google" "k2"])) "google"
  = ["k3"] ++ ["k1"; "k2"].
Proof.
  assert (H1 : _initialized (loaded three_keys_fs) = true) by reflexivity.
  assert (H2 : queue_of (loaded three_keys_fs) "google" = ["k1"; "k2"] ++ ["k3"])
    by reflexivity.
  split; [exact H1|]. split; [exact H2|].
  exact (keys_rotate three_keys_fs (loaded three_keys_fs) "google" ["k1"; "k2"] ["k3"] H1 H2).
Defined.

(** X10: [get_key] on a manager that is not initialized loads the keys
    first. When the project root cannot be listed, the [OSError] of the
    listing comes out of [get_key] as it is, the manager stays as it was,
    not initialized, and the next call tries the load again; when the
    listing succeeds, the checkout is the one on the loaded manager. *)
Theorem get_key_loads_first (fs : FileSystem) (st : ApiKeyManager) (p : string) :
  _initialized st = false ->
  match listdir fs with
  | inr msg => get_key fs st p = (inr (OSError msg), st)
  | inl files =>
      get_key fs st p =
      get_key fs {| _providers := _load_keys_from_provider_env_files fs files (_providers st);
                    _initialized := true |} p
  end.
Proof.
  intros Hi. unfold get_key, get_key_guard, initialize_providers. rewrite Hi.
  by destruct (listdir fs) as [files|msg].
Qed.

Lemma get_key_loads_first_witness :
  _initialized new_manager = false /\
  get_key unreadable_fs new_manager "google"
  = (inr (OSError "[Errno 13] Permission denied: '.'"), new_manager) /\
  get_key one_key_fs (snd (get_key unreadable_fs new_manager "google")) "google"
  = get_key one_key_fs (loaded one_key_fs) "google".
Proof.
  assert (H : _initialized new_manager = false) by reflexivity.
  split; [exact H|]. split.
  - exact (get_key_loads_first unreadable_fs new_manager "google" H).
  - reflexivity.
Defined.

(** ** More on the configuration *)

(** X11: every group of the configuration names at least one model, and
    every model that a group names has an entry in the registry, but for
    one: [gemini-2.5-flash-lite] in [classic_reasoning] has none, so that
    candidate is passed over in every call. *)
Theorem group_models_are_registered (g : string) (models : list string) :
  MODEL_GROUPS !! g = Some models ->
  models <> [] /\
  forall m, In m models ->
    (get_model_config m = None <->
     g = "classic_reasoning" /\ m = "gemini-2.5-flash-lite").
Proof.
  intros H. split; [by apply (group_nonempty g)|].
  unfold MODEL_GROUPS in H. apply elem_of_list_to_map_2, list_elem_of_In in H.
  assert (forallb (fun gm =>
            forallb (fun m =>
              Bool.eqb (match get_model_config m with Some _ => false | None => true end)
                       (String.eqb (fst gm) "classic_reasoning"
                        && String.eqb m "gemini-2.5-flash-lite"))
              (snd gm)) group_entries = true) as Hall by (vm_compute; reflexivity).
  rewrite forallb_forall in Hall. specialize (Hall _ H). cbn [fst snd] in Hall.
  rewrite forallb_forall in Hall. intros m Hm. specialize (Hall _ Hm).
  apply Bool.eqb_prop in Hall.
  clear H Hm. destruct (get_model_config m); split.
  - intros [=].
  - intros [-> ->]. rewrite !String.eqb_refl in Hall. discriminate Hall.
  - intros _. symmetry in Hall.
    apply andb_true_iff in Hall as [->%String.eqb_eq ->%String.eqb_eq]. by split.
  - reflexivity.
Qed.

Lemma group_models_are_registered_witness :
  MODEL_GROUPS !! "classic_reasoning"
  = Some ["llama-3.3-70b"; "gpt-oss-120b"; "gemini-2.5-flash-lite"; "mistral-small-2501"] /\
  get_model_config "gemini-2.5-flash-lite" = None /\
  get_model_config "gemini-2.0-flash-lite"
  = Some (reasoning PROVIDER_GOOGLE "Gemini 2.0 Flash Lite.").
Proof.
  assert (H : MODEL_GROUPS !! "classic_reasoning"
              = Some ["llama-3.3-70b"; "gpt-oss-120b"; "gemini-2.5-flash-lite";
                      "mistral-small-2501"]) by reflexivity.
  split; [exact H|].
  destruct (group_models_are_registered _ _ H) as [_ Hm].
  split.
  - apply (Hm "gemini-2.5-flash-lite"); [right; right; by left | by split].
  - reflexivity.
Defined.

(** Every entry of the registry names a provider that has a client class. *)
Lemma registry_entry_supported m d :
  get_model_config m = Some d ->
  (size d =? 0)%nat = false /\
  exists p cls, d !! "provider" = Some (PStr p) /\ PROVIDER_MAP !! p = Some cls.
Proof.
  unfold get_model_config, MODELS_REGISTRY. intros H.
  apply elem_of_list_to_map_2, list_elem_of_In in H.
  assert (Forall (fun md => (size (snd md) =? 0)%nat = false /\
                            exists p cls, snd md !! "provider" = Some (PStr p) /\
                                          PROVIDER_MAP !! p = Some cls)
            registry_entries) as HF.
  { unfold registry_entries.
    repeat (apply List.Forall_cons;
            [split; [reflexivity | eexists _, _; split; reflexivity]|]).
    apply List.Forall_nil. }
  rewrite List.Forall_forall in HF. apply (HF (m, d) H).
Qed.

(** ** More on the fallback loop *)

Section TraceFacts.
Context {World : Type}.
Variable make_request :
  client_class -> string -> gmap string pyval -> World ->
  (string + client_error) * World.
Variable others : World -> ApiKeyManager -> ApiKeyManager * World.
Variable fs : FileSystem.

(** What holds of the attempt of every turn holds along every trace. *)
Lemma call_loop_trace (P : string -> attempt -> Prop) g prompt kwargs avail :
  (forall m km w le,
     match try_model make_request others fs prompt kwargs avail m km w le with
     | Return _ _ _ a | Continue _ _ _ a => P m a
     | Propagate _ _ _ => True
     end) ->
  forall models km w le,
    Forall (fun ma => P (fst ma) (snd ma))
      (trace (call_loop make_request others fs g prompt kwargs avail models km w le)).
Proof.
  intros Hturn models. induction models as [|m0 models IH]; intros km w le;
    cbn [call_loop]; [constructor|].
  specialize (Hturn m0 km w le).
  destruct (try_model make_request others fs prompt kwargs avail m0 km w le)
    as [text km1 w1 a1|km1 w1 le1 a1|e km1 w1]; cbn [trace logged].
  - by repeat constructor.
  - constructor; [done | apply IH].
  - constructor.
Qed.

Lemma call_trace (P : string -> attempt -> Prop) km w g prompt kwargs :
  (forall avail m km w le,
     match try_model make_request others fs prompt kwargs avail m km w le with
     | Return _ _ _ a | Continue _ _ _ a => P m a
     | Propagate _ _ _ => True
     end) ->
  Forall (fun ma => P (fst ma) (snd ma))
    (trace (call make_request others fs km w g prompt kwargs)).
Proof.
  intros Hturn. unfold call. destruct (get_model_group g) as [|m0 models]; [constructor|].
  apply call_loop_trace. intros. apply Hturn.
Qed.

(** A turn that fails with a key in hand before any request is the
    refusal of an empty key. *)
Lemma try_model_before_request prompt kwargs avail m km w le :
  match try_model make_request others fs prompt kwargs avail m km w le with
  | Return _ _ _ a | Continue _ _ _ a =>
      forall p key e r, a = Failed p key None e r ->
        key = EmptyString /\ r = false /\
        exists cls, PROVIDER_MAP !! p = Some cls /\ e = ValueError (key_required_message cls)
  | Propagate _ _ _ => True
  end.
Proof.
  unfold try_model.
  destruct (get_model_config m) as [details|] eqn:Hc; [|discriminate].
  destruct (registry_entry_supported _ _ Hc) as [-> (provider & cls & -> & Hm)].
  destruct (negb (existsb (String.eqb provider) avail)); [discriminate|].
  destruct (get_key_suspended others fs km w provider) as [[[key|e] km1] w1];
    [|discriminate].
  rewrite Hm.
  unfold handle_error. destruct (truthy key) eqn:Hk; cbn [negb].
  - destruct (make_request cls key (call_params details kwargs prompt m) w1) as [r w2].
    destruct (others w2 km1) as [km2 w3].
    destruct r as [response|ce]; discriminate.
  - intros p key' e r [= <- <- <- <-]. destruct key; [|discriminate]. eauto.
Qed.

(** Such a turn ends where its checkout ended: no request was made and
    [release_key] was not called. *)
Lemma try_model_key_not_put_back prompt kwargs avail m km w le km1 w1 le1 p key e r :
  try_model make_request others fs prompt kwargs avail m km w le
  = Continue km1 w1 le1 (Failed p key None e r) ->
  get_key_suspended others fs km w p = (inl EmptyString, km1, w1) /\ le1 = Some e.
Proof.
  unfold try_model.
  destruct (get_model_config m) as [details|] eqn:Hc; [|discriminate].
  destruct (registry_entry_supported _ _ Hc) as [-> (provider & cls & -> & Hm)].
  clear Hc.
  destruct (negb (existsb (String.eqb provider) avail)); [discriminate|].
  destruct (get_key_suspended others fs km w provider) as [[[key0|e0] km0] w0] eqn:Hk;
    [|discriminate].
  rewrite Hm.
  unfold handle_error. destruct (truthy key0) eqn:Ht; cbn [negb].
  - destruct (make_request cls key0 (call_params details kwargs prompt m) w0) as [r0 w2].
    destruct (others w2 km0) as [km2 w3].
    destruct r0 as [response|ce]; discriminate.
  - intros [= <- <- <- <- <- <- <-]. destruct key0; [|discriminate].
    split; [exact Hk | reflexivity].
Qed.

End TraceFacts.

(** X12: every provider of the registry has a client class, so [call]
    never takes the branch [Provider not supported]. Between the checkout
    and the code of the client that the vendor libraries run, a turn fails
    only at the first test of the constructor, and only on a key that is
    the empty text: the [ValueError] of the constructor is then no
    authentication failure, and since the handler tests [if api_key],
    [release_key] is not called: the turn leaves the manager and the world
    as its checkout left them, with the empty key gone from the queue. *)
Theorem failure_before_request_is_empty_key {World : Type}
    (make_request : client_class -> string -> gmap string pyval -> World ->
                    (string + client_error) * World)
    (others : World -> ApiKeyManager -> ApiKeyManager * World)
    (fs : FileSystem) (km : ApiKeyManager) (w : World)
    (model_group prompt : string) (kwargs : gmap string pyval) :
  (forall m d, get_model_config m = Some d ->
     exists p cls, d !! "provider" = Some (PStr p) /\ PROVIDER_MAP !! p = Some cls) /\
  (forall m p key e r,
     In (m, Failed p key None e r)
        (trace (call make_request others fs km w model_group prompt kwargs)) ->
     key = EmptyString /\ r = false /\
     exists cls, PROVIDER_MAP !! p = Some cls /\ e = ValueError (key_required_message cls)) /\
  (forall avail m km0 w0 le km1 w1 le1 p key e r,
     try_model make_request others fs prompt kwargs avail m km0 w0 le
     = Continue km1 w1 le1 (Failed p key None e r) ->
     get_key_suspended others fs km0 w0 p = (inl EmptyString, km1, w1) /\
     key = EmptyString /\ le1 = Some e).
Proof.
  split_and!.
  - intros m d H. by destruct (registry_entry_supported m d H).
  - intros m p key e r Hin.
    pose proof (call_trace make_request others fs
                  (fun _ a => forall p key e r, a = Failed p key None e r ->
                     key = EmptyString /\ r = false /\
                     exists cls, PROVIDER_MAP !! p = Some cls /\
                                 e = ValueError (key_required_message cls))
                  km w model_group prompt kwargs) as HF.
    rewrite List.Forall_forall in HF.
    apply (HF (fun avail m km w le =>
                 try_model_before_request make_request others fs prompt kwargs avail m km w le)
              _ Hin).
    reflexivity.
  - intros avail m km0 w0 le km1 w1 le1 p key e r Ht.
    destruct (try_model_key_not_put_back make_request others fs prompt kwargs avail m km0 w0
                le km1 w1 le1 p key e r Ht) as [Hk ->].
    split_and!; [exact Hk | | reflexivity].
    pose proof (try_model_before_request make_request others fs prompt kwargs avail m km0 w0
                  le) as Hb.
    rewrite Ht in Hb. by destruct (Hb p key e r eq_refl).
Qed.

(** X13: [call] raises the [ValueError] of an unknown group exactly when
    [MODEL_GROUPS] does not hold the group: for a group of the
    configuration, whatever happens to its candidates and whatever other
    tasks do meanwhile, the caller never gets this [ValueError]. *)
Theorem unknown_group_error_iff {World : Type}
    (make_request : client_class -> string -> gmap string pyval -> World ->
                    (string + client_error) * World)
    (others : World -> ApiKeyManager -> ApiKeyManager * World)
    (fs : FileSystem) (km : ApiKeyManager) (w : World)
    (model_group prompt : string) (kwargs : gmap string pyval) :
  result (call make_request others fs km w model_group prompt kwargs)
    = inr (ValueError (unknown_group_message model_group))
  <-> MODEL_GROUPS !! model_group = None.
Proof.
  unfold call, get_model_group.
  destruct (MODEL_GROUPS !! model_group) as [models|] eqn:Hg; unfold default, from_option, id.
  - split; [|intros [=]]. pose proof (group_nonempty _ _ Hg) as Hne.
    destruct models as [|m0 models]; [by destruct Hne|]. lazy beta match.
    pose proof (call_loop_outcome make_request others fs model_group prompt kwargs
                  (get_available_providers km) (m0 :: models) km w None) as Ho.
    destruct (result (call_loop make_request others fs model_group prompt kwargs
                        (get_available_providers km) (m0 :: models) km w None))
      as [text|e]; [intros [=]|].
    destruct Ho as (-> & _). intros [=].
  - split; reflexivity.
Qed.

Section NoKeys.
Context {World : Type}.
Variable make_request :
  client_class -> string -> gmap string pyval -> World ->
  (string + client_error) * World.
Variable others : World -> ApiKeyManager -> ApiKeyManager * World.
Variable fs : FileSystem.

Lemma existsb_eqb_elem_of (x : string) (l : list string) :
  existsb (String.eqb x) l = true -> x ∈ l.
Proof.
  intros (y & Hin & ->%String.eqb_eq)%existsb_exists. by apply list_elem_of_In.
Qed.

Lemma get_key_guard_empty km p :
  _initialized km = true -> queue_of km p = [] ->
  get_key_guard fs km p = (inr (NoKeysAvailableError (no_keys_message p)), km).
Proof.
  intros Hi Hq. unfold get_key_guard. rewrite Hi.
  unfold queue_of, queue_in in Hq.
  destruct (PyDict.get (_providers km) p) as [e|]; [|done]. by rewrite Hq.
Qed.

Lemma try_model_no_keys prompt kwargs avail m km w le :
  (forall p, p ∈ avail -> _initialized km = true /\ queue_of km p = []) ->
  exists le' a,
    try_model make_request others fs prompt kwargs avail m km w le = Continue km w le' a /\
    without_request a.
Proof.
  intros Hnk. unfold try_model.
  destruct (get_model_config m) as [details|] eqn:Hc;
    [|eexists _, _; split; [reflexivity | exact I]].
  destruct (registry_entry_supported _ _ Hc) as [-> (provider & cls & -> & Hm)].
  destruct (negb (existsb (String.eqb provider) avail)) eqn:Hav;
    [eexists _, _; split; [reflexivity | exact I]|].
  apply negb_false_iff, existsb_eqb_elem_of in Hav.
  destruct (Hnk _ Hav) as [Hi Hq].
  unfold get_key_suspended. rewrite (get_key_guard_empty km provider Hi Hq).
  eexists _, _; split; reflexivity.
Qed.

Lemma call_loop_no_keys g prompt kwargs avail models km w :
  (forall p, p ∈ avail -> _initialized km = true /\ queue_of km p = []) ->
  forall le,
    manager (call_loop make_request others fs g prompt kwargs avail models km w le) = km /\
    world (call_loop make_request others fs g prompt kwargs avail models km w le) = w /\
    Forall (fun ma => without_request (snd ma))
      (trace (call_loop make_request others fs g prompt kwargs avail models km w le)).
Proof.
  intros Hnk. induction models as [|m0 models IH]; intros le; cbn [call_loop].
  - cbn [manager world trace]. split_and!; [done | done | constructor].
  - destruct (try_model_no_keys prompt kwargs avail m0 km w le Hnk) as (le' & a & -> & Ha).
    cbn [manager world trace logged]. destruct (IH le') as (? & ? & ?).
    split_and!; [done | done | by constructor].
Qed.

End NoKeys.

(** X14: when every provider that the manager lists has an empty queue
    on an initialized manager, or the manager lists no provider at all, as
    a manager does that was never initialized, [call] sends no request and
    takes no key: the manager and the world are as before, every candidate
    is passed over or fails at the guard of the checkout, and for a group
    of the configuration the caller gets the final [Exception]. So on a
    manager that was never initialized [call] does not load the keys. *)
Theorem call_without_keys {World : Type}
    (make_request : client_class -> string -> gmap string pyval -> World ->
                    (string + client_error) * World)
    (others : World -> ApiKeyManager -> ApiKeyManager * World)
    (fs : FileSystem) (km : ApiKeyManager) (w : World)
    (model_group prompt : string) (kwargs : gmap string pyval) :
  (forall p, p ∈ get_available_providers km ->
     _initialized km = true /\ queue_of km p = []) ->
  manager (call make_request others fs km w model_group prompt kwargs) = km /\
  world (call make_request others fs km w model_group prompt kwargs) = w /\
  Forall (fun ma => without_request (snd ma))
    (trace (call make_request others fs km w model_group prompt kwargs)) /\
  (MODEL_GROUPS !! model_group <> None ->
   result (call make_request others fs km w model_group prompt kwargs)
   = inr (Exception_ (exhausted_message model_group
            (last_failure (trace (call make_request others fs km w model_group
                                    prompt kwargs)))))).
Proof.
  intros Hnk.
  assert (manager (call make_request others fs km w model_group prompt kwargs) = km /\
          world (call make_request others fs km w model_group prompt kwargs) = w /\
          Forall (fun ma => without_request (snd ma))
            (trace (call make_request others fs km w model_group prompt kwargs)))
    as (Hm & Hw & Ht).
  { unfold call. destruct (get_model_group model_group) as [|m0 models].
    - cbn [manager world trace]. split_and!; [done | done | constructor].
    - by apply call_loop_no_keys. }
  split_and!; [done | done | done |].
  intros Hg. destruct (MODEL_GROUPS !! model_group) as [models|] eqn:Hgm; [|done].
  pose proof (group_nonempty _ _ Hgm) as Hne.
  revert Ht. unfold call, get_model_group. rewrite Hgm. unfold default, from_option, id.
  destruct models as [|m0 models]; [by destruct Hne|]. lazy beta match. intros Ht.
  pose proof (call_loop_outcome make_request others fs model_group prompt kwargs
                (get_available_providers km) (m0 :: models) km w None) as Ho.
  destruct (result (call_loop make_request others fs model_group prompt kwargs
                      (get_available_providers km) (m0 :: models) km w None))
    as [text|e].
  - destruct Ho as (tr & m & provider & key & ps & rest & Htr & _).
    rewrite Htr in Ht. apply Forall_app in Ht as [_ Ht].
    inversion Ht as [|? ? Hbad _]; subst. destruct Hbad.
  - by destruct Ho as (-> & _).
Qed.

Lemma call_without_keys_witness :
  (forall p, p ∈ get_available_providers new_manager ->
     _initialized new_manager = true /\ queue_of new_manager p = []) /\
  manager (call (failing_client "unused") no_others one_key_fs new_manager 0
             "coding_model_group" "hi" ∅) = new_manager /\
  world (call (failing_client "unused") no_others one_key_fs new_manager 0
           "coding_model_group" "hi" ∅) = 0 /\
  result (call (failing_client "unused") no_others one_key_fs new_manager 0
            "coding_model_group" "hi" ∅)
  = inr (Exception_
           ("Failed to get a response from any model in the group " +:+
            "'coding_model_group'. Last error: None")).
Proof.
  assert (H : forall p, p ∈ get_available_providers new_manager ->
                _initialized new_manager = true /\ queue_of new_manager p = [])
    by (intros p Hp; by apply elem_of_nil in Hp).
  split; [exact H|].
  destruct (call_without_keys (failing_client "unused") no_others one_key_fs new_manager 0
              "coding_model_group" "hi" ∅ H) as (Hm & Hw & _ & _).
  split; [exact Hm|]. split; [exact Hw|]. reflexivity.
Defined.

(** ** A call that runs alone *)

Section Alone.
Context {World : Type}.
Variable make_request :
  client_class -> string -> gmap string pyval -> World ->
  (string + client_error) * World.
Variable fs : FileSystem.

Lemma keys_truthy_perm km km1 (gone : string -> list string) :
  keys_truthy km ->
  (forall p, queue_of km p ≡ₚ queue_of km1 p ++ gone p) ->
  keys_truthy km1.
Proof.
  intros Ht Hp p key Hin. apply (Ht p). rewrite (Hp p). apply elem_of_app. by left.
Qed.

(** One turn, with no other task at its suspensions: the key it takes is
    back at the tail of the queue or retired when the turn ends. *)
Lemma try_model_alone prompt kwargs avail m km w le :
  _initialized km = true -> keys_truthy km ->
  match try_model make_request (fun w km => (km, w)) fs prompt kwargs avail m km w le with
  | Return text km1 _ a =>
      _initialized km1 = true /\
      (forall p, queue_of km p ≡ₚ queue_of km1 p ++ retired_by p a) /\
      exists p key ps q,
        a = Succeeded p key ps text /\
        queue_of km p = key :: q /\ queue_of km1 p = q ++ [key]
  | Continue km1 _ _ a =>
      _initialized km1 = true /\
      (forall p, queue_of km p ≡ₚ queue_of km1 p ++ retired_by p a)
  | Propagate _ _ _ => False
  end.
Proof.
  intros Hi Ht. unfold try_model.
  destruct (get_model_config m) as [details|] eqn:Hc.
  2: { split; [exact Hi | intros p; cbn [retired_by]; by rewrite app_nil_r]. }
  destruct (registry_entry_supported _ _ Hc) as [-> (provider & cls & -> & Hm)].
  destruct (negb (existsb (String.eqb provider) avail)).
  { split; [exact Hi | intros p; cbn [retired_by]; by rewrite app_nil_r]. }
  rewrite get_key_suspended_alone.
  destruct (get_key fs km provider) as [[key|e] km1] eqn:Hg.
  2: { destruct (get_key_err _ _ _ _ _ Hi Hg) as (-> & _ & _).
       split; [exact Hi | intros p; cbn [retired_by]; by rewrite app_nil_r]. }
  destruct (get_key_ok _ _ _ _ _ Hi Hg) as (Hq & Hother & Hreg & Hi1).
  assert (truthy key = true) as Hk.
  { apply (Ht provider). rewrite Hq. by left. }
  assert (registered km1 provider = true) as Hr1.
  { rewrite Hreg. by apply (queue_nonempty_registered km provider key (queue_of km1 provider)). }
  assert (forall p, queue_of km p ≡ₚ
            queue_of (release_key km1 provider key false) p) as Hback.
  { intros p. rewrite release_key_queue, Hr1. cbn [andb].
    destruct (String.eqb provider p) eqn:E.
    - apply String.eqb_eq in E as <-. rewrite Hq. apply Permutation_cons_append.
    - apply String.eqb_neq in E. by rewrite Hother. }
  rewrite Hm, Hk. cbn [negb].
  destruct (make_request cls key (call_params details kwargs prompt m) w) as [r w2].
  destruct r as [response|ce].
  - split_and!.
    + by rewrite release_key_initialized.
    + intros p. cbn [retired_by]. by rewrite app_nil_r.
    + exists provider, key, (call_params details kwargs prompt m), (queue_of km1 provider).
      split_and!; [reflexivity | exact Hq |].
      by rewrite release_key_queue, Hr1, String.eqb_refl.
  - unfold handle_error. rewrite Hk.
    destruct (is_auth_error (str_exn (exn_of_client ce))).
    + rewrite release_key_retire. split; [exact Hi1|].
      intros p. cbn [retired_by]. destruct (String.eqb provider p) eqn:E.
      * apply String.eqb_eq in E as <-. rewrite Hq. apply Permutation_cons_append.
      * apply String.eqb_neq in E. by rewrite app_nil_r, Hother.
    + split; [by rewrite release_key_initialized|].
      intros p. cbn [retired_by]. by rewrite app_nil_r.
Qed.

Lemma call_loop_alone g prompt kwargs avail models : forall km w le,
  _initialized km = true -> keys_truthy km ->
  (forall p,
     queue_of km p ≡ₚ
     queue_of (manager (call_loop make_request (fun w km => (km, w)) fs g prompt kwargs
                          avail models km w le)) p
     ++ retired_in p (trace (call_loop make_request (fun w km => (km, w)) fs g prompt
                               kwargs avail models km w le))) /\
  (forall text,
     result (call_loop make_request (fun w km => (km, w)) fs g prompt kwargs
               avail models km w le) = inl text ->
     exists tr m p key ps q,
       trace (call_loop make_request (fun w km => (km, w)) fs g prompt kwargs
                avail models km w le) = tr ++ [(m, Succeeded p key ps text)] /\
       queue_of (manager (call_loop make_request (fun w km => (km, w)) fs g prompt kwargs
                            avail models km w le)) p = q ++ [key]).
Proof.
  induction models as [|m0 models IH]; intros km w le Hi Ht; cbn [call_loop].
  - cbn [manager trace result]. split; [|intros ? [=]].
    intros p. unfold retired_in. cbn [flat_map]. by rewrite app_nil_r.
  - pose proof (try_model_alone prompt kwargs avail m0 km w le Hi Ht) as Hturn.
    destruct (try_model make_request (fun w km => (km, w)) fs prompt kwargs avail m0 km w le)
      as [text km1 w1 a1|km1 w1 le1 a1|e km1 w1]; cbn [manager trace result logged].
    + destruct Hturn as (_ & Hp & p & key & ps & q & -> & _ & Hq1). split.
      * intros p'. rewrite (Hp p'). unfold retired_in. cbn [flat_map snd retired_by].
        by rewrite !app_nil_r.
      * intros text' [= <-]. by exists [], m0, p, key, ps, q.
    + destruct Hturn as (Hi1 & Hp).
      assert (keys_truthy km1) as Ht1
        by (apply (keys_truthy_perm km km1 (fun p => retired_by p a1)); done).
      destruct (IH km1 w1 le1 Hi1 Ht1) as [IHp IHs]. split.
      * intros p. rewrite (Hp p), (IHp p) at 1. unfold retired_in. cbn [flat_map snd].
        rewrite <- !app_assoc. f_equiv. apply Permutation_app_comm.
      * intros text Hr. destruct (IHs text Hr) as (tr & m & p & key & ps & q & -> & Hq).
        by exists ((m0, a1) :: tr), m, p, key, ps, q.
    + destruct Hturn.
Qed.

End Alone.

(** X15: a call gives back every key it takes. When no other task
    touches the manager while the call is suspended, the manager is
    initialized and no queued key is empty, then for every provider the keys
    in its queue before the call are, up to their order, the keys in its
    queue after the call together with the keys that the call retired: no
    key stays checked out, whether the call ends with a response or with
    the final error. *)
Theorem call_returns_every_key {World : Type}
    (make_request : client_class -> string -> gmap string pyval -> World ->
                    (string + client_error) * World)
    (fs : FileSystem) (km : ApiKeyManager) (w : World)
    (model_group prompt : string) (kwargs : gmap string pyval) (p : string) :
  _initialized km = true ->
  keys_truthy km ->
  queue_of km p ≡ₚ
  queue_of (manager (call make_request (fun w km => (km, w)) fs km w
                       model_group prompt kwargs)) p
  ++ retired_in p (trace (call make_request (fun w km => (km, w)) fs km w
                            model_group prompt kwargs)).
Proof.
  intros Hi Ht. unfold call. destruct (get_model_group model_group) as [|m0 models].
  - cbn [manager trace]. unfold retired_in. cbn [flat_map]. by rewrite app_nil_r.
  - by apply call_loop_alone.
Qed.

Lemma call_returns_every_key_witness :
  _initialized (loaded google_mistral_fs) = true /\
  keys_truthy (loaded google_mistral_fs) /\
  retired_in "google"
    (trace (call (failing_client "Mistral API Error 401: Unauthorized")
              (fun w km => (km, w)) google_mistral_fs (loaded google_mistral_fs) 0
              "coding_model_group" "hi" ∅)) = ["g1"] /\
  queue_of (loaded google_mistral_fs) "google" ≡ₚ
  queue_of (manager (call (failing_client "Mistral API Error 401: Unauthorized")
                       (fun w km => (km, w)) google_mistral_fs (loaded google_mistral_fs) 0
                       "coding_model_group" "hi" ∅)) "google"
  ++ retired_in "google"
       (trace (call (failing_client "Mistral API Error 401: Unauthorized")
                 (fun w km => (km, w)) google_mistral_fs (loaded google_mistral_fs) 0
                 "coding_model_group" "hi" ∅)).
Proof.
  assert (H1 : _initialized (loaded google_mistral_fs) = true) by reflexivity.
  pose proof (loaded_keys_truthy google_mistral_fs) as H2.
  split; [exact H1|]. split; [exact H2|]. split; [reflexivity|].
  exact (call_returns_every_key (failing_client "Mistral API Error 401: Unauthorized")
           google_mistral_fs (loaded google_mistral_fs) 0 "coding_model_group" "hi" ∅
           "google" H1 H2).
Defined.

(** X16: a call that ends with a response ends with the turn that got
    it, and the key of that turn is then the last one in the queue of its
    provider: every other key of the queue is issued before this one is
    issued again. As before, the manager is initialized, no queued key is
    empty and no other task touches the manager meanwhile. *)
Theorem response_key_goes_last {World : Type}
    (make_request : client_class -> string -> gmap string pyval -> World ->
                    (string + client_error) * World)
    (fs : FileSystem) (km : ApiKeyManager) (w : World)
    (model_group prompt : string) (kwargs : gmap string pyval) (text : string) :
  _initialized km = true ->
  keys_truthy km ->
  result (call make_request (fun w km => (km, w)) fs km w model_group prompt kwargs)
  = inl text ->
  exists tr m p key ps q,
    trace (call make_request (fun w km => (km, w)) fs km w model_group prompt kwargs)
    = tr ++ [(m, Succeeded p key ps text)] /\
    queue_of (manager (call make_request (fun w km => (km, w)) fs km w
                         model_group prompt kwargs)) p = q ++ [key].
Proof.
  intros Hi Ht. unfold call. destruct (get_model_group model_group) as [|m0 models].
  - cbn [result]. intros [=].
  - by apply call_loop_alone.
Qed.

Lemma response_key_goes_last_witness :
  result (call google_down_client (fun w km => (km, w)) google_mistral_fs
            (loaded google_mistral_fs) 0 "coding_model_group" "hi" ∅) = inl "answer" /\
  exists tr m p key ps q,
    trace (call google_down_client (fun w km => (km, w)) google_mistral_fs
             (loaded google_mistral_fs) 0 "coding_model_group" "hi" ∅)
    = tr ++ [(m, Succeeded p key ps "answer")] /\
    queue_of (manager (call google_down_client (fun w km => (km, w)) google_mistral_fs
                         (loaded google_mistral_fs) 0 "coding_model_group" "hi" ∅)) p
    = q ++ [key].
Proof.
  assert (H1 : _initialized (loaded google_mistral_fs) = true) by reflexivity.
  pose proof (loaded_keys_truthy google_mistral_fs) as H2.
  assert (H3 : result (call google_down_client (fun w km => (km, w)) google_mistral_fs
                         (loaded google_mistral_fs) 0 "coding_model_group" "hi" ∅)
               = inl "answer") by reflexivity.
  split; [exact H3|].
  exact (response_key_goes_last google_down_client google_mistral_fs
           (loaded google_mistral_fs) 0 "coding_model_group" "hi" ∅ "answer" H1 H2 H3).
Defined.

(** ** The test for an authentication failure on the texts of the clients *)

Lemma is_auth_error_alt msg :
  is_auth_error msg = contains "401" msg || contains "403" msg.
Proof. unfold is_auth_error. by rewrite api_key_test_never_holds, orb_false_r. Qed.

(** A text in front that lacks the first character of [sub] neither adds
    nor hides an occurrence of [sub]. *)
Lemma contains_skip h sub pre s :
  all_chars (fun c => negb (Ascii.eqb c h)) pre = true ->
  contains (String h sub) (pre +:+ s) = contains (String h sub) s.
Proof.
  induction pre as [|c pre IH]; [done|]. cbn [all_chars].
  intros [Hc Hpre]%andb_true_iff. rewrite append_cons. cbn [contains String.prefix].
  apply negb_true_iff, Ascii.eqb_neq in Hc.
  destruct (ascii_dec h c) as [->|_]; [done|]. by apply IH.
Qed.

Lemma prefix_before c sub a t :
  all_chars (fun x => negb (Ascii.eqb x c)) sub = true ->
  String.prefix sub (a +:+ String c t) = String.prefix sub a.
Proof.
  revert sub. induction a as [|y a IH]; intros [|x sub]; cbn [all_chars]; [done | | done |].
  - intros [Hx _]%andb_true_iff. rewrite append_nil_l. cbn [String.prefix].
    apply negb_true_iff, Ascii.eqb_neq in Hx. by destruct (ascii_dec x c).
  - intros [_ Hsub]%andb_true_iff. rewrite append_cons. cbn [String.prefix].
    destruct (ascii_dec x y); [by apply IH | done].
Qed.

(** A character that [sub] lacks cuts the search in two. *)
Lemma contains_cut c sub a t :
  all_chars (fun x => negb (Ascii.eqb x c)) sub = true ->
  contains sub (a +:+ String c t) = contains sub a || contains sub t.
Proof.
  intros Hsub. induction a as [|y a IH].
  - rewrite append_nil_l. cbn [contains].
    rewrite <- (append_nil_l (String c t)) at 1.
    rewrite (prefix_before c sub EmptyString t Hsub). by rewrite orb_false_r.
  - rewrite append_cons. cbn [contains]. rewrite IH.
    rewrite <- append_cons, (prefix_before c sub (String y a) t Hsub).
    by rewrite orb_assoc.
Qed.

Lemma is_auth_error_skip pre msg :
  all_chars (fun c => negb (Ascii.eqb c "4"%char)) pre = true ->
  is_auth_error (pre +:+ msg) = is_auth_error msg.
Proof. intros H. by rewrite !is_auth_error_alt, !contains_skip. Qed.

Lemma is_auth_error_cut a t :
  is_auth_error (a +:+ ": " +:+ t) = is_auth_error a || is_auth_error t.
Proof.
  rewrite !is_auth_error_alt.
  change (a +:+ ": " +:+ t) with (a +:+ String ":" (" " +:+ t)).
  rewrite !contains_cut by reflexivity. rewrite !contains_skip by reflexivity.
  destruct (contains "401" a), (contains "403" a), (contains "401" t); reflexivity.
Qed.

Lemma failed_prefix_skip cls e :
  is_auth_error (Clients.failed_prefix cls +:+ e) = is_auth_error e.
Proof. apply is_auth_error_skip. by destruct cls. Qed.

(** ** The provider clients *)

(** X17: every failure of a request comes out of a client as an
    [IOError] whose text is the prefix of the client, or for Mistral the
    prefix of a connection error, followed by a text [e]; and the test of
    the gateway for an authentication failure gives on the whole text what
    it gives on [e]: no prefix makes a key retire or keeps it from it. *)
Theorem client_prefix_keeps_auth_test {World : Type} (lib : Clients.libraries World)
    (cls : client_class) (api_key model_name prompt : string)
    (kwargs : gmap string pyval) (w w1 : World) (err : client_error) :
  Clients.make_request lib cls api_key model_name prompt kwargs w = (inr err, w1) ->
  exists e,
    (err = Clients.io_error cls e \/
     cls = MistralClient /\ err = ClientIOError ("Mistral connection error: " +:+ e)) /\
    is_auth_error (str_exn (exn_of_client err)) = is_auth_error e.
Proof.
  unfold Clients.make_request. destruct cls.
  - unfold Clients.google_make_request.
    destruct (Clients.generate_content lib _ _ _ _) as [[response|e] w2].
    + destruct (Clients.response_text response); [intros [=]|].
      destruct (Clients.parts_text response) as [[|x l]|e]; [|intros [=]|].
      * intros [= <- <-]. exists Clients.no_text_message.
        split; [by left | apply (failed_prefix_skip GoogleClient)].
      * intros [= <- <-]. exists e.
        split; [by left | apply (failed_prefix_skip GoogleClient)].
    + intros [= <- <-]. exists e. split; [by left | apply (failed_prefix_skip GoogleClient)].
  - unfold Clients.mistral_make_request.
    destruct (Clients.post lib _ _) as [[r|e|e] w2].
    + destruct (negb (Clients.status_code r =? 200)%Z).
      * intros [= <- <-]. eexists. split; [by left | apply (failed_prefix_skip MistralClient)].
      * destruct (Clients.content r) as [c|e]; [intros [=]|].
        intros [= <- <-]. exists e. split; [by left | apply (failed_prefix_skip MistralClient)].
    + intros [= <- <-]. exists e. split; [by right | by apply is_auth_error_skip].
    + intros [= <- <-]. exists e. split; [by left | apply (failed_prefix_skip MistralClient)].
  - unfold Clients.groq_make_request.
    destruct (Clients.groq_create lib _ _ _) as [[c|e] w2]; [intros [=]|].
    intros [= <- <-]. exists e. split; [by left | apply (failed_prefix_skip GroqClient)].
  - unfold Clients.cohere_make_request.
    destruct (Clients.cohere_chat lib _ _ _ _) as [[c|e] w2]; [intros [=]|].
    intros [= <- <-]. exists e. split; [by left | apply (failed_prefix_skip CohereClient)].
  - unfold Clients.cerebras_make_request.
    destruct (Clients.post lib _ _) as [[r|e|e] w2].
    + destruct (Clients.raise_for_status r) as [e|].
      * intros [= <- <-]. exists e. split; [by left | apply (failed_prefix_skip CerebrasClient)].
      * destruct (Clients.content r) as [c|e]; [intros [=]|].
        intros [= <- <-]. exists e. split; [by left | apply (failed_prefix_skip CerebrasClient)].
    + intros [= <- <-]. exists e. split; [by left | apply (failed_prefix_skip CerebrasClient)].
    + intros [= <- <-]. exists e. split; [by left | apply (failed_prefix_skip CerebrasClient)].
Qed.

Lemma client_prefix_keeps_auth_test_witness :
  Clients.make_request (Doubles.status_lib 500 "oops") GroqClient "k1"
    "llama-3.1-8b-instant" "hi" ∅ 0
  = (inr (ClientIOError "Groq API call failed: Error code: 401"), 1) /\
  exists e,
    (ClientIOError "Groq API call failed: Error code: 401" = Clients.io_error GroqClient e \/
     GroqClient = MistralClient /\
     ClientIOError "Groq API call failed: Error code: 401"
     = ClientIOError ("Mistral connection error: " +:+ e)) /\
    is_auth_error (str_exn (exn_of_client (ClientIOError "Groq API call failed: Error code: 401")))
    = is_auth_error e.
Proof.
  assert (H : Clients.make_request (Doubles.status_lib 500 "oops") GroqClient "k1"
                "llama-3.1-8b-instant" "hi" ∅ 0
              = (inr (ClientIOError "Groq API call failed: Error code: 401"), 1))
    by reflexivity.
  split; [exact H|].
  exact (client_prefix_keeps_auth_test _ _ _ _ _ _ _ _ _ H).
Defined.

Lemma pretty_401 : pretty 401%Z = "401".
Proof. reflexivity. Qed.

Lemma pretty_403 : pretty 403%Z = "403".
Proof. reflexivity. Qed.

(** X18: a response of Mistral with a status other than 200 is raised as
    one [IOError] that carries the status and the body behind two prefixes,
    and the gateway takes it for an authentication failure exactly when the
    digits of the status or the body hold 401 or 403. So the statuses 401
    and 403 always retire the key, and so does any other status whose body
    mentions one of the two numbers. *)
Theorem mistral_status_decides_retirement {World : Type} (lib : Clients.libraries World)
    (api_key model_name prompt : string) (kwargs : gmap string pyval)
    (w w1 : World) (r : Clients.http_response) :
  Clients.post lib (Clients.mistral_request api_key model_name prompt kwargs) w
  = (Clients.Responded r, w1) ->
  Clients.status_code r <> 200%Z ->
  Clients.mistral_make_request lib api_key model_name prompt kwargs w
  = (inr (ClientIOError
            ("Mistral API call failed: Mistral API Error "
             +:+ pretty (Clients.status_code r) +:+ ": " +:+ Clients.text r)), w1) /\
  is_auth_error
    ("Mistral API call failed: Mistral API Error "
     +:+ pretty (Clients.status_code r) +:+ ": " +:+ Clients.text r)
  = is_auth_error (pretty (Clients.status_code r)) || is_auth_error (Clients.text r) /\
  (Clients.status_code r = 401%Z \/ Clients.status_code r = 403%Z ->
   forall (km : ApiKeyManager) (ps : option (gmap string pyval)),
     truthy api_key = true ->
     handle_error km w1 "mistral" api_key ps
       (exn_of_client
          (ClientIOError
             ("Mistral API call failed: Mistral API Error "
              +:+ pretty (Clients.status_code r) +:+ ": " +:+ Clients.text r)))
     = Continue km w1
         (Some (OSError ("Mistral API call failed: Mistral API Error "
                         +:+ pretty (Clients.status_code r) +:+ ": " +:+ Clients.text r)))
         (Failed "mistral" api_key ps
            (OSError ("Mistral API call failed: Mistral API Error "
                      +:+ pretty (Clients.status_code r) +:+ ": " +:+ Clients.text r))
            true)).
Proof.
  intros Hpost Hs.
  assert (is_auth_error
            ("Mistral API call failed: Mistral API Error "
             +:+ pretty (Clients.status_code r) +:+ ": " +:+ Clients.text r)
          = is_auth_error (pretty (Clients.status_code r)) || is_auth_error (Clients.text r))
    as Hauth.
  { change ("Mistral API call failed: Mistral API Error "
            +:+ pretty (Clients.status_code r) +:+ ": " +:+ Clients.text r)
      with ("Mistral API call failed: Mistral API Error "
            +:+ (pretty (Clients.status_code r) +:+ ": " +:+ Clients.text r)).
    rewrite is_auth_error_skip by reflexivity. apply is_auth_error_cut. }
  split_and!.
  - unfold Clients.mistral_make_request. rewrite Hpost.
    apply Z.eqb_neq in Hs. rewrite Hs. cbn [negb]. reflexivity.
  - exact Hauth.
  - intros H401 km ps Hk. unfold handle_error. rewrite Hk. cbn [exn_of_client str_exn].
    rewrite Hauth.
    assert (is_auth_error (pretty (Clients.status_code r)) = true) as ->.
    { destruct H401 as [->| ->]; [rewrite pretty_401 | rewrite pretty_403]; reflexivity. }
    cbn [orb]. by rewrite release_key_retire.
Qed.

Lemma mistral_status_decides_retirement_witness :
  Clients.mistral_make_request (Doubles.status_lib 401 "Unauthorized") "m1"
    "codestral-2501" "hi" ∅ 0
  = (inr (ClientIOError
            "Mistral API call failed: Mistral API Error 401: Unauthorized"), 1) /\
  is_auth_error "Mistral API call failed: Mistral API Error 401: Unauthorized" = true.
Proof.
  assert (H1 : Clients.post (Doubles.status_lib 401 "Unauthorized")
                 (Clients.mistral_request "m1" "codestral-2501" "hi" ∅) 0
               = (Clients.Responded
                    {| Clients.status_code := 401; Clients.text := "Unauthorized";
                       Clients.raise_for_status := Some "status 401";
                       Clients.content := inr "Expecting value: line 1 column 1 (char 0)" |},
                  1)) by reflexivity.
  assert (H2 : 401%Z <> 200%Z) by discriminate.
  destruct (mistral_status_decides_retirement _ _ _ _ _ _ _ _ H1 H2) as (Hr & _ & _).
  split; [exact Hr | reflexivity].
Defined.

(** ** What a candidate sends *)

Lemma call_params_lookup d kwargs prompt m k :
  k <> "prompt" -> k <> "model_name" ->
  call_params d kwargs prompt m !! k =
  match kwargs !! k with
  | Some v => Some v
  | None => d !! k
  end.
Proof.
  intros Hp Hm. unfold call_params. rewrite !lookup_insert_ne by done.
  destruct (kwargs !! k) as [v|] eqn:Hk.
  - by apply lookup_union_Some_l.
  - by rewrite lookup_union_r.
Qed.

Lemma client_kwargs_lookup params k :
  k <> "prompt" -> k <> "model_name" ->
  Clients.client_kwargs params !! k = params !! k.
Proof. intros Hp Hm. unfold Clients.client_kwargs. by rewrite !lookup_delete_ne. Qed.

(** An entry of the registry holds a provider, a description and at most
    a mode, which is then [reasoning]. *)
Lemma registry_entry_shape m d :
  get_model_config m = Some d ->
  exists provider description,
    d = reasoning provider description \/ d = plain provider description.
Proof.
  unfold get_model_config, MODELS_REGISTRY. intros H.
  apply elem_of_list_to_map_2, list_elem_of_In in H.
  assert (Forall (fun md => exists provider description,
                    snd md = reasoning provider description \/
                    snd md = plain provider description)
            registry_entries) as HF.
  { unfold registry_entries.
    repeat (apply List.Forall_cons;
            [eexists _, _; first [left; reflexivity | right; reflexivity]|]).
    apply List.Forall_nil. }
  rewrite List.Forall_forall in HF. apply (HF (m, d) H).
Qed.

Lemma registry_entry_lookup m d k :
  get_model_config m = Some d ->
  k <> "provider" -> k <> "description" ->
  d !! k = None \/ (k = "mode" /\ d !! k = Some (PStr "reasoning")).
Proof.
  intros H Hp Hd. destruct (registry_entry_shape m d H) as (p & desc & [-> | ->]).
  - unfold reasoning. destruct (decide (k = "mode")) as [->|Hm].
    + right. split; [done|]. rewrite lookup_insert_ne by done. by rewrite lookup_insert_eq.
    + left. rewrite !lookup_insert_ne by done. by rewrite lookup_singleton_ne.
  - left. unfold plain. rewrite lookup_insert_ne by done. by rewrite lookup_singleton_ne.
Qed.

(** What [make_request] finds in its [kwargs] under a key that the
    registry does not use: what the caller of [call] gave. *)
Lemma kwargs_of_call m d kwargs prompt k :
  get_model_config m = Some d ->
  k <> "prompt" -> k <> "model_name" ->
  k <> "provider" -> k <> "description" -> k <> "mode" ->
  Clients.client_kwargs (call_params d kwargs prompt m) !! k = kwargs !! k.
Proof.
  intros H Hp Hm Hpr Hd Hmo.
  rewrite client_kwargs_lookup, call_params_lookup by done.
  destruct (kwargs !! k); [reflexivity|].
  destruct (registry_entry_lookup m d k H Hpr Hd) as [Hn|[Hk _]]; [exact Hn|].
  by destruct Hmo.
Qed.

Lemma get_is_of_call m d kwargs prompt k s :
  get_model_config m = Some d ->
  k <> "prompt" -> k <> "model_name" ->
  k <> "provider" -> k <> "description" ->
  s <> "reasoning" ->
  Clients.get_is (Clients.client_kwargs (call_params d kwargs prompt m)) k s
  = Clients.get_is kwargs k s.
Proof.
  intros H Hp Hm Hpr Hd Hs. unfold Clients.get_is.
  rewrite client_kwargs_lookup, call_params_lookup by done.
  destruct (kwargs !! k); [reflexivity|].
  destruct (registry_entry_lookup m d k H Hpr Hd) as [->|[_ ->]]; [reflexivity|].
  by apply String.eqb_neq, not_eq_sym.
Qed.

(** X19: what Mistral is sent for a candidate of the registry. The model
    is the candidate, whatever the caller passed; the messages are those of
    the caller when the caller passed [messages], and the prompt is then not
    sent at all, else the prompt as one user message; [temperature] and
    [max_tokens] are sent when the caller passed them; the response format
    is asked to be JSON when the caller passed the mode [json] or the
    response format [json_object]; and no other field is sent: the
    provider, the description and the mode of the registry stay behind. *)
Theorem mistral_payload_of_call (m : string) (d kwargs : gmap string pyval)
    (prompt : string) :
  get_model_config m = Some d ->
  PyDict.get (Clients.mistral_payload m prompt
                (Clients.client_kwargs (call_params d kwargs prompt m))) "model"
  = Some (PStr m) /\
  PyDict.get (Clients.mistral_payload m prompt
                (Clients.client_kwargs (call_params d kwargs prompt m))) "messages"
  = Some (default (Clients.user_message prompt) (kwargs !! "messages")) /\
  PyDict.get (Clients.mistral_payload m prompt
                (Clients.client_kwargs (call_params d kwargs prompt m))) "temperature"
  = kwargs !! "temperature" /\
  PyDict.get (Clients.mistral_payload m prompt
                (Clients.client_kwargs (call_params d kwargs prompt m))) "max_tokens"
  = kwargs !! "max_tokens" /\
  PyDict.get (Clients.mistral_payload m prompt
                (Clients.client_kwargs (call_params d kwargs prompt m))) "response_format"
  = (if Clients.get_is kwargs "mode" "json"
        || Clients.get_is kwargs "response_format" "json_object"
     then Some (PDict [("type", PStr "json_object")]) else None) /\
  forall k,
    k ∈ PyDict.keys (Clients.mistral_payload m prompt
                       (Clients.client_kwargs (call_params d kwargs prompt m))) ->
    k ∈ ["model"; "messages"; "temperature"; "max_tokens"; "response_format"].
Proof.
  intros H. unfold Clients.mistral_payload, Clients.copy_option.
  rewrite !(kwargs_of_call m d kwargs prompt _ H) by discriminate.
  rewrite !(get_is_of_call m d kwargs prompt _ _ H) by discriminate.
  clear H.
  destruct (kwargs !! "messages") as [msgs|], (kwargs !! "temperature") as [t|],
    (kwargs !! "max_tokens") as [n|],
    (Clients.get_is kwargs "mode" "json"
     || Clients.get_is kwargs "response_format" "json_object");
    (split_and!; [reflexivity | reflexivity | reflexivity | reflexivity | reflexivity |]);
    intros k Hk; cbn in Hk; rewrite ?elem_of_cons in Hk; rewrite !elem_of_cons;
    intuition (subst; auto).
Qed.

Lemma mistral_payload_of_call_witness :
  get_model_config "codestral-2501" = Some (plain PROVIDER_MISTRAL "Mistral Codestral 2501.") /\
  Clients.mistral_payload "codestral-2501" "hi"
    (Clients.client_kwargs
       (call_params (plain PROVIDER_MISTRAL "Mistral Codestral 2501.")
          {[ "model" := PStr "other"; "max_tokens" := PInt 64; "mode" := PStr "json" ]}
          "hi" "codestral-2501"))
  = [("model", PStr "codestral-2501");
     ("messages", Clients.user_message "hi");
     ("max_tokens", PInt 64);
     ("response_format", PDict [("type", PStr "json_object")])] /\
  PyDict.get (Clients.mistral_payload "codestral-2501" "hi"
                (Clients.client_kwargs
                   (call_params (plain PROVIDER_MISTRAL "Mistral Codestral 2501.")
                      {[ "model" := PStr "other"; "max_tokens" := PInt 64;
                         "mode" := PStr "json" ]}
                      "hi" "codestral-2501"))) "model"
  = Some (PStr "codestral-2501").
Proof.
  assert (H : get_model_config "codestral-2501"
              = Some (plain PROVIDER_MISTRAL "Mistral Codestral 2501.")) by reflexivity.
  split; [exact H|]. split; [reflexivity|].
  exact (proj1 (mistral_payload_of_call "codestral-2501" _
                  {[ "model" := PStr "other"; "max_tokens" := PInt 64;
                     "mode" := PStr "json" ]} "hi" H)).
Defined.

(** X20: what Cerebras and Groq are sent for a candidate of the
    registry: the candidate as the model, the prompt as one user message,
    and [reasoning_effort] when the caller passed it. Nothing else of the
    caller's options and nothing of the registry is sent; in particular
    [messages], which Mistral takes from the caller, is not read. *)
Theorem chat_payloads_of_call (m : string) (d kwargs : gmap string pyval)
    (prompt : string) :
  get_model_config m = Some d ->
  Clients.cerebras_payload m prompt (Clients.client_kwargs (call_params d kwargs prompt m))
  = [("model", PStr m); ("messages", Clients.user_message prompt)]
    ++ match kwargs !! "reasoning_effort" with
       | Some v => [("reasoning_effort", v)]
       | None => []
       end /\
  Clients.groq_payload m prompt (Clients.client_kwargs (call_params d kwargs prompt m))
  = [("messages", Clients.user_message prompt); ("model", PStr m)]
    ++ match kwargs !! "reasoning_effort" with
       | Some v => [("reasoning_effort", v)]
       | None => []
       end.
Proof.
  intros H. unfold Clients.cerebras_payload, Clients.groq_payload, Clients.copy_option.
  rewrite !(kwargs_of_call m d kwargs prompt _ H) by discriminate. clear H.
  destruct (kwargs !! "reasoning_effort"); split; reflexivity.
Qed.

Lemma chat_payloads_of_call_witness :
  get_model_config "gpt-oss-120b" = Some (plain PROVIDER_CEREBRAS "GPT-OSS 120B.") /\
  Clients.cerebras_payload "gpt-oss-120b" "hi"
    (Clients.client_kwargs
       (call_params (plain PROVIDER_CEREBRAS "GPT-OSS 120B.")
          {[ "reasoning_effort" := PStr "low"; "messages" := PList [] ]}
          "hi" "gpt-oss-120b"))
  = [("model", PStr "gpt-oss-120b"); ("messages", Clients.user_message "hi");
     ("reasoning_effort", PStr "low")].
Proof.
  assert (H : get_model_config "gpt-oss-120b"
              = Some (plain PROVIDER_CEREBRAS "GPT-OSS 120B.")) by reflexivity.
  split; [exact H|].
  pose proof (proj1 (chat_payloads_of_call "gpt-oss-120b" _
                       {[ "reasoning_effort" := PStr "low"; "messages" := PList [] ]}
                       "hi" H)) as Hp.
  exact Hp.
Defined.

(** X21: the Google model of a candidate is built with the tool that
    switches the reasoning on exactly when the mode is [reasoning], and the
    mode is the one the caller passed, or without it the one of the
    registry. So a caller can switch the tool off for a Gemini model by
    passing another mode, and on for a model whose entry has no mode. *)
Theorem google_tool_follows_mode (m : string) (d kwargs : gmap string pyval)
    (prompt : string) :
  get_model_config m = Some d ->
  Clients.google_model_kwargs (Clients.client_kwargs (call_params d kwargs prompt m))
  = (if match kwargs !! "mode" with
        | Some v => Clients.get_is kwargs "mode" "reasoning"
        | None => Clients.get_is d "mode" "reasoning"
        end
     then [("tools", Clients.DUMMY_TOOL)] else []) /\
  (Clients.get_is d "mode" "reasoning" = true <-> d !! "mode" <> None).
Proof.
  intros H. split.
  - unfold Clients.google_model_kwargs, Clients.get_is.
    rewrite client_kwargs_lookup, call_params_lookup by discriminate.
    by destruct (kwargs !! "mode").
  - unfold Clients.get_is.
    destruct (registry_entry_lookup m d "mode" H) as [->|[_ ->]]; [discriminate.. | |].
    + split; [discriminate | intros Hn; by destruct Hn].
    + split; [discriminate | reflexivity].
Qed.

Lemma google_tool_follows_mode_witness :
  get_model_config "gemini-2.5-pro" = Some (reasoning PROVIDER_GOOGLE "Gemini 2.5 Pro.") /\
  Clients.google_model_kwargs
    (Clients.client_kwargs
       (call_params (reasoning PROVIDER_GOOGLE "Gemini 2.5 Pro.") ∅ "hi" "gemini-2.5-pro"))
  = [("tools", Clients.DUMMY_TOOL)] /\
  Clients.google_model_kwargs
    (Clients.client_kwargs
       (call_params (reasoning PROVIDER_GOOGLE "Gemini 2.5 Pro.")
          {[ "mode" := PStr "plain" ]} "hi" "gemini-2.5-pro"))
  = [].
Proof.
  assert (H : get_model_config "gemini-2.5-pro"
              = Some (reasoning PROVIDER_GOOGLE "Gemini 2.5 Pro.")) by reflexivity.
  split; [exact H|]. split.
  - exact (proj1 (google_tool_follows_mode "gemini-2.5-pro" _ ∅ "hi" H)).
  - reflexivity.
Defined.

Lemma append_nil_r (a : string) : a +:+ EmptyString = a.
Proof. induction a as [|c a IH]; [done|]. rewrite append_cons. by f_equal. Qed.

Lemma join_contains sep x l : In x l -> contains x (join sep l) = true.
Proof.
  intros Hin. apply contains_spec. induction l as [|h l IH]; [done|].
  destruct Hin as [->|Hin].
  - exists EmptyString. destruct l as [|h' l].
    + exists EmptyString. cbn [join]. by rewrite append_nil_l, append_nil_r.
    + exists (String sep (join sep (h' :: l))). by rewrite append_nil_l.
  - destruct l as [|h' l]; [done|]. destruct (IH Hin) as (pre & post & Hj).
    exists (h +:+ String sep pre), post.
    change (join sep (h :: h' :: l)) with (h +:+ String sep (join sep (h' :: l))).
    rewrite Hj. by rewrite !append_assoc, append_cons.
Qed.

Lemma join_nonempty sep l :
  l <> [] -> Forall (fun x => x <> EmptyString) l -> join sep l <> EmptyString.
Proof.
  destruct l as [|h l]; [done|]. intros _ Hall. inversion Hall as [|? ? Hh _]; subst.
  destruct h as [|c h]; [done|]. by destruct l.
Qed.

Lemma part_texts_nonempty p texts :
  Clients.part_texts p = inl texts -> Forall (fun x => x <> EmptyString) texts.
Proof.
  unfold Clients.part_texts.
  assert (Forall (fun x => x <> EmptyString)
            match Clients.part_text p with
            | Clients.Value t => if truthy t then [t] else []
            | _ => []
            end) as Ht.
  { destruct (Clients.part_text p) as [|t|e]; [constructor | | constructor].
    destruct t; cbn [truthy]; by repeat constructor. }
  destruct (Clients.part_text p) as [|t|e]; [| |intros [=]];
    (destruct (Clients.function_call p) as [|[|name args|e']|e']; intros [= <-];
     first [ exact Ht
           | apply Forall_app; split; [exact Ht | by repeat constructor]
           | by repeat constructor ]).
Qed.

Lemma parts_texts_nonempty ps : forall texts,
  Clients.parts_texts ps = inl texts -> Forall (fun x => x <> EmptyString) texts.
Proof.
  induction ps as [|p ps IH]; intros texts; cbn [Clients.parts_texts].
  - intros [= <-]. constructor.
  - destruct (Clients.part_texts p) as [ts|e] eqn:Hp; [|intros [=]].
    destruct (Clients.parts_texts ps) as [ts'|e]; [|intros [=]]. intros [= <-].
    apply Forall_app. split; [by apply (part_texts_nonempty p) | by apply IH].
Qed.

Lemma parts_text_nonempty response texts :
  Clients.parts_text response = inl texts -> Forall (fun x => x <> EmptyString) texts.
Proof.
  unfold Clients.parts_text. destruct (Clients.parts response) as [|ps|e].
  - intros [= <-]. constructor.
  - apply parts_texts_nonempty.
  - intros [=].
Qed.

(** A function call of a part is among the texts of a loop that ends. *)
Lemma parts_texts_call ps : forall texts p name args,
  Clients.parts_texts ps = inl texts -> In p ps ->
  Clients.function_call p = Clients.Value (Clients.Call name args) ->
  In (Clients.tool_call_text name args) texts.
Proof.
  induction ps as [|q ps IH]; intros texts p name args; cbn [Clients.parts_texts]; [by intros _ []|].
  destruct (Clients.part_texts q) as [ts|e] eqn:Hq; [|intros [=]].
  destruct (Clients.parts_texts ps) as [ts'|e] eqn:Hps; [|intros [=]].
  intros [= <-] [->|Hin] Hfc; apply in_or_app.
  - left. unfold Clients.part_texts in Hq. rewrite Hfc in Hq.
    destruct (Clients.part_text p) as [|t|e]; [| |discriminate];
      injection Hq as <-; first [by left | apply in_or_app; right; by left].
  - right. by apply (IH ts' p name args).
Qed.

(** X22: a Google response whose text cannot be read is answered from
    its parts. When reading the parts, or an attribute of a part, raises,
    as the library does on a response without a candidate, the request
    fails with an [IOError] that carries the text of that exception. When
    the parts can be read and none has a text or a function call, the
    request fails with the [IOError] that says so. Otherwise the request
    succeeds, with the texts of the parts joined line by line: the answer
    is never the empty text, and every function call of a part is in it as
    a fenced comment that names it. *)
Theorem google_answer_from_parts {World : Type} (lib : Clients.libraries World)
    (model_name prompt : string) (kwargs : gmap string pyval) (w w1 : World)
    (response : Clients.google_response) :
  Clients.generate_content lib model_name (Clients.google_model_kwargs kwargs) prompt w
  = (inl response, w1) ->
  Clients.response_text response = None ->
  (forall e, Clients.parts response = Clients.Raises e ->
     Clients.google_make_request lib model_name prompt kwargs w
     = (inr (ClientIOError ("Google API call failed: " +:+ e)), w1)) /\
  (forall e, Clients.parts_text response = inr e ->
     Clients.google_make_request lib model_name prompt kwargs w
     = (inr (ClientIOError ("Google API call failed: " +:+ e)), w1)) /\
  (Clients.parts_text response = inl [] ->
   Clients.google_make_request lib model_name prompt kwargs w
   = (inr (ClientIOError
             "Google API call failed: Response contained no text or function calls."),
      w1)) /\
  (forall x l, Clients.parts_text response = inl (x :: l) ->
     Clients.google_make_request lib model_name prompt kwargs w
     = (inl (join newline (x :: l)), w1)) /\
  (forall t,
     Clients.google_make_request lib model_name prompt kwargs w = (inl t, w1) ->
     t <> EmptyString /\
     forall ps p name args,
       Clients.parts response = Clients.Value ps -> In p ps ->
       Clients.function_call p = Clients.Value (Clients.Call name args) ->
       contains (Clients.tool_call_text name args) t = true).
Proof.
  intros Hg Ht. unfold Clients.google_make_request. rewrite Hg, Ht. split_and!.
  - intros e He. unfold Clients.parts_text. by rewrite He.
  - by intros e ->.
  - by intros ->.
  - by intros x l ->.
  - intros t. destruct (Clients.parts_text response) as [[|x l]|e] eqn:Hpt; [intros [=] | |intros [=]].
    intros [= <-]. split.
    + apply (join_nonempty newline (x :: l)); [discriminate|].
      by apply (parts_text_nonempty response).
    + intros ps p name args Hps Hin Hfc. apply (join_contains newline _ (x :: l)).
      unfold Clients.parts_text in Hpt. rewrite Hps in Hpt.
      by apply (parts_texts_call ps (x :: l) p name args).
Qed.

Lemma google_answer_from_parts_witness :
  Clients.google_make_request (Doubles.status_lib 200 "") "gemini-2.5-pro" "hi" ∅ 0
  = (inl (Clients.tool_call_text "execute_code" "{'code': 'print(1)'}"), 1) /\
  Clients.tool_call_text "execute_code" "{'code': 'print(1)'}" <> EmptyString /\
  Clients.google_make_request (Doubles.no_candidate_lib "no candidates") "gemini-2.5-pro"
    "hi" ∅ 0
  = (inr (ClientIOError "Google API call failed: no candidates"), 1).
Proof.
  assert (H1 : Clients.generate_content (Doubles.status_lib 200 "") "gemini-2.5-pro"
                 (Clients.google_model_kwargs ∅) "hi" 0
               = (inl {| Clients.response_text := None;
                         Clients.parts :=
                           Clients.Value
                             [{| Clients.part_text := Clients.Value EmptyString;
                                 Clients.function_call :=
                                   Clients.Value
                                     (Clients.Call "execute_code" "{'code': 'print(1)'}") |}] |},
                  1)) by reflexivity.
  assert (H2 : Clients.google_make_request (Doubles.status_lib 200 "") "gemini-2.5-pro"
                 "hi" ∅ 0
               = (inl (Clients.tool_call_text "execute_code" "{'code': 'print(1)'}"), 1))
    by reflexivity.
  assert (H3 : Clients.generate_content (Doubles.no_candidate_lib "no candidates")
                 "gemini-2.5-pro" (Clients.google_model_kwargs ∅) "hi" 0
               = (inl {| Clients.response_text := None;
                         Clients.parts := Clients.Raises "no candidates" |}, 1))
    by reflexivity.
  split; [exact H2|]. split.
  - destruct (google_answer_from_parts _ _ _ _ _ _ _ H1 eq_refl) as (_ & _ & _ & _ & Hne).
    exact (proj1 (Hne _ H2)).
  - destruct (google_answer_from_parts _ _ _ _ _ _ _ H3 eq_refl) as (Hr & _).
    exact (Hr _ eq_refl).
Defined.

(** ** The decorator [observable] *)

(** The world after a call is the second component of what it gives. *)
Ltac back H :=
  let E := fresh in
  pose proof (f_equal snd H) as E; cbn [snd] in E; rewrite <- E; clear E.

Section WrapperFacts.
Import Observability.
Context {Time World Exn Result : Type}.
Variable rt : @runtime Time World Exn Result.
Variables (override : option string) (func_name : string).
Variables (args : list string) (kwargs : list (string * string)).
Variable func : @Context -> World -> @run Time World Exn Result.

(** The wrapper step by step, when the bus is there. *)
Lemma wrapper_unfold ctx w w0 :
  get_event_bus rt w = (None, w0) ->
  exists ctx1 w_in r ctx2 w_out inner s e w',
    func ctx1 w_in = (r, ctx2, w_out, inner) /\
    wrapper rt override func_name args kwargs func ctx w
    = (r, restore ctx (negb (is_set (trace_id_var ctx))) ctx2, w', s :: inner ++ [e]) /\
    (is_set (trace_id_var ctx) = true -> trace_id_var ctx1 = trace_id_var ctx) /\
    (is_set (trace_id_var ctx) = false -> trace_id_var ctx1 = Some (fst (uuid4 rt w0))) /\
    (exists w1, span_id_var ctx1 = Some (fst (uuid4 rt w1))) /\
    s = {| type := "EXECUTION_START";
           source := if is_set override then default func_name override else func_name;
           data := InputData args kwargs;
           trace_id := trace_id_var ctx1; span_id := span_id_var ctx1;
           parent_span_id := span_id_var ctx; timestamp := timestamp s |} /\
    e = {| type := match r with
                   | inl _ => "EXECUTION_COMPLETE"
                   | inr _ => "EXECUTION_ERROR"
                   end;
           source := if is_set override then default func_name override else func_name;
           data := data e;
           trace_id := trace_id_var ctx1; span_id := span_id_var ctx1;
           parent_span_id := span_id_var ctx; timestamp := timestamp e |} /\
    match r with
    | inl res =>
        exists d, data e = OutputData d (output_preview_of (truthy_result rt res)
                                           (str_result rt res))
    | inr ex => exists d, data e = ErrorData d (str_exn rt ex)
    end /\
    forall I, keeps rt I -> (I w -> I w_in) /\ (I w_out -> I w').
Proof.
  intros Hbus. unfold wrapper. rewrite Hbus.
  assert (forall I, keeps rt I -> I w -> I w0) as K0.
  { intros I (Kb & _) HI. specialize (Kb w HI). by rewrite Hbus in Kb. }
  assert (forall I a, keeps rt I -> I a -> I (snd (uuid4 rt a))) as Ku
    by (intros I a (_ & _ & K & _); apply K).
  assert (forall I a, keeps rt I -> I a -> I (snd (utcnow rt a))) as Kn
    by (intros I a (_ & _ & _ & _ & K); apply K).
  assert (forall I a, keeps rt I -> I a -> I (snd (time rt a))) as Kt
    by (intros I a (_ & _ & _ & K & _); apply K).
  assert (forall I ev a, keeps rt I -> I a -> I (publish rt ev a)) as Kp
    by (intros I ev a (_ & K & _); apply K).
  destruct (is_set (trace_id_var ctx)) eqn:Hset.
  - destruct (uuid4 rt w0) as [span w2] eqn:Hu. unfold emit at 1.
    destruct (utcnow rt w2) as [ts w3] eqn:Hn. destruct (time rt _) as [t0 w4] eqn:Ht0.
    destruct (func _ w4) as [[[r ctx2] w5] inner] eqn:Hf.
    destruct (time rt w5) as [t1 w6] eqn:Ht1.
    destruct r as [res|ex]; unfold emit; destruct (utcnow rt w6) as [ts' w7] eqn:Hn';
      (do 9 eexists; split; [exact Hf|]; split; [reflexivity|]);
      cbn [trace_id_var span_id_var negb];
      (split_and!; [done | done | exists w0; by rewrite Hu | reflexivity | reflexivity
                    | eexists; reflexivity |]);
      (intros I HK; split; intros HI;
       [ back Ht0; apply (Kt I _ HK), (Kp I _ _ HK); back Hn; apply (Kn I _ HK);
         back Hu; apply (Ku I _ HK); by apply K0
       | apply (Kp I _ _ HK); back Hn'; apply (Kn I _ HK); back Ht1;
         by apply (Kt I _ HK) ]).
  - destruct (uuid4 rt w0) as [u w1] eqn:Hu1.
    destruct (uuid4 rt w1) as [span w2] eqn:Hu. unfold emit at 1.
    destruct (utcnow rt w2) as [ts w3] eqn:Hn. destruct (time rt _) as [t0 w4] eqn:Ht0.
    destruct (func _ w4) as [[[r ctx2] w5] inner] eqn:Hf.
    destruct (time rt w5) as [t1 w6] eqn:Ht1.
    destruct r as [res|ex]; unfold emit; destruct (utcnow rt w6) as [ts' w7] eqn:Hn';
      (do 9 eexists; split; [exact Hf|]; split; [reflexivity|]);
      cbn [trace_id_var span_id_var negb];
      (split_and!; [done | done | exists w1; by rewrite Hu | reflexivity | reflexivity
                    | eexists; reflexivity |]);
      (intros I HK; split; intros HI;
       [ back Ht0; apply (Kt I _ HK), (Kp I _ _ HK); back Hn; apply (Kn I _ HK);
         back Hu; apply (Ku I _ HK); back Hu1; apply (Ku I _ HK); by apply K0
       | apply (Kp I _ _ HK); back Hn'; apply (Kn I _ HK); back Ht1;
         by apply (Kt I _ HK) ]).
Qed.

End WrapperFacts.

(** X23: the wrapper of [observable] is transparent. When the bus
    cannot be had, its exception is raised before the function is called and
    the context is left alone. Otherwise the function is called once, in a
    context where a span is set and the trace is the caller's when the
    caller had one, and its result is returned, or its exception raised
    again, as it is; afterwards the span of the caller is back, and so is
    the caller's trace when the caller had none. *)
Theorem observable_is_transparent {Time World Exn Result : Type}
    (rt : @Observability.runtime Time World Exn Result)
    (override : option string) (func_name : string)
    (args : list string) (kwargs : list (string * string))
    (func : Observability.Context -> World -> @Observability.run Time World Exn Result)
    (ctx : Observability.Context) (w : World) :
  match Observability.get_event_bus rt w with
  | (Some ex, w0) =>
      Observability.wrapper rt override func_name args kwargs func ctx w
      = (inr ex, ctx, w0, [])
  | (None, w0) =>
      exists ctx1 w_in r ctx2 w_out inner s e w',
        func ctx1 w_in = (r, ctx2, w_out, inner) /\
        Observability.wrapper rt override func_name args kwargs func ctx w
        = (r, Observability.restore ctx
                (negb (Observability.is_set (Observability.trace_id_var ctx))) ctx2,
           w', s :: inner ++ [e]) /\
        Observability.span_id_var ctx1 <> None /\
        (Observability.is_set (Observability.trace_id_var ctx) = true ->
         Observability.trace_id_var ctx1 = Observability.trace_id_var ctx) /\
        Observability.span_id_var
          (Observability.restore ctx
             (negb (Observability.is_set (Observability.trace_id_var ctx))) ctx2)
        = Observability.span_id_var ctx /\
        (Observability.is_set (Observability.trace_id_var ctx) = false ->
         Observability.trace_id_var
           (Observability.restore ctx
              (negb (Observability.is_set (Observability.trace_id_var ctx))) ctx2)
         = Observability.trace_id_var ctx)
  end.
Proof.
  destruct (Observability.get_event_bus rt w) as [[ex|] w0] eqn:Hbus.
  - unfold Observability.wrapper. by rewrite Hbus.
  - destruct (wrapper_unfold rt override func_name args kwargs func ctx w w0 Hbus)
      as (ctx1 & w_in & r & ctx2 & w_out & inner & s & e & w' & Hf & Hw & Ht & _ & [w1 Hs] & _).
    exists ctx1, w_in, r, ctx2, w_out, inner, s, e, w'.
    split_and!; [exact Hf | exact Hw | by rewrite Hs | exact Ht | reflexivity |].
    intros Hn. unfold Observability.restore. cbn [Observability.trace_id_var].
    by rewrite Hn.
Qed.

(** X24: what the wrapper publishes. When the bus is there, the events
    of a wrapped call are one [EXECUTION_START], the events of the function,
    and one [EXECUTION_COMPLETE] when the function returned or one
    [EXECUTION_ERROR] when it raised. The first and the last carry the same
    source, trace and span; their parent is the span of the caller; the
    trace is the one of the caller when the caller had one; the start
    carries the arguments, the end the first 500 characters of the result,
    or [None] for a result that is false, or the text of the exception. *)
Theorem observable_brackets_events {Time World Exn Result : Type}
    (rt : @Observability.runtime Time World Exn Result)
    (override : option string) (func_name : string)
    (args : list string) (kwargs : list (string * string))
    (func : Observability.Context -> World -> @Observability.run Time World Exn Result)
    (ctx : Observability.Context) (w w0 : World) :
  Observability.get_event_bus rt w = (None, w0) ->
  exists s inner e,
    snd (Observability.wrapper rt override func_name args kwargs func ctx w)
    = s :: inner ++ [e] /\
    (exists ctx1 w_in ctx2 w_out,
       func ctx1 w_in
       = (fst (fst (fst (Observability.wrapper rt override func_name args kwargs func ctx w))),
          ctx2, w_out, inner)) /\
    Observability.type s = "EXECUTION_START" /\
    Observability.type e
    = match fst (fst (fst (Observability.wrapper rt override func_name args kwargs
                             func ctx w))) with
      | inl _ => "EXECUTION_COMPLETE"
      | inr _ => "EXECUTION_ERROR"
      end /\
    Observability.source s
    = (if Observability.is_set override then default func_name override else func_name) /\
    Observability.source e = Observability.source s /\
    Observability.trace_id e = Observability.trace_id s /\
    Observability.span_id e = Observability.span_id s /\
    Observability.span_id s <> None /\
    Observability.parent_span_id s = Observability.span_id_var ctx /\
    Observability.parent_span_id e = Observability.span_id_var ctx /\
    (Observability.is_set (Observability.trace_id_var ctx) = true ->
     Observability.trace_id s = Observability.trace_id_var ctx) /\
    Observability.data s = Observability.InputData args kwargs /\
    match fst (fst (fst (Observability.wrapper rt override func_name args kwargs
                           func ctx w))) with
    | inl res =>
        exists d, Observability.data e
                  = Observability.OutputData d
                      (if Observability.truthy_result rt res
                       then String.substring 0 500 (Observability.str_result rt res)
                       else "None")
    | inr ex =>
        exists d, Observability.data e
                  = Observability.ErrorData d (Observability.str_exn rt ex)
    end.
Proof.
  intros Hbus.
  destruct (wrapper_unfold rt override func_name args kwargs func ctx w w0 Hbus)
    as (ctx1 & w_in & r & ctx2 & w_out & inner & s & e & w' & Hf & Hw & Ht & _ & [w1 Hs]
        & Hse & Hee & Hd & _).
  exists s, inner, e. rewrite Hw. cbn [fst snd].
  split; [reflexivity|]. split; [by exists ctx1, w_in, ctx2, w_out|].
  rewrite Hse, Hee. cbn [Observability.type Observability.source Observability.trace_id
                         Observability.span_id Observability.parent_span_id
                         Observability.data].
  split_and!; try reflexivity.
  - by rewrite Hs.
  - exact Ht.
  - exact Hd.
Qed.

Lemma observable_brackets_events_witness :
  map Observability.type
    (snd (Observability.wrapper Doubles.counting_runtime (Some "Planner") "execute_async"
            ["build it"] []
            (fun ctx n => (inr (ValueError "no plan"), ctx, n, []))
            {| Observability.trace_id_var := None; Observability.span_id_var := None |} 0))
  = ["EXECUTION_START"; "EXECUTION_ERROR"] /\
  exists s inner e,
    snd (Observability.wrapper Doubles.counting_runtime (Some "Planner") "execute_async"
           ["build it"] []
           (fun ctx n => (inr (ValueError "no plan"), ctx, n, []))
           {| Observability.trace_id_var := None; Observability.span_id_var := None |} 0)
    = s :: inner ++ [e] /\
    Observability.source s = "Planner" /\
    Observability.trace_id e = Observability.trace_id s.
Proof.
  split; [reflexivity|].
  destruct (observable_brackets_events Doubles.counting_runtime (Some "Planner")
              "execute_async" ["build it"] []
              (fun ctx n => (inr (ValueError "no plan"), ctx, n, []))
              {| Observability.trace_id_var := None; Observability.span_id_var := None |}
              0 0 eq_refl)
    as (s & inner & e & He & _ & _ & _ & Hs & _ & Ht & _).
  exists s, inner, e. split; [exact He|]. split; [exact Hs | exact Ht].
Defined.

Lemma is_set_some u : u <> EmptyString -> Observability.is_set (Some u) = true.
Proof. by destruct u. Qed.

(** X25: a wrapped function that awaits a wrapped function builds one
    trace with it. When the bus is there and the identifiers are not empty,
    the events of the caller start with its [EXECUTION_START] and end with
    its end event, both in one trace that is set. When the code before the
    call raises, there is no call. Otherwise the callee reports in the
    trace of its caller, with the span of its caller as the parent of its
    own span, and its two events stand between those of the caller. The
    end event of the callee tells how the callee ended, the end event of
    the caller how the caller ended: a caller that lets the exception of
    the callee pass reports an error as well, a caller that catches it, as
    [decide_mode] does with [execute], reports [EXECUTION_COMPLETE] after
    the [EXECUTION_ERROR] of the callee. *)
Theorem nested_spans_share_the_trace {Time World Exn Result A : Type}
    (rt : @Observability.runtime Time World Exn Result)
    (outer_override inner_override : option string) (outer_name inner_name : string)
    (outer_args : list string) (outer_kwargs : list (string * string))
    (inner_args : A -> list string) (inner_kwargs : A -> list (string * string))
    (before : World -> (A + Exn) * World * list Observability.Event)
    (func : A -> Observability.Context -> World -> @Observability.run Time World Exn Result)
    (after : A -> Result + Exn -> World ->
             (Result + Exn) * World * list Observability.Event)
    (ctx : Observability.Context) (w : World) :
  (forall w, fst (Observability.get_event_bus rt w) = None) ->
  (forall w, fst (Observability.uuid4 rt w) <> EmptyString) ->
  exists so eo w_in,
    Observability.type so = "EXECUTION_START" /\
    Observability.trace_id so <> None /\
    Observability.span_id so <> None /\
    Observability.trace_id eo = Observability.trace_id so /\
    Observability.span_id eo = Observability.span_id so /\
    Observability.type eo
    = Observability.end_type
        (fst (fst (fst (Observability.wrapper rt outer_override outer_name outer_args
                          outer_kwargs
                          (Observability.awaiting before
                             (fun a => Observability.wrapper rt inner_override inner_name
                                         (inner_args a) (inner_kwargs a) (func a))
                             after)
                          ctx w)))) /\
    match before w_in with
    | (inr ex, _, evs1) =>
        fst (fst (fst (Observability.wrapper rt outer_override outer_name outer_args
                         outer_kwargs
                         (Observability.awaiting before
                            (fun a => Observability.wrapper rt inner_override inner_name
                                        (inner_args a) (inner_kwargs a) (func a))
                            after)
                         ctx w))) = inr ex /\
        snd (Observability.wrapper rt outer_override outer_name outer_args outer_kwargs
               (Observability.awaiting before
                  (fun a => Observability.wrapper rt inner_override inner_name
                              (inner_args a) (inner_kwargs a) (func a))
                  after)
               ctx w)
        = so :: evs1 ++ [eo]
    | (inl a, _, evs1) =>
        exists si inner ei ctx_f w_f r_in ctx2 w2 w_a r_out w3 evs3,
          snd (Observability.wrapper rt outer_override outer_name outer_args outer_kwargs
                 (Observability.awaiting before
                    (fun a => Observability.wrapper rt inner_override inner_name
                                (inner_args a) (inner_kwargs a) (func a))
                    after)
                 ctx w)
          = so :: (evs1 ++ (si :: inner ++ [ei]) ++ evs3) ++ [eo] /\
          func a ctx_f w_f = (r_in, ctx2, w2, inner) /\
          after a r_in w_a = (r_out, w3, evs3) /\
          fst (fst (fst (Observability.wrapper rt outer_override outer_name outer_args
                           outer_kwargs
                           (Observability.awaiting before
                              (fun a => Observability.wrapper rt inner_override inner_name
                                          (inner_args a) (inner_kwargs a) (func a))
                              after)
                           ctx w))) = r_out /\
          Observability.trace_id si = Observability.trace_id so /\
          Observability.trace_id ei = Observability.trace_id so /\
          Observability.parent_span_id si = Observability.span_id so /\
          Observability.parent_span_id ei = Observability.span_id so /\
          Observability.span_id si <> None /\
          Observability.span_id ei = Observability.span_id si /\
          Observability.type si = "EXECUTION_START" /\
          Observability.type ei = Observability.end_type r_in
    end.
Proof.
  intros Hbus Huuid.
  assert (forall w, Observability.get_event_bus rt w
                    = (None, snd (Observability.get_event_bus rt w))) as Hbus'.
  { intros w1. specialize (Hbus w1).
    destruct (Observability.get_event_bus rt w1) as [o w2]. cbn in Hbus. by subst. }
  destruct (wrapper_unfold rt outer_override outer_name outer_args outer_kwargs
              (Observability.awaiting before
                 (fun a => Observability.wrapper rt inner_override inner_name
                             (inner_args a) (inner_kwargs a) (func a))
                 after)
              ctx w _ (Hbus' w))
    as (ctx1 & w_in & r & ctx2 & w_out & evs & so & eo & w' & Hf & Hw & Ht & Hn & [w1 Hs]
        & Hso & Heo & _).
  assert (Observability.is_set (Observability.trace_id_var ctx1) = true) as Hset.
  { destruct (Observability.is_set (Observability.trace_id_var ctx)) eqn:E.
    - by rewrite (Ht eq_refl).
    - rewrite (Hn eq_refl). by apply is_set_some. }
  assert (Observability.trace_id_var ctx1 <> None) as Hsome.
  { intros Hnone. by rewrite Hnone in Hset. }
  exists so, eo, w_in. rewrite Hw. cbn [fst snd].
  assert (Observability.trace_id so = Observability.trace_id_var ctx1) as Hts
    by (by rewrite Hso).
  assert (Observability.span_id so = Observability.span_id_var ctx1) as Hss
    by (by rewrite Hso).
  split_and!.
  - by rewrite Hso.
  - by rewrite Hts.
  - by rewrite Hss, Hs.
  - by rewrite Hts, Heo.
  - by rewrite Hss, Heo.
  - rewrite Heo. cbn [Observability.type]. by destruct r.
  - unfold Observability.awaiting in Hf.
    destruct (before w_in) as [[[a|ex] w_b] evs1].
    + destruct (wrapper_unfold rt inner_override inner_name (inner_args a) (inner_kwargs a)
                  (func a) ctx1 w_b _ (Hbus' w_b))
        as (ctx_f & w_f & r_in & ctx2' & w2 & inner & si & ei & w_a & Hf' & Hw' & Ht' & _
            & [w1' Hs'] & Hsi & Hei & _).
      rewrite Hw' in Hf.
      destruct (after a r_in w_a) as [[r_out w3] evs3] eqn:Ha.
      injection Hf as <- _ _ <-.
      exists si, inner, ei, ctx_f, w_f, r_in, ctx2', w2, w_a, r_out, w3, evs3.
      specialize (Ht' Hset).
      split_and!; [reflexivity | exact Hf' | exact Ha | reflexivity | ..].
      * by rewrite Hsi, Hts, Ht'.
      * by rewrite Hei, Hts, Ht'.
      * by rewrite Hsi, Hss.
      * by rewrite Hei, Hss.
      * by rewrite Hsi, Hs'.
      * by rewrite Hsi, Hei.
      * by rewrite Hsi.
      * rewrite Hei. cbn [Observability.type]. by destruct r_in.
    + injection Hf as <- _ _ <-. by split.
Qed.

Lemma nested_spans_share_the_trace_witness :
  (forall w, fst (Observability.get_event_bus Doubles.counting_runtime w) = None) /\
  (forall w, fst (Observability.uuid4 Doubles.counting_runtime w) <> EmptyString) /\
  map (fun ev => (Observability.type ev, Observability.source ev,
                  Observability.span_id ev, Observability.parent_span_id ev))
    (snd (Observability.wrapper Doubles.counting_runtime None "decide_mode" ["task"] []
            (Observability.awaiting
               (fun n => (inl "prompt", n, []))
               (fun a => Observability.wrapper Doubles.counting_runtime None "execute" []
                           [("model_group", "reasoning_model_group"); ("prompt", a)]
                           (fun ctx n => (inr (ValueError "no keys"), ctx, n, [])))
               (fun _ r n => match r with
                             | inl response => (inl "classic", n, [])
                             | inr _ => (inl "research", n, [])
                             end))
            {| Observability.trace_id_var := None; Observability.span_id_var := None |} 0))
  = [("EXECUTION_START", "decide_mode", Some "id-1", None);
     ("EXECUTION_START", "execute", Some "id-5", Some "id-1");
     ("EXECUTION_ERROR", "execute", Some "id-5", Some "id-1");
     ("EXECUTION_COMPLETE", "decide_mode", Some "id-1", None)] /\
  exists so eo : @Observability.Event nat,
    Observability.type so = "EXECUTION_START" /\
    Observability.trace_id eo = Observability.trace_id so.
Proof.
  assert (H1 : forall w, fst (Observability.get_event_bus Doubles.counting_runtime w) = None)
    by (intros n; reflexivity).
  assert (H2 : forall w, fst (Observability.uuid4 Doubles.counting_runtime w) <> EmptyString)
    by (intros n; cbn; discriminate).
  split; [exact H1|]. split; [exact H2|]. split; [vm_compute; reflexivity|].
  destruct (nested_spans_share_the_trace Doubles.counting_runtime None None
              "decide_mode" "execute" ["task"] []
              (fun _ : string => [])
              (fun a => [("model_group", "reasoning_model_group"); ("prompt", a)])
              (fun n => (inl "prompt", n, []))
              (fun _ ctx n => (inr (ValueError "no keys"), ctx, n, []))
              (fun _ r n => match r with
                            | inl response => (inl "classic", n, [])
                            | inr _ => (inl "research", n, [])
                            end)
              {| Observability.trace_id_var := None; Observability.span_id_var := None |}
              0 H1 H2)
    as (so & eo & w_in & Hs & _ & _ & Ht & _).
  exists so, eo. split; [exact Hs | exact Ht].
Defined.

(** ** [execute] as the module exports it *)

Lemma process_runtime_keeps {Time W : Type}
    (rt : @Observability.runtime Time W exn string) (p : Entry.process W) :
  Observability.keeps (Entry.process_runtime rt)
    (fun q => Entry.gateway_created q = Entry.gateway_created p /\
              Entry.key_manager q = Entry.key_manager p).
Proof.
  unfold Observability.keeps, Entry.process_runtime.
  cbn [Observability.get_event_bus Observability.publish Observability.uuid4
       Observability.time Observability.utcnow].
  split_and!.
  - intros q Hq. by destruct (Observability.get_event_bus rt (Entry.outside q)).
  - intros ev q Hq. exact Hq.
  - intros q Hq. by destruct (Observability.uuid4 rt (Entry.outside q)).
  - intros q Hq. by destruct (Observability.time rt (Entry.outside q)).
  - intros q Hq. by destruct (Observability.utcnow rt (Entry.outside q)).
Qed.

(** X26: [execute] under [observable] does what its body does. When
    the bus is there, it returns or raises what [execute] without the
    decorator does on the gateway and the key manager of the process, which
    the bus, the clock and the identifiers leave alone; and it publishes
    two events with the source [execute]: the start, and the end with the
    first 500 characters of the response, for an empty response the text
    [None], or with the text of the exception. *)
Theorem execute_is_observed {Time W : Type}
    (rt : @Observability.runtime Time W exn string)
    (make_request : client_class -> string -> gmap string pyval -> W ->
                    (string + client_error) * W)
    (others : W -> ApiKeyManager -> ApiKeyManager * W)
    (fs : FileSystem) (args : list string) (kwargs_str : list (string * string))
    (model_group prompt : string) (kwargs : gmap string pyval)
    (ctx : Observability.Context) (p : Entry.process W) (o0 : W) :
  Observability.get_event_bus rt (Entry.outside p) = (None, o0) ->
  exists w_in ctx' p' s e,
    Entry.execute rt make_request others fs args kwargs_str model_group prompt kwargs ctx p
    = (result (snd (Gateway.execute make_request others fs (Entry.gateway_created p)
                      (Entry.key_manager p) w_in model_group prompt kwargs)),
       ctx', p', [s; e]) /\
    Entry.gateway_created p'
    = fst (Gateway.execute make_request others fs (Entry.gateway_created p)
             (Entry.key_manager p) w_in model_group prompt kwargs) /\
    Entry.key_manager p'
    = manager (snd (Gateway.execute make_request others fs (Entry.gateway_created p)
                      (Entry.key_manager p) w_in model_group prompt kwargs)) /\
    Observability.span_id_var ctx' = Observability.span_id_var ctx /\
    Observability.type s = "EXECUTION_START" /\
    Observability.source s = "execute" /\
    Observability.source e = "execute" /\
    Observability.data s = Observability.InputData args kwargs_str /\
    match result (snd (Gateway.execute make_request others fs (Entry.gateway_created p)
                         (Entry.key_manager p) w_in model_group prompt kwargs)) with
    | inl response =>
        Observability.type e = "EXECUTION_COMPLETE" /\
        exists d, Observability.data e
                  = Observability.OutputData d
                      (if truthy response then String.substring 0 500 response else "None")
    | inr ex =>
        Observability.type e = "EXECUTION_ERROR" /\
        exists d, Observability.data e = Observability.ErrorData d (KeyManager.str_exn ex)
    end.
Proof.
  intros Hbus. unfold Entry.execute.
  assert (Observability.get_event_bus (Entry.process_runtime rt) p
          = (None, Entry.with_outside p o0)) as Hbus'.
  { unfold Entry.process_runtime. cbn [Observability.get_event_bus]. by rewrite Hbus. }
  destruct (wrapper_unfold (Entry.process_runtime rt) None "execute" args kwargs_str
              (Entry.execute_body make_request others fs model_group prompt kwargs)
              ctx p _ Hbus')
    as (ctx1 & p_in & r & ctx2 & p_out & inner & s & e & p' & Hf & Hw & _ & _ & _
        & Hs & He & Hd & Hkeep).
  destruct (Hkeep _ (process_runtime_keeps rt p)) as [Hin _].
  destruct (Hin (conj eq_refl eq_refl)) as [Hc Hk].
  destruct (Hkeep _ (process_runtime_keeps rt p_out)) as [_ Hout].
  destruct (Hout (conj eq_refl eq_refl)) as [Hc' Hk'].
  unfold Entry.execute_body in Hf. rewrite Hc, Hk in Hf.
  exists (Entry.outside p_in).
  destruct (Gateway.execute make_request others fs (Entry.gateway_created p)
              (Entry.key_manager p) (Entry.outside p_in) model_group prompt kwargs)
    as [created out].
  injection Hf as <- <- <- <-. cbn [fst snd].
  eexists _, p', s, e. rewrite Hw. cbn [app].
  split; [reflexivity|]. rewrite Hc', Hk'.
  cbn [Entry.gateway_created Entry.key_manager Observability.restore
       Observability.span_id_var].
  rewrite Hs, He.
  cbn [Observability.type Observability.source Observability.data Observability.is_set
       Entry.process_runtime Observability.str_exn Observability.str_result
       Observability.truthy_result] in Hd |- *.
  split_and!; try reflexivity.
  destruct (result out) as [response|ex]; (split; [reflexivity | exact Hd]).
Qed.

Lemma gateway_execute_unknown_group {W : Type}
    (make_request : client_class -> string -> gmap string pyval -> W ->
                    (string + client_error) * W)
    (others : W -> ApiKeyManager -> ApiKeyManager * W)
    (fs : FileSystem) (created : bool) (km : ApiKeyManager) (w : W)
    (model_group prompt : string) (kwargs : gmap string pyval) :
  MODEL_GROUPS !! model_group = None ->
  world (snd (Gateway.execute make_request others fs created km w model_group prompt kwargs))
  = w /\
  (result (snd (Gateway.execute make_request others fs created km w model_group prompt
                  kwargs))
   = inr (ValueError (unknown_group_message model_group)) \/
   exists msg,
     listdir fs = inr msg /\
     result (snd (Gateway.execute make_request others fs created km w model_group prompt
                    kwargs))
     = inr (OSError msg)).
Proof.
  intros Hg. unfold Gateway.execute, call, get_model_group. rewrite Hg.
  unfold default, from_option, id. destruct created; [split; [reflexivity | by left]|].
  unfold initialize_providers. destruct (_initialized km);
    [split; [reflexivity | by left]|].
  destruct (listdir fs) as [files|msg]; [split; [reflexivity | by left]|].
  split; [reflexivity|]. right. by exists msg.
Qed.

Lemma execute_is_observed_witness :
  exists w_in ctx' p' s e,
    Entry.execute Doubles.counting_runtime (failing_client "unused") no_others one_key_fs
      [] [("model_group", "no_such_group"); ("prompt", "hi")] "no_such_group" "hi" ∅
      {| Observability.trace_id_var := None; Observability.span_id_var := None |}
      {| Entry.gateway_created := false; Entry.key_manager := new_manager;
         Entry.outside := 0 |}
    = (result (snd (Gateway.execute (failing_client "unused") no_others one_key_fs false
                      new_manager w_in "no_such_group" "hi" ∅)),
       ctx', p', [s; e]) /\
    Entry.key_manager p' = loaded one_key_fs /\
    Observability.type e = "EXECUTION_ERROR" /\
    Observability.source e = "execute".
Proof.
  destruct (execute_is_observed Doubles.counting_runtime (failing_client "unused") no_others
              one_key_fs [] [("model_group", "no_such_group"); ("prompt", "hi")]
              "no_such_group" "hi" ∅
              {| Observability.trace_id_var := None; Observability.span_id_var := None |}
              {| Entry.gateway_created := false; Entry.key_manager := new_manager;
                 Entry.outside := 0 |} 0 eq_refl)
    as (w_in & ctx' & p' & s & e & Hx & _ & Hk & _ & _ & _ & Hs & _ & Hd).
  exists w_in, ctx', p', s, e. split; [exact Hx|]. split; [exact Hk|].
  split; [exact (proj1 Hd) | exact Hs].
Defined.

(** ** [execute] on a group that is not configured *)

(** C6, as the specification states it, fails for the first [execute] of
    a process whose project root cannot be listed: [execute] creates the
    gateway before the group is looked at, the creation loads the keys, and
    the caller gets the [OSError] of the listing, not the error of the
    unknown group. *)
Lemma execute_unknown_group_unlistable_root :
  MODEL_GROUPS !! "groq_test_group" = None /\
  Gateway.execute (failing_client "unused") no_others Roots.unreadable_fs false new_manager 0
    "groq_test_group" "hi" ∅
  = (false, {| result := inr (OSError "[Errno 13] Permission denied: '.'");
               manager := new_manager; world := 0; trace := [] |}) /\
  fst (fst (fst (Entry.execute Doubles.counting_runtime (failing_client "unused") no_others
                   Roots.unreadable_fs [] [("model_group", "groq_test_group"); ("prompt", "hi")]
                   "groq_test_group" "hi" ∅
                   {| Observability.trace_id_var := None; Observability.span_id_var := None |}
                   {| Entry.gateway_created := false; Entry.key_manager := new_manager;
                      Entry.outside := 0 |})))
  = inr (OSError "[Errno 13] Permission denied: '.'") /\
  OSError "[Errno 13] Permission denied: '.'"
  <> ValueError (unknown_group_message "groq_test_group").
Proof. split_and!; [reflexivity | reflexivity | reflexivity | discriminate]. Qed.

(** C6 (amended): for a group name that [MODEL_GROUPS] does not hold,
    [execute] never looks at a candidate and never asks for a key: the
    trace is empty, and the manager is the one it found, after the load
    when this call is the one that creates the gateway. Its body raises the
    [ValueError] that names the group whenever the gateway exists, or the
    manager is initialized, or the project root can be listed; on a manager
    that is not initialized and a root that cannot be listed, the first
    [execute] raises the [OSError] of the listing instead and leaves the
    gateway to be created by the next call. Under [observable], [execute]
    raises what its body raises, and reports it as [EXECUTION_ERROR], when
    the event bus is there; when the bus cannot be had, it raises the
    exception of the bus before its body runs. *)
Theorem execute_unknown_group_outcome {Time W : Type}
    (rt : @Observability.runtime Time W exn string)
    (make_request : client_class -> string -> gmap string pyval -> W ->
                    (string + client_error) * W)
    (others : W -> ApiKeyManager -> ApiKeyManager * W)
    (fs : FileSystem) (args : list string) (kwargs_str : list (string * string))
    (model_group prompt : string) (kwargs : gmap string pyval)
    (ctx : Observability.Context) (p : Entry.process W) :
  MODEL_GROUPS !! model_group = None ->
  (forall (created : bool) (km : ApiKeyManager) (w : W),
     (created = true \/ _initialized km = true \/ (exists files, listdir fs = inl files) ->
      Gateway.execute make_request others fs created km w model_group prompt kwargs
      = (true, {| result := inr (ValueError (unknown_group_message model_group));
                  manager := if created then km else snd (initialize_providers fs km);
                  world := w; trace := [] |})) /\
     (forall msg, created = false -> _initialized km = false -> listdir fs = inr msg ->
      Gateway.execute make_request others fs created km w model_group prompt kwargs
      = (false, {| result := inr (OSError msg); manager := km; world := w;
                   trace := [] |}))) /\
  match Observability.get_event_bus rt (Entry.outside p) with
  | (Some ex, o0) =>
      Entry.execute rt make_request others fs args kwargs_str model_group prompt kwargs ctx p
      = (inr ex, ctx, Entry.with_outside p o0, [])
  | (None, _) =>
      exists w_in ctx' p' s e,
        Entry.execute rt make_request others fs args kwargs_str model_group prompt kwargs
          ctx p
        = (result (snd (Gateway.execute make_request others fs (Entry.gateway_created p)
                          (Entry.key_manager p) w_in model_group prompt kwargs)),
           ctx', p', [s; e]) /\
        Entry.gateway_created p'
        = fst (Gateway.execute make_request others fs (Entry.gateway_created p)
                 (Entry.key_manager p) w_in model_group prompt kwargs) /\
        Entry.key_manager p'
        = manager (snd (Gateway.execute make_request others fs (Entry.gateway_created p)
                          (Entry.key_manager p) w_in model_group prompt kwargs)) /\
        Observability.type s = "EXECUTION_START" /\
        Observability.type e = "EXECUTION_ERROR" /\
        Observability.source e = "execute"
  end.
Proof.
  intros Hg. split.
  - intros created km w. split.
    + intros Hc. unfold Gateway.execute. destruct created.
      * by rewrite (call_unknown_group _ _ _ _ _ _ _ _ Hg).
      * assert (fst (initialize_providers fs km) = inl tt) as Hok.
        { destruct Hc as [Hc|[Hc|[files Hc]]]; [discriminate | |].
          - by rewrite initialize_providers_initialized.
          - unfold initialize_providers. rewrite Hc. by destruct (_initialized km). }
        destruct (initialize_providers fs km) as [[[]|e] km1]; [|discriminate].
        cbn [snd]. by rewrite (call_unknown_group _ _ _ _ _ _ _ _ Hg).
    + intros msg -> Hi Hls. unfold Gateway.execute, initialize_providers.
      by rewrite Hi, Hls.
  - destruct (Observability.get_event_bus rt (Entry.outside p)) as [[ex|] o0] eqn:Hbus.
    + unfold Entry.execute, Observability.wrapper, Entry.process_runtime.
      cbn [Observability.get_event_bus]. by rewrite Hbus.
    + assert (Observability.get_event_bus (Entry.process_runtime rt) p
              = (None, Entry.with_outside p o0)) as Hbus'.
      { unfold Entry.process_runtime. cbn [Observability.get_event_bus]. by rewrite Hbus. }
      unfold Entry.execute.
      destruct (wrapper_unfold (Entry.process_runtime rt) None "execute" args kwargs_str
                  (Entry.execute_body make_request others fs model_group prompt kwargs)
                  ctx p _ Hbus')
        as (ctx1 & p_in & r & ctx2 & p_out & inner & s & e & p' & Hf & Hw & _ & _ & _
            & Hs & He & _ & Hkeep).
      destruct (Hkeep _ (process_runtime_keeps rt p)) as [Hin _].
      destruct (Hin (conj eq_refl eq_refl)) as [Hc Hk].
      destruct (Hkeep _ (process_runtime_keeps rt p_out)) as [_ Hout].
      destruct (Hout (conj eq_refl eq_refl)) as [Hc' Hk'].
      unfold Entry.execute_body in Hf. rewrite Hc, Hk in Hf.
      exists (Entry.outside p_in).
      destruct (gateway_execute_unknown_group make_request others fs
                  (Entry.gateway_created p) (Entry.key_manager p) (Entry.outside p_in)
                  model_group prompt kwargs Hg) as [_ Hr].
      destruct (Gateway.execute make_request others fs (Entry.gateway_created p)
                  (Entry.key_manager p) (Entry.outside p_in) model_group prompt kwargs)
        as [created out].
      injection Hf as <- <- <- <-. cbn [fst snd] in Hr |- *.
      eexists _, p', s, e. rewrite Hw. cbn [app].
      split; [reflexivity|]. rewrite Hc', Hk'.
      cbn [Entry.gateway_created Entry.key_manager].
      rewrite Hs, He. cbn [Observability.type Observability.source Observability.is_set].
      split_and!; try reflexivity.
      destruct Hr as [->|(msg & _ & ->)]; reflexivity.
Qed.

Lemma execute_unknown_group_outcome_witness :
  MODEL_GROUPS !! "groq_test_group" = None /\
  Gateway.execute (failing_client "unused") no_others one_key_fs false new_manager 0
    "groq_test_group" "Hello from groq!" ∅
  = (true, {| result := inr (ValueError (unknown_group_message "groq_test_group"));
              manager := loaded one_key_fs; world := 0; trace := [] |}) /\
  Gateway.execute (failing_client "unused") no_others Roots.unreadable_fs false new_manager 0
    "groq_test_group" "Hello from groq!" ∅
  = (false, {| result := inr (OSError "[Errno 13] Permission denied: '.'");
               manager := new_manager; world := 0; trace := [] |}).
Proof.
  assert (H : MODEL_GROUPS !! "groq_test_group" = None) by reflexivity.
  split; [exact H|]. split.
  - destruct (execute_unknown_group_outcome Doubles.counting_runtime
                (failing_client "unused") no_others one_key_fs [] []
                "groq_test_group" "Hello from groq!" ∅
                {| Observability.trace_id_var := None; Observability.span_id_var := None |}
                {| Entry.gateway_created := false; Entry.key_manager := new_manager;
                   Entry.outside := 0 |} H) as [Hbody _].
    destruct (Hbody false new_manager 0) as [Hok _].
    apply Hok. right. right. eexists. reflexivity.
  - reflexivity.
Defined.

Section Script.
Context {Time W : Type}.
Variable rt : @Observability.runtime Time W exn string.
Variable make_request :
  client_class -> string -> gmap string pyval -> W -> (string + client_error) * W.
Variable others : W -> ApiKeyManager -> ApiKeyManager * W.
Variable fs : FileSystem.

Lemma test_group_unknown group ctx p :
  MODEL_GROUPS !! group = None ->
  exists e, fst (fst (fst (Entry.test_group rt make_request others fs group ctx p))) = inr e.
Proof.
  intros Hg. unfold Entry.test_group, Entry.execute.
  destruct (Observability.get_event_bus (Entry.process_runtime rt) p) as [[ex|] p0] eqn:Hbus.
  - exists ex. unfold Observability.wrapper. by rewrite Hbus.
  - destruct (wrapper_unfold (Entry.process_runtime rt) None "execute" []
                [("model_group", group);
                 ("prompt", "Hello from " +:+ Entry.provider_name group +:+ "!")]
                (Entry.execute_body make_request others fs group
                   ("Hello from " +:+ Entry.provider_name group +:+ "!") ∅)
                ctx p _ Hbus)
      as (ctx1 & p_in & r & ctx2 & p_out & inner & s & e & p' & Hf & Hw & _).
    rewrite Hw. cbn [fst]. unfold Entry.execute_body in Hf.
    destruct (gateway_execute_unknown_group make_request others fs
                (Entry.gateway_created p_in) (Entry.key_manager p_in) (Entry.outside p_in)
                group ("Hello from " +:+ Entry.provider_name group +:+ "!") ∅ Hg)
      as [_ Hr].
    destruct (Gateway.execute make_request others fs (Entry.gateway_created p_in)
                (Entry.key_manager p_in) (Entry.outside p_in) group
                ("Hello from " +:+ Entry.provider_name group +:+ "!") ∅)
      as [created out].
    injection Hf as <- _ _ _. cbn [snd] in Hr.
    destruct Hr as [->|(msg & _ & ->)]; eauto.
Qed.

Lemma main_loop_unknown groups : forall ctx p,
  Forall (fun g => MODEL_GROUPS !! g = None) groups ->
  map fst (fst (fst (fst (Entry.main_loop rt make_request others fs groups ctx p))))
  = map Entry.provider_name groups /\
  Forall (fun pr => exists e, snd pr = inr e)
    (fst (fst (fst (Entry.main_loop rt make_request others fs groups ctx p)))).
Proof.
  induction groups as [|g groups IH]; intros ctx p Hall; cbn [Entry.main_loop].
  - split; [reflexivity | constructor].
  - inversion Hall as [|? ? Hg Hrest]; subst.
    destruct (test_group_unknown g ctx p Hg) as [e He].
    destruct (Entry.test_group rt make_request others fs g ctx p)
      as [[[r ctx1] p1] evs]. cbn [fst] in He. subst r.
    specialize (IH ctx1 p1 Hrest).
    destruct (Entry.main_loop rt make_request others fs groups ctx1 p1)
      as [[[rs ctx2] p2] evs']. cbn [fst] in IH |- *. destruct IH as [IH1 IH2].
    split; [cbn [map fst]; by rewrite IH1|]. constructor; [by exists e | exact IH2].
Qed.

End Script.

(** X27: the script [verify_providers.py] never gets a response. None of
    the three groups that it tests is a group of the configuration, so
    whatever keys the project root holds and whatever the providers would
    answer and whether or not the bus can be had, each of its three calls
    of [execute], for [groq], [cohere] and [cerebras] in this order, ends in
    an exception, which the script catches. *)
Theorem verify_providers_gets_no_response {Time W : Type}
    (rt : @Observability.runtime Time W exn string)
    (make_request : client_class -> string -> gmap string pyval -> W ->
                    (string + client_error) * W)
    (others : W -> ApiKeyManager -> ApiKeyManager * W)
    (fs : FileSystem) (ctx : Observability.Context) (p : Entry.process W) :
  Forall (fun g => MODEL_GROUPS !! g = None) Entry.test_groups /\
  map fst (fst (fst (fst (Entry.main rt make_request others fs ctx p))))
  = ["groq"; "cohere"; "cerebras"] /\
  Forall (fun pr => exists e, snd pr = inr e)
    (fst (fst (fst (Entry.main rt make_request others fs ctx p)))).
Proof.
  assert (Forall (fun g => MODEL_GROUPS !! g = None) Entry.test_groups) as Hall
    by (repeat constructor).
  split; [exact Hall|]. unfold Entry.main.
  destruct (main_loop_unknown rt make_request others fs Entry.test_groups ctx p Hall)
    as [Hm Hr].
  split; [rewrite Hm; reflexivity | exact Hr].
Qed.

(** ** The providers that a call can reach *)

Lemma PROVIDER_MAP_names p cls :
  PROVIDER_MAP !! p = Some cls ->
  p ∈ ["google"; "mistral"; "groq"; "cohere"; "cerebras"].
Proof.
  unfold PROVIDER_MAP. intros H.
  repeat (apply lookup_insert_Some in H as [[<- _]|[_ H]]; [set_solver|]).
  apply lookup_singleton_Some in H as [<- _]. set_solver.
Qed.

Section Reach.
Context {World : Type}.
Variable make_request :
  client_class -> string -> gmap string pyval -> World ->
  (string + client_error) * World.
Variable others : World -> ApiKeyManager -> ApiKeyManager * World.
Variable fs : FileSystem.

Lemma try_model_reach prompt kwargs avail m km w le :
  match try_model make_request others fs prompt kwargs avail m km w le with
  | Return _ _ _ a | Continue _ _ _ a =>
      match a with
      | UnknownModel => get_model_config m = None
      | NoProviderKeys v =>
          exists p, v = PStr p /\ p ∈ ["google"; "mistral"; "groq"; "cohere"; "cerebras"] /\
                    (p ∉ avail)
      | CheckoutFailed p _ | Failed p _ _ _ _ | Succeeded p _ _ _ =>
          p ∈ ["google"; "mistral"; "groq"; "cohere"; "cerebras"] /\ p ∈ avail
      end
  | Propagate _ _ _ => True
  end.
Proof.
  unfold try_model.
  destruct (get_model_config m) as [details|] eqn:Hc; [|reflexivity].
  destruct (registry_entry_supported _ _ Hc) as [-> (provider & cls & -> & Hm)].
  pose proof (PROVIDER_MAP_names _ _ Hm) as Hin. clear Hc.
  destruct (negb (existsb (String.eqb provider) avail)) eqn:Hav.
  { exists provider. split_and!; [reflexivity | exact Hin |].
    apply negb_true_iff in Hav. intros Hp.
    assert (existsb (String.eqb provider) avail = true) as Hex.
    { apply existsb_exists. exists provider. split; [by apply list_elem_of_In|].
      apply String.eqb_refl. }
    congruence. }
  apply negb_false_iff, existsb_eqb_elem_of in Hav.
  destruct (get_key_suspended others fs km w provider) as [[[key|e] km1] w1];
    [|by split].
  rewrite Hm. unfold handle_error. destruct (truthy key); cbn [negb]; [|by split].
  destruct (make_request cls key (call_params details kwargs prompt m) w1) as [r w2].
  destruct (others w2 km1) as [km2 w3].
  destruct r as [response|ce]; by split.
Qed.

End Reach.

(** X28: a call asks for keys of five providers only. Every turn of a
    call either finds no entry for its candidate in the registry, or its
    candidate belongs to one of [google], [mistral], [groq], [cohere] and
    [cerebras], written so; it is passed over when the manager did not list
    that provider at the start of the call, and only else is a key asked
    for. Keys loaded under any other name, a name with a capital letter
    included, are never asked for. *)
Theorem call_reaches_five_providers {World : Type}
    (make_request : client_class -> string -> gmap string pyval -> World ->
                    (string + client_error) * World)
    (others : World -> ApiKeyManager -> ApiKeyManager * World)
    (fs : FileSystem) (km : ApiKeyManager) (w : World)
    (model_group prompt : string) (kwargs : gmap string pyval) :
  Forall (fun ma =>
            match snd ma with
            | UnknownModel => get_model_config (fst ma) = None
            | NoProviderKeys v =>
                exists p, v = PStr p /\
                          p ∈ ["google"; "mistral"; "groq"; "cohere"; "cerebras"] /\
                          (p ∉ get_available_providers km)
            | CheckoutFailed p _ | Failed p _ _ _ _ | Succeeded p _ _ _ =>
                p ∈ ["google"; "mistral"; "groq"; "cohere"; "cerebras"] /\
                p ∈ get_available_providers km
            end)
    (trace (call make_request others fs km w model_group prompt kwargs)).
Proof.
  unfold call. destruct (get_model_group model_group) as [|m0 models]; [constructor|].
  apply (call_loop_trace make_request others fs
           (fun m a =>
              match a with
              | UnknownModel => get_model_config m = None
              | NoProviderKeys v =>
                  exists p, v = PStr p /\
                            p ∈ ["google"; "mistral"; "groq"; "cohere"; "cerebras"] /\
                            (p ∉ get_available_providers km)
              | CheckoutFailed p _ | Failed p _ _ _ _ | Succeeded p _ _ _ =>
                  p ∈ ["google"; "mistral"; "groq"; "cohere"; "cerebras"] /\
                  p ∈ get_available_providers km
              end)).
  intros m km' w' le. apply try_model_reach.
Qed.

Lemma lower_char_lower c : lower_char (lower_char c) = lower_char c.
Proof. destruct c as [[] [] [] [] [] [] [] []]; reflexivity. Qed.

Lemma lower_lower s : lower (lower s) = lower s.
Proof. induction s as [|c s IH]; [done|]. cbn [lower]. by rewrite lower_char_lower, IH. Qed.

(** X29: [get_provider_client] takes the name of a provider in any
    letter case: for a name that is one of the five in lower case, the
    client is the one of the name in lower case, with the key it was given;
    any other name is refused with a [ValueError] that repeats the name as
    it was given, before the key is looked at; and an empty key is refused
    by the client. *)
Theorem provider_factory_ignores_case {World : Type} (lib : Clients.libraries World)
    (provider_name api_key : string) (w : World) :
  match PROVIDER_MAP !! lower provider_name with
  | Some cls =>
      Clients.get_provider_client lib provider_name api_key w
      = Clients.get_provider_client lib (lower provider_name) api_key w /\
      fst (Clients.get_provider_client lib provider_name api_key w)
      = (if truthy api_key then inl (cls, api_key)
         else inr (ValueError (key_required_message cls)))
  | None =>
      Clients.get_provider_client lib provider_name api_key w
      = (inr (ValueError ("Unsupported provider: " +:+ provider_name)), w)
  end.
Proof.
  unfold Clients.get_provider_client. rewrite lower_lower.
  destruct (PROVIDER_MAP !! lower provider_name) as [cls|]; [|reflexivity].
  split; [reflexivity|]. unfold Clients.init.
  destruct (truthy api_key); cbn [negb]; [|reflexivity]. by destruct cls.
Qed.
